(** * keiba_data_organizer.py: the extraction core of [KeibaDataOrganizer]

    A shallow embedding of the text-extraction passes of
    [src/keiba_data_organizer.py] (line normalisation, training-section
    filter, race-info extractor, entrant segmenter, past-race parser and
    training-record extractor), with the properties of the specification
    stated and settled against them.

    Python strings are sequences of Unicode code points; they are modelled
    as [list N].  The regular expressions of the source are values of an
    inductive type [regex], run by a backtracking matcher that follows the
    semantics of Python's [re] module for the constructs the source uses
    (ordered alternation, greedy and lazy repetition, groups, [^] and [$]). *)

From Stdlib Require Import ZArith NArith Ascii String List Bool Lia.
From stdpp Require Import base option list gmap strings fin_maps.

Open Scope N_scope.
Open Scope list_scope.

(** ** Code points and string literals *)

(** The source file is UTF-8; [u] decodes a literal of this file into the
    code points the Python literal denotes. *)
Fixpoint utf8_go (s : string) (pending : N) (need : nat) : list N :=
  match s with
  | EmptyString => []
  | String a s' =>
      let b := N_of_ascii a in
      match need with
      | S n =>
          let cp := pending * 64 + b mod 64 in
          match n with
          | O => cp :: utf8_go s' 0 O
          | S _ => utf8_go s' cp n
          end
      | O =>
          if b <? 128 then b :: utf8_go s' 0 O
          else if b <? 224 then utf8_go s' (b mod 32) 1%nat
          else if b <? 240 then utf8_go s' (b mod 16) 2%nat
          else utf8_go s' (b mod 8) 3%nat
      end
  end.

Definition u (s : string) : list N := utf8_go s 0 O.

(** The single code point of a one-character literal. *)
Definition ch (s : string) : N := hd 0 (u s).

Definition NL : N := 10.

(** ** Character classes of the Python runtime *)

Definition in_range (lo hi c : N) : bool := (lo <=? c) && (c <=? hi).

(** [str.isspace], which is also what [str.strip()], [str.split()] and the
    pattern [\s] use on [str] values. *)
Definition is_space (c : N) : bool :=
  in_range 9 13 c || in_range 28 32 c || (c =? 133) || (c =? 160)
  || (c =? 5760) || in_range 8192 8202 c || (c =? 8232) || (c =? 8233)
  || (c =? 8239) || (c =? 8287) || (c =? 12288).

(** First code points of the runs of ten decimal digits (general category
    Nd, Unicode 14, the table of CPython 3.11); the mathematical digits
    U+1D7CE..U+1D7FF form one run of fifty. *)
Definition nd_runs : list N :=
  [ 0x30; 0x660; 0x6f0; 0x7c0; 0x966; 0x9e6; 0xa66; 0xae6; 0xb66; 0xbe6;
    0xc66; 0xce6; 0xd66; 0xde6; 0xe50; 0xed0; 0xf20; 0x1040; 0x1090; 0x17e0;
    0x1810; 0x1946; 0x19d0; 0x1a80; 0x1a90; 0x1b50; 0x1bb0; 0x1c40; 0x1c50;
    0xa620; 0xa8d0; 0xa900; 0xa9d0; 0xa9f0; 0xaa50; 0xabf0; 0xff10; 0x104a0;
    0x10d30; 0x11066; 0x110f0; 0x11136; 0x111d0; 0x112f0; 0x11450; 0x114d0;
    0x11650; 0x116c0; 0x11730; 0x118e0; 0x11950; 0x11c50; 0x11d50; 0x11da0;
    0x16a60; 0x16ac0; 0x16b50; 0x1e140; 0x1e2f0; 0x1e950; 0x1fbf0 ].

(** The pattern [\d] on [str] values. *)
Definition is_digit (c : N) : bool :=
  existsb (fun lo => in_range lo (lo + 9) c) nd_runs
  || in_range 0x1d7ce 0x1d7ff c.

(** The class [[0-9]]. *)
Definition is_ascii_digit (c : N) : bool := in_range 48 57 c.

(** ** String operations *)

Fixpoint starts_with (p s : list N) : bool :=
  match p, s with
  | [], _ => true
  | _ :: _, [] => false
  | a :: p', b :: s' => (a =? b) && starts_with p' s'
  end.

(** [needle in hay] *)
Fixpoint contains (needle hay : list N) : bool :=
  starts_with needle hay
  || match hay with
     | [] => false
     | _ :: hay' => contains needle hay'
     end.

Fixpoint lstrip (s : list N) : list N :=
  match s with
  | c :: s' => if is_space c then lstrip s' else s
  | [] => []
  end.

Definition rstrip (s : list N) : list N := rev (lstrip (rev s)).

(** [s.strip()] *)
Definition strip (s : list N) : list N := rstrip (lstrip s).

(** A Python string is true when it is not empty. *)
Definition truthy (s : list N) : bool :=
  match s with [] => false | _ :: _ => true end.

(** [s.split(sep)] for a one-character separator: the current piece is
    accumulated in [cur]. *)
Fixpoint split_on_go (sep : N) (s cur : list N) : list (list N) :=
  match s with
  | [] => [rev cur]
  | c :: s' =>
      if c =? sep then rev cur :: split_on_go sep s' []
      else split_on_go sep s' (c :: cur)
  end.

Definition split_on (sep : N) (s : list N) : list (list N) :=
  split_on_go sep s [].

(** [s.split()]: the maximal runs of non-whitespace characters. *)
Fixpoint split_ws_go (s cur : list N) : list (list N) :=
  match s with
  | [] => match cur with [] => [] | _ => [rev cur] end
  | c :: s' =>
      if is_space c
      then match cur with
           | [] => split_ws_go s' []
           | _ => rev cur :: split_ws_go s' []
           end
      else split_ws_go s' (c :: cur)
  end.

Definition split_ws (s : list N) : list (list N) := split_ws_go s [].

(** [sep.join(parts)] *)
Fixpoint join (sep : list N) (parts : list (list N)) : list N :=
  match parts with
  | [] => []
  | [p] => p
  | p :: ps => p ++ sep ++ join sep ps
  end.

(** ** Regular expressions *)

Inductive regex : Type :=
| Eps
| Chr (p : N -> bool)
| Seq (a b : regex)
| Alt (a b : regex)
| Star (a : regex)
| LazyStar (a : regex)
| Group (n : nat) (a : regex)
| Bol
| Eol.

(** A position of the matcher: the index in the subject, the text still
    ahead and the groups captured so far (latest first). *)
Record mstate : Type := MState {
  pos : nat;
  rest : list N;
  caps : list (nat * list N)
}.

Definition adv (st : mstate) (t : list N) : mstate :=
  MState (S (pos st)) t (caps st).

Definition set_cap (n : nat) (w : list N) (st : mstate) : mstate :=
  MState (pos st) (rest st) ((n, w) :: caps st).

(** [$] matches at the end and just before a final newline. *)
Definition at_eol (s : list N) : bool :=
  match s with
  | [] => true
  | [c] => c =? NL
  | _ => false
  end.

(** The loops of the greedy and the lazy repetition over a body matcher
    [body]: [n] bounds the iterations by the length of the text ahead, and
    an iteration that consumes nothing is not taken. *)
Fixpoint star_loop (body : mstate -> (mstate -> option mstate) -> option mstate)
  (k : mstate -> option mstate) (n : nat) (st : mstate) : option mstate :=
  match n with
  | O => k st
  | S n' =>
      match body st (fun st' =>
              if (length (rest st') <? length (rest st))%nat
              then star_loop body k n' st' else None) with
      | Some x => Some x
      | None => k st
      end
  end.

Fixpoint lazy_loop (body : mstate -> (mstate -> option mstate) -> option mstate)
  (k : mstate -> option mstate) (n : nat) (st : mstate) : option mstate :=
  match n with
  | O => k st
  | S n' =>
      match k st with
      | Some x => Some x
      | None =>
          body st (fun st' =>
            if (length (rest st') <? length (rest st))%nat
            then lazy_loop body k n' st' else None)
      end
  end.

(** The backtracking matcher, in continuation-passing style: [k] is what
    has to match after [r]; alternatives are tried in order and the first
    that lets the continuation succeed is taken. *)
Fixpoint rmatch (r : regex) (st : mstate) (k : mstate -> option mstate)
  : option mstate :=
  match r with
  | Eps => k st
  | Chr p =>
      match rest st with
      | c :: t => if p c then k (adv st t) else None
      | [] => None
      end
  | Seq a b => rmatch a st (fun st' => rmatch b st' k)
  | Alt a b =>
      match rmatch a st k with
      | Some x => Some x
      | None => rmatch b st k
      end
  | Star a => star_loop (rmatch a) k (length (rest st)) st
  | LazyStar a => lazy_loop (rmatch a) k (length (rest st)) st
  | Group n a =>
      rmatch a st (fun st' =>
        k (set_cap n (take (pos st' - pos st) (rest st)) st'))
  | Bol => if (pos st =? 0)%nat then k st else None
  | Eol => if at_eol (rest st) then k st else None
  end.

(** Regex abbreviations used by the patterns of the source. *)
Definition Plus (a : regex) : regex := Seq a (Star a).
Definition LazyPlus (a : regex) : regex := Seq a (LazyStar a).
Definition Opt (a : regex) : regex := Alt a Eps.
Definition C (s : string) : regex := Chr (N.eqb (ch s)).
Definition AnyOf (s : string) : regex :=
  Chr (fun c => existsb (N.eqb c) (u s)).
Definition NoneOf (s : string) : regex :=
  Chr (fun c => negb (existsb (N.eqb c) (u s))).
Definition Dot : regex := Chr (fun c => negb (c =? NL)).
Definition D : regex := Chr is_digit.
Definition Sp : regex := Chr is_space.
Definition NonSp : regex := Chr (fun c => negb (is_space c)).

Fixpoint lit_chars (s : list N) : regex :=
  match s with
  | [] => Eps
  | [c] => Chr (N.eqb c)
  | c :: s' => Seq (Chr (N.eqb c)) (lit_chars s')
  end.

Definition Lit (s : string) : regex := lit_chars (u s).

Fixpoint seqs (rs : list regex) : regex :=
  match rs with
  | [] => Eps
  | [r] => r
  | r :: rs' => Seq r (seqs rs')
  end.

Fixpoint alts (rs : list regex) : regex :=
  match rs with
  | [] => Eps
  | [r] => r
  | r :: rs' => Alt r (alts rs')
  end.

Fixpoint rep (n : nat) (a : regex) : regex :=
  match n with
  | O => Eps
  | 1%nat => a
  | S n' => Seq a (rep n' a)
  end.

(** A successful match: group 0 is the whole match. *)
Definition match_at (r : regex) (i : nat) (s : list N) : option mstate :=
  rmatch (Group 0 r) (MState i s []) Some.

(** [re.match(r, s)] *)
Definition re_match (r : regex) (s : list N) : option mstate :=
  match_at r 0 s.

Fixpoint search_from (r : regex) (i : nat) (s : list N) : option mstate :=
  match match_at r i s with
  | Some st => Some st
  | None =>
      match s with
      | [] => None
      | _ :: s' => search_from r (S i) s'
      end
  end.

(** [re.search(r, s)] *)
Definition re_search (r : regex) (s : list N) : option mstate :=
  search_from r 0 s.

(** [m.group(n)] *)
Fixpoint assoc_cap (n : nat) (l : list (nat * list N)) : list N :=
  match l with
  | [] => []
  | (i, w) :: l' => if (i =? n)%nat then w else assoc_cap n l'
  end.

Definition group (n : nat) (st : mstate) : list N := assoc_cap n (caps st).

Definition matched (o : option mstate) : bool :=
  match o with Some _ => true | None => false end.

(** [re.sub(r, repl, s)] for a constant replacement. *)
Fixpoint sub_from (r : regex) (repl : list N) (fuel i : nat) (s : list N)
  : list N :=
  match fuel with
  | O => s
  | S fuel' =>
      match match_at r i s with
      | Some st =>
          let n := length (group 0 st) in
          match n with
          | O =>
              match s with
              | [] => repl
              | c :: s' => repl ++ c :: sub_from r repl fuel' (S i) s'
              end
          | S _ => repl ++ sub_from r repl fuel' (i + n) (drop n s)
          end
      | None =>
          match s with
          | [] => []
          | c :: s' => c :: sub_from r repl fuel' (S i) s'
          end
      end
  end.

Definition re_sub (r : regex) (repl s : list N) : list N :=
  sub_from r repl (S (length s)) 0 s.

(** ** [filter_training_section] *)

(** [枠\s+馬\s*番.*馬名.*日付.*コース.*馬場.*乗り役] *)
Definition training_header_re : regex :=
  seqs [C "枠"; Plus Sp; C "馬"; Star Sp; C "番"; Star Dot; Lit "馬名";
        Star Dot; Lit "日付"; Star Dot; Lit "コース"; Star Dot; Lit "馬場";
        Star Dot; Lit "乗り役"].

Definition training_patterns : list regex :=
  [ (* 前走.*\d{4}/\d{2}/\d{2}.*美[坂Ｗ] *)
    seqs [Lit "前走"; Star Dot; rep 4 D; C "/"; rep 2 D; C "/"; rep 2 D;
          Star Dot; C "美"; AnyOf "坂Ｗ"];
    (* 美[坂Ｗ].*良.*[助手騎手杉原内田] *)
    seqs [C "美"; AnyOf "坂Ｗ"; Star Dot; C "良"; Star Dot;
          AnyOf "助手騎手杉原内田"];
    (* ^\d+\.\d+$ *)
    seqs [Bol; Plus D; C "."; Plus D; Eol];
    (* ^\(\d+\.\d+\)$ *)
    seqs [Bol; C "("; Plus D; C "."; Plus D; C ")"; Eol];
    (* 外.*強め.*併せ.*秒.*先着 *)
    seqs [C "外"; Star Dot; Lit "強め"; Star Dot; Lit "併せ"; Star Dot;
          C "秒"; Star Dot; Lit "先着"];
    (* ^\d+\s+[ＧＢＣ]強\s+動き.*[ＢＣ]$ *)
    seqs [Bol; Plus D; Plus Sp; AnyOf "ＧＢＣ"; C "強"; Plus Sp; Lit "動き";
          Star Dot; AnyOf "ＢＣ"; Eol];
    Lit "提供：デイリースポーツ";
    Lit "すべての最終調教を見る";
    (* ^-$ *)
    seqs [Bol; C "-"; Eol];
    Lit "ラップ表示";
    (* 位置\s+脚色\s+評価 *)
    seqs [Lit "位置"; Plus Sp; Lit "脚色"; Plus Sp; Lit "評価"];
    (* まずまず|動き上々 *)
    Alt (Lit "まずまず") (Lit "動き上々") ].

Definition section_end_keywords : list (list N) :=
  [ u "いま競輪が熱い"; u "netkeiba"; u "利用者数"; u "カテゴリ";
    u "ニュース"; u "レース"; u "お気に入り馬"; u "検索バー";
    u "みんなで一緒に競馬"; u "URL"; u "© NET DREAMERS" ].

(** [^\d+\s+\d+\s*$], as the filter applies it to the line itself. *)
Definition resume_header_re : regex :=
  seqs [Bol; Plus D; Plus Sp; Plus D; Star Sp; Eol].

Definition resume_keywords : list (list N) :=
  [ u "発走"; u "R"; u "歳以上"; u "クラス" ].

(** One iteration of the [for] loop: the state is the flag
    [skip_training_data] and the list [filtered_lines]; each [continue]
    of the source is a branch that returns the state of that moment. *)
Definition filter_step (acc : bool * list (list N)) (line : list N)
  : bool * list (list N) :=
  let '(skip_training_data, filtered_lines) := acc in
  if contains (u "調教タイム") line then (true, filtered_lines)
  else if skip_training_data || matched (re_search training_header_re line)
  then (true, filtered_lines)
  else if skip_training_data then
    if existsb (fun p => matched (re_search p line)) training_patterns
    then (skip_training_data, filtered_lines)
    else if existsb (fun keyword => contains keyword line) section_end_keywords
    then (false, filtered_lines)
    else if matched (re_match resume_header_re line)
    then (false, filtered_lines ++ [line])
    else if existsb (fun keyword => contains keyword line) resume_keywords
    then (false, filtered_lines ++ [line])
    else (skip_training_data, filtered_lines)
  else (skip_training_data, filtered_lines ++ [line]).

Definition filter_training_section (lines : list (list N)) : list (list N) :=
  snd (fold_left filter_step lines (false, [])).

(** ** [extract_race_info] *)

(** The dictionaries of the source whose values are all strings are finite
    maps from the key to the value.  [d !!! key] reads [d[key]]; every key
    that is read is present from the initial literal on. *)
Definition race_info_init : gmap string (list N) :=
  <["race_number" := []]> (<["race_name" := []]> (<["date" := []]>
  (<["time" := []]> (<["venue" := []]> (<["course_type" := []]>
  (<["distance" := []]> (<["direction" := []]> (<["weather" := []]>
  (<["track_condition" := []]> (<["grade" := []]> (<["prize_money" := []]>
  (<["entry_count" := []]> ∅)))))))))))).

(** [^\d+R$] *)
Definition race_number_re : regex := seqs [Bol; Plus D; C "R"; Eol].

Definition site_terms : list (list N) :=
  [ u "netkeiba"; u "netkeibaTV"; u "馬名で検索"; u "お気に入り馬"; u "メモ";
    u "アカウント"; u "LIVE競輪"; u "トップ"; u "ニュース"; u "レース";
    u "A I"; u "予想"; u "UMAIビルダー"; u "コラム"; u "地方競馬";
    u "データベース"; u "ショップ"; u "競馬新聞"; u "俺プロ"; u "一口馬主";
    u "POG"; u "まとめ"; u "前"; u "次"; u "福島"; u "小倉"; u "函館" ].

(** [[GSL]$] *)
Definition grade_letter_re : regex := Seq (AnyOf "GSL") Eol.
(** [[杯記念]] *)
Definition cup_re : regex := AnyOf "杯記念".
(** [本賞金|賞金] *)
Definition prize_re : regex := Alt (Lit "本賞金") (Lit "賞金").
(** [[0-9:]|発走|天候|馬場|回|日目|頭|万円|takashi|さん] *)
Definition not_a_name_re : regex :=
  alts [Chr (fun c => is_ascii_digit c || (c =? ch ":")); Lit "発走";
        Lit "天候"; Lit "馬場"; C "回"; Lit "日目"; C "頭"; Lit "万円";
        Lit "takashi"; Lit "さん"].
(** [[3-9]歳以上.*クラス] *)
Definition class_race_re : regex :=
  seqs [Chr (in_range (ch "3") (ch "9")); Lit "歳以上"; Star Dot; Lit "クラス"].
(** [(\d{1,2}:\d{2})発走] *)
Definition post_time_re : regex :=
  seqs [Group 1 (seqs [D; Opt D; C ":"; rep 2 D]); Lit "発走"].
(** [([ダ芝])(\d+)m] *)
Definition distance_re : regex :=
  seqs [Group 1 (AnyOf "ダ芝"); Group 2 (Plus D); C "m"].
(** [\(([右左])] *)
Definition direction_re : regex := seqs [C "("; Group 1 (AnyOf "右左")].
(** [天候:([^/]+)] *)
Definition weather_re : regex :=
  seqs [Lit "天候:"; Group 1 (Plus (NoneOf "/"))].
(** [馬場:(\S+)] *)
Definition condition_re : regex := seqs [Lit "馬場:"; Group 1 (Plus NonSp)].
(** [\d+回.*\d+日目] *)
Definition meeting_re : regex :=
  seqs [Plus D; C "回"; Star Dot; Plus D; Lit "日目"].
(** [\s+(\d+)頭$] *)
Definition entry_line_re : regex :=
  seqs [Plus Sp; Group 1 (Plus D); C "頭"; Eol].
(** [(\d+)頭] *)
Definition entry_count_re : regex := seqs [Group 1 (Plus D); C "頭"].

Definition set_if_match (o : option mstate) (f : mstate -> gmap string (list N) -> gmap string (list N))
  (d : gmap string (list N)) : gmap string (list N) :=
  match o with
  | Some m => f m d
  | None => d
  end.

(** The statements of the loop body after the race-name block. *)
Definition race_info_rest (race_info : gmap string (list N)) (line : list N)
  : gmap string (list N) :=
  let race_info :=
    if contains (u "発走") line && contains (u "m") line then
      let race_info :=
        set_if_match (re_search post_time_re line)
          (fun m => <["time" := group 1 m]>) race_info in
      let race_info :=
        set_if_match (re_search distance_re line)
          (fun m d => <["distance" := group 2 m ++ u "m"]>
                        (<["course_type" := group 1 m]> d)) race_info in
      let race_info :=
        set_if_match (re_search direction_re line)
          (fun m => <["direction" := group 1 m]>) race_info in
      let race_info :=
        set_if_match (re_search weather_re line)
          (fun m => <["weather" := strip (group 1 m)]>) race_info in
      set_if_match (re_search condition_re line)
        (fun m => <["track_condition" := strip (group 1 m)]>) race_info
    else race_info in
  let race_info :=
    if matched (re_search meeting_re line)
    then <["venue" := strip line]> race_info else race_info in
  let race_info :=
    if matched (re_search entry_line_re line)
    then set_if_match (re_search entry_count_re line)
           (fun m => <["entry_count" := group 1 m ++ u "頭"]>) race_info
    else race_info in
  if contains (u "本賞金:") line
  then <["prize_money" := strip line]> race_info else race_info.

(** The priority rules of the race name (lines 154-157). *)
Definition special_race_name (line : list N) : bool :=
  matched (re_search grade_letter_re (strip line))
  || (matched (re_search cup_re line) && negb (matched (re_search prize_re line)))
  || ((length (strip line) <=? 10)%nat
      && negb (matched (re_search not_a_name_re line))).

(** One iteration of the loop of [extract_race_info]. *)
Definition race_info_step (race_info : gmap string (list N)) (line : list N)
  : gmap string (list N) :=
  let race_info :=
    if matched (re_search race_number_re (strip line))
    then <["race_number" := strip line]> race_info else race_info in
  if negb (truthy (race_info !!! "race_name")) then
    if bool_decide (strip line ∈ site_terms) then race_info
    else
      let race_info :=
        if special_race_name line
        then <["race_name" := strip line]> race_info else race_info in
      race_info_rest race_info line
  else if negb (truthy (race_info !!! "race_name"))
          && matched (re_search class_race_re line)
  then race_info_rest (<["race_name" := strip line]> race_info) line
  else race_info_rest race_info line.

Definition extract_race_info (lines : list (list N)) : gmap string (list N) :=
  fold_left race_info_step lines race_info_init.

(** ** Formatting a time difference: [float(s)] and [f"{x:.1f}"] *)

(** [parse_past_race] converts group 2 of the winner pattern, a non-empty
    string over the characters [0-9], [.] and [-], with [float] and formats
    the result with one decimal.  Both conversions are correctly rounded
    (to the nearest, ties to even), so they are exact integer arithmetic on
    the binary64 value [m * 2^q]. *)

Open Scope Z_scope.

Fixpoint digits_value (ds : list N) (acc : Z) : option Z :=
  match ds with
  | [] => Some acc
  | c :: ds' =>
      if is_ascii_digit c
      then digits_value ds' (10 * acc + (Z.of_N c - 48))
      else None
  end.

(** The decimal literals [float] accepts over this alphabet: an optional
    sign, then digits with at most one point and at least one digit.  The
    result is the sign, the numerator and the number of decimals. *)
Definition parse_decimal (s : list N) : option (bool * Z * Z) :=
  let '(neg, body) :=
    match s with
    | c :: s' => if (c =? ch "-")%N then (true, s') else (false, s)
    | [] => (false, s)
    end in
  match split_on (ch ".") body with
  | [ip] =>
      match ip with
      | [] => None
      | _ => n ← digits_value ip 0; Some (neg, n, 0)
      end
  | [ip; fp] =>
      match ip ++ fp with
      | [] => None
      | _ => n ← digits_value (ip ++ fp) 0; Some (neg, n, Z.of_nat (length fp))
      end
  | _ => None
  end.

(** Division rounded to the nearest integer, ties to even. *)
Definition div_rne (a b : Z) : Z :=
  let q := a / b in
  let r := a mod b in
  match 2 * r ?= b with
  | Lt => q
  | Gt => q + 1
  | Eq => if Z.even q then q else q + 1
  end.

(** The largest [e] with [2^e <= num/den], for positive [num] and [den]. *)
Definition floor_log2_ratio (num den : Z) : Z :=
  let e0 := Z.log2 num - Z.log2 den in
  let le_pow e := if 0 <=? e then den * 2 ^ e <=? num else den <=? num * 2 ^ (- e) in
  if le_pow (e0 + 1) then e0 + 1 else if le_pow e0 then e0 else e0 - 1.

(** The binary64 nearest to [num/den > 0], as [Some (m, q)] for the value
    [m * 2^q], or [None] when it overflows to infinity. *)
Definition to_binary64 (num den : Z) : option (Z * Z) :=
  let e := floor_log2_ratio num den in
  let q := Z.max (e - 52) (-1074) in
  let m := if 0 <=? q then div_rne num (den * 2 ^ q)
           else div_rne (num * 2 ^ (- q)) den in
  if 2 ^ 1024 <=? (if 0 <=? q then m * 2 ^ q else m / 2 ^ (- q))
  then None else Some (m, q).

Fixpoint dec_digits (fuel : nat) (n : Z) (acc : list N) : list N :=
  match fuel with
  | O => acc
  | S fuel' =>
      let acc' := Z.to_N (48 + n mod 10) :: acc in
      if n <? 10 then acc' else dec_digits fuel' (n / 10) acc'
  end.

(** [str(n)] for a natural number. *)
Definition dec_string (n : Z) : list N :=
  dec_digits (S (Z.to_nat (Z.log2 n))) n [].

(** [f"{float(s):.1f}"]; [None] is the [ValueError] of [float]. *)
Definition float_fmt1 (s : list N) : option (list N) :=
  '(neg, num, decimals) ← parse_decimal s;
  let sign := if neg : bool then u "-" else [] in
  if num =? 0 then Some (sign ++ u "0.0")
  else
    match to_binary64 num (10 ^ decimals) with
    | None => Some (sign ++ u "inf")
    | Some (m, q) =>
        let tenths := if 0 <=? q then m * 2 ^ q * 10
                      else div_rne (m * 10) (2 ^ (- q)) in
        Some (sign ++ dec_string (tenths / 10) ++ u "." ++ dec_string (tenths mod 10))
    end.

Close Scope Z_scope.

(** ** [parse_past_race] *)

Definition race_result_init : gmap string (list N) :=
  <["date" := []]> (<["venue" := []]> (<["race_name" := []]>
  (<["course_info" := []]> (<["finish_position" := []]>
  (<["passage_position" := []]> (<["field_size" := []]>
  (<["popularity" := []]> (<["jockey" := []]> (<["weight" := []]>
  (<["time" := []]> (<["track_condition" := []]> (<["winner_name" := []]>
  (<["time_diff" := []]> ∅))))))))))))).

Definition jra_venues : list (list N) :=
  [ u "東京"; u "中山"; u "阪神"; u "京都"; u "新潟"; u "福島"; u "小倉";
    u "札幌"; u "函館"; u "中京" ].
Definition local_venues : list (list N) :=
  [ u "佐賀"; u "笠松"; u "園田"; u "姫路"; u "高知"; u "金沢"; u "浦和";
    u "船橋"; u "大井"; u "川崎"; u "盛岡"; u "水沢"; u "門別" ].
Definition all_venues : list (list N) := jra_venues ++ local_venues.

(** [(\d{4})\.(\d{2})\.(\d{2})] *)
Definition date_re : regex :=
  seqs [Group 1 (rep 4 D); C "."; Group 2 (rep 2 D); C "."; Group 3 (rep 2 D)].
(** [\d{4}\.\d{2}\.\d{2}\s+(.+?)(\d+)] *)
Definition venue_re : regex :=
  seqs [rep 4 D; C "."; rep 2 D; C "."; rep 2 D; Plus Sp;
        Group 1 (LazyPlus Dot); Group 2 (Plus D)].
(** [([ダ芝])(\d+)] *)
Definition course_re : regex := seqs [Group 1 (AnyOf "ダ芝"); Group 2 (Plus D)].
(** [(\d+:\d+\.\d+)] *)
Definition time_re : regex :=
  Group 1 (seqs [Plus D; C ":"; Plus D; C "."; Plus D]).
(** [(良|稍重|重|不良)] *)
Definition track_re : regex :=
  Group 1 (alts [C "良"; Lit "稍重"; C "重"; Lit "不良"]).
(** [(\d+)頭\s+(\d+)番\s+(\d+)人] *)
Definition basic_info_re : regex :=
  seqs [Group 1 (Plus D); C "頭"; Plus Sp; Group 2 (Plus D); C "番"; Plus Sp;
        Group 3 (Plus D); C "人"].
(** [rf'{venue}(\d+)'] *)
Definition venue_finish_re (venue : list N) : regex :=
  Seq (lit_chars venue) (Group 1 (Plus D)).
(** [(\d+)-(\d+)-(\d+)-(\d+)] *)
Definition detailed_passage_re : regex :=
  seqs [Group 1 (Plus D); C "-"; Group 2 (Plus D); C "-"; Group 3 (Plus D);
        C "-"; Group 4 (Plus D)].
(** [(\d+)-(\d+)] *)
Definition simple_passage_re : regex :=
  seqs [Group 1 (Plus D); C "-"; Group 2 (Plus D)].
(** [(\d+)着.*?(\d+)頭.*?(\d+)番] *)
Definition alt_finish_re : regex :=
  seqs [Group 1 (Plus D); C "着"; LazyStar Dot; Group 2 (Plus D); C "頭";
        LazyStar Dot; Group 3 (Plus D); C "番"].
(** [(\d+)番人気] *)
Definition popularity_re : regex := seqs [Group 1 (Plus D); Lit "番人気"].
(** [^[A-Z]+$] *)
Definition upper_re : regex :=
  seqs [Bol; Plus (Chr (in_range (ch "A") (ch "Z"))); Eol].
(** [^C\d] *)
Definition c_class_re : regex := seqs [Bol; C "C"; D].
(** [([^(]+)\(([0-9.-]+)\)] *)
Definition time_diff_char (c : N) : bool :=
  is_ascii_digit c || (c =? ch ".") || (c =? ch "-").
Definition winner_diff_re : regex :=
  seqs [Group 1 (Plus (NoneOf "(")); C "("; Group 2 (Plus (Chr time_diff_char));
        C ")"].
(** [^[\d-]+$] *)
Definition passage_like_re : regex :=
  seqs [Bol; Plus (Chr (fun c => is_digit c || (c =? ch "-"))); Eol].
(** [[あ-んア-ンー一-龯a-zA-Z]] *)
Definition name_char (c : N) : bool :=
  in_range (ch "あ") (ch "ん") c || in_range (ch "ア") (ch "ン") c
  || (c =? ch "ー") || in_range (ch "一") (ch "龯") c
  || in_range (ch "a") (ch "z") c || in_range (ch "A") (ch "Z") c.
Definition name_re : regex := Chr name_char.

(** [m.group(n)] of a match that is known to exist where it is read. *)
Definition grp (n : nat) (o : option mstate) : list N :=
  match o with
  | Some m => group n m
  | None => []
  end.

(** The three venue loops (lines 382-402). *)
Definition resolve_venue (race_line : list N) (race_result : gmap string (list N))
  : gmap string (list N) :=
  let race_result :=
    match re_search venue_re race_line with
    | Some venue_match =>
        let venue_name := strip (group 1 venue_match) in
        let race_result :=
          match find (fun venue => bool_decide (venue = venue_name)) all_venues with
          | Some venue => <["venue" := venue]> race_result
          | None => race_result
          end in
        if negb (truthy (race_result !!! "venue")) then
          match find (fun venue => contains venue venue_name) all_venues with
          | Some venue => <["venue" := venue]> race_result
          | None => race_result
          end
        else race_result
    | None => race_result
    end in
  if negb (truthy (race_result !!! "venue")) then
    match find (fun venue => contains venue race_line) all_venues with
    | Some venue => <["venue" := venue]> race_result
    | None => race_result
    end
  else race_result.

(** The loop of lines 431-436: the first venue whose pattern is found. *)
Fixpoint venue_finish (venues : list (list N)) (race_line : list N)
  : option mstate :=
  match venues with
  | [] => None
  | venue :: venues' =>
      match re_search (venue_finish_re venue) race_line with
      | Some venue_match => Some venue_match
      | None => venue_finish venues' race_line
      end
  end.

(** The two conditions of the race-name loop (lines 464-472). *)
Definition race_name_jra (line : list N) : bool :=
  contains (u "クラス") line || contains (u "未勝利") line
  || contains (u "特別") line || contains (u "S") line
  || (contains (u "G") line
      && (contains (u "I") line || contains (u "II") line
          || contains (u "III") line)).

Definition race_name_local (line : list N) : bool :=
  matched (re_search upper_re line) || matched (re_search c_class_re line)
  || contains (u "杯") line || contains (u "賞") line || contains (u "記念") line
  || contains (u "JRA") line || contains (u "交流") line.

(** The classification of the captured time difference (lines 497-507). *)
Definition classify_time_diff (time_diff_str : list N) : list N :=
  if bool_decide (time_diff_str = u "-") then u "-"
  else if bool_decide (time_diff_str = u "0.0") then u "0.0"
  else match float_fmt1 time_diff_str with
       | Some formatted => formatted
       | None => time_diff_str
       end.

(** The winner loop (lines 477-511): [continue] goes to the next line,
    [break] returns. *)
Fixpoint winner_loop (context_lines : list (list N))
  (race_result : gmap string (list N)) : gmap string (list N) :=
  match context_lines with
  | [] => race_result
  | line :: context_lines' =>
      match re_search winner_diff_re line with
      | Some winner_diff_match =>
          let winner_name := strip (group 1 winner_diff_match) in
          let time_diff_str := group 2 winner_diff_match in
          if matched (re_match passage_like_re winner_name)
          then winner_loop context_lines' race_result
          else if matched (re_search name_re winner_name)
          then <["time_diff" := classify_time_diff time_diff_str]>
                 (<["winner_name" := winner_name]> race_result)
          else winner_loop context_lines' race_result
      | None => winner_loop context_lines' race_result
      end
  end.

Definition parse_past_race (race_line : list N) (context_lines : list (list N))
  : gmap string (list N) :=
  let race_result := race_result_init in
  let date_match := re_search date_re race_line in
  let race_result :=
    if matched date_match
    then <["date" := grp 1 date_match ++ u "/" ++ grp 2 date_match ++ u "/"
                       ++ grp 3 date_match]> race_result
    else race_result in
  let race_result := resolve_venue race_line race_result in
  let all_text := race_line ++ u " " ++ join (u " ") context_lines in
  let course_match := re_search course_re all_text in
  let race_result :=
    if matched course_match
    then <["course_info" := grp 1 course_match ++ grp 2 course_match]> race_result
    else race_result in
  let time_match := re_search time_re all_text in
  let race_result :=
    if matched time_match
    then <["time" := grp 1 time_match]> race_result else race_result in
  let condition_match := re_search track_re all_text in
  let race_result :=
    if matched condition_match
    then <["track_condition" := grp 1 condition_match]> race_result
    else race_result in
  let basic_info_pattern := re_search basic_info_re all_text in
  let race_result :=
    if matched basic_info_pattern
    then <["popularity" := grp 3 basic_info_pattern ++ u "番人気"]>
           (<["field_size" := grp 1 basic_info_pattern ++ u "頭"]> race_result)
    else race_result in
  let race_result :=
    match venue_finish all_venues race_line with
    | Some venue_match =>
        <["finish_position" := group 1 venue_match ++ u "着"]> race_result
    | None => race_result
    end in
  let detailed_passage := re_search detailed_passage_re all_text in
  let race_result :=
    if matched detailed_passage
    then <["passage_position" := grp 0 detailed_passage]> race_result
    else
      let simple_passage := re_search simple_passage_re all_text in
      if matched simple_passage
      then <["passage_position" := grp 0 simple_passage]> race_result
      else race_result in
  let race_result :=
    if negb (truthy (race_result !!! "finish_position")) then
      let alt_pattern := re_search alt_finish_re all_text in
      if matched alt_pattern then
        let race_result :=
          <["field_size" := grp 2 alt_pattern ++ u "頭"]>
            (<["finish_position" := grp 1 alt_pattern ++ u "着"]> race_result) in
        let pop_match := re_search popularity_re all_text in
        if matched pop_match
        then <["popularity" := grp 1 pop_match ++ u "番人気"]> race_result
        else race_result
      else race_result
    else race_result in
  let race_result :=
    match find (fun line => race_name_jra line || race_name_local line)
               context_lines with
    | Some line => <["race_name" := strip line]> race_result
    | None => race_result
    end in
  winner_loop context_lines race_result.

(** ** [extract_horses_data] *)

(** [horse_data]: the string-valued entries of the dictionary and the list
    under the key ['past_races']. *)
Record horse : Type := Horse {
  fields : gmap string (list N);
  past_races : list (gmap string (list N))
}.

Definition set_field (key : string) (v : list N) (h : horse) : horse :=
  Horse (<[key := v]> (fields h)) (past_races h).

Definition field (key : string) (h : horse) : list N := fields h !!! key.

Definition add_past_race (r : gmap string (list N)) (h : horse) : horse :=
  Horse (fields h) (past_races h ++ [r]).

Definition horse_init (frame_number horse_number : list N) : horse :=
  Horse
    (<["frame_number" := frame_number]> (<["horse_number" := horse_number]>
     (<["horse_name" := []]> (<["father" := []]> (<["mother" := []]>
     (<["mother_father" := []]> (<["trainer" := []]> (<["jockey" := []]>
     (<["weight" := []]> (<["age" := []]> (<["sex" := []]>
     (<["coat_color" := []]> (<["odds" := []]> (<["popularity" := []]>
     (<["stable_type" := []]> (<["recent_form" := []]>
     (<["load_weight" := []]> ∅)))))))))))))))))
    [].

(** [^(\d+)\s+(\d+)\s*$] *)
Definition frame_horse_re : regex :=
  seqs [Bol; Group 1 (Plus D); Plus Sp; Group 2 (Plus D); Star Sp; Eol].
(** [B$] *)
Definition blinker_re : regex := Seq (C "B") Eol.
(** [\(([^)]+)\)] *)
Definition mother_father_re : regex :=
  seqs [C "("; Group 1 (Plus (NoneOf ")")); C ")"].
(** [(美浦|栗東)・(.+)] *)
Definition stable_re : regex :=
  seqs [Group 1 (Alt (Lit "美浦") (Lit "栗東")); C "・"; Group 2 (Plus Dot)].
(** [(\d+)kg\(([+-]?\d+)\)] *)
Definition weight_re : regex :=
  seqs [Group 1 (Plus D); Lit "kg"; C "(";
        Group 2 (Seq (Opt (AnyOf "+-")) (Plus D)); C ")"].
(** [(\d+\.\d+)\s+\((\d+)人気\)] *)
Definition odds_re : regex :=
  seqs [Group 1 (seqs [Plus D; C "."; Plus D]); Plus Sp; C "(";
        Group 2 (Plus D); Lit "人気"; C ")"].
(** [^([牡牝セ])(\d+)(.+)$] *)
Definition age_sex_re : regex :=
  seqs [Bol; Group 1 (AnyOf "牡牝セ"); Group 2 (Plus D); Group 3 (Plus Dot); Eol].
(** [^(\d+\.\d+)$] and [^\d+\.\d+$] *)
Definition load_weight_re : regex :=
  seqs [Bol; Group 1 (seqs [Plus D; C "."; Plus D]); Eol].
(** [\d{4}\.\d{2}\.\d{2}] *)
Definition past_date_re : regex :=
  seqs [rep 4 D; C "."; rep 2 D; C "."; rep 2 D].

(** [lines[j].strip()] when [j < len(lines)] and the stripped line is not
    empty. *)
Definition nonblank_at (lines : list (list N)) (j : nat) : option (list N) :=
  match lines !! j with
  | Some l => if truthy (strip l) then Some (strip l) else None
  | None => None
  end.

(** The positional fields after a header at index [i] (lines 242-277);
    the result is the entrant and the cursor [j]. *)
Definition positional_fields (lines : list (list N)) (i : nat)
  (horse_data : horse) : horse * nat :=
  let j := S i in
  let '(horse_data, j) :=
    match nonblank_at lines j with
    | Some l => (set_field "father" l horse_data, S j)
    | None => (horse_data, j)
    end in
  let '(horse_data, j) :=
    match nonblank_at lines j with
    | Some l => (set_field "horse_name" (re_sub blinker_re [] l) horse_data, S j)
    | None => (horse_data, j)
    end in
  let '(horse_data, j) :=
    match nonblank_at lines j with
    | Some l => (set_field "mother" l horse_data, S j)
    | None => (horse_data, j)
    end in
  let '(horse_data, j) :=
    match nonblank_at lines j with
    | Some mother_father_line =>
        (match re_search mother_father_re mother_father_line with
         | Some mother_father_match =>
             set_field "mother_father" (group 1 mother_father_match) horse_data
         | None => horse_data
         end, S j)
    | None => (horse_data, j)
    end in
  match lines !! j with
  | Some l =>
      if contains (u "美浦") l || contains (u "栗東") l then
        (match re_search stable_re (strip l) with
         | Some stable_match =>
             set_field "trainer" (strip (group 2 stable_match))
               (set_field "stable_type" (group 1 stable_match) horse_data)
         | None => horse_data
         end, S j)
      else (horse_data, j)
  | None => (horse_data, j)
  end.

(** The jockey lookahead of lines 315-319. *)
Definition jockey_lookahead (lines : list (list N)) (k : nat)
  (horse_data : horse) : horse :=
  match nonblank_at lines (k + 1)%nat with
  | Some next_line =>
      match lines !! (k + 2)%nat with
      | Some l2 =>
          if matched (re_search load_weight_re (strip l2))
          then set_field "jockey" next_line horse_data
          else horse_data
      | None => horse_data
      end
  | None => horse_data
  end.

(** The inner [while k < len(lines)] loop.  Every iteration either breaks
    or moves [k] by one; [fuel] bounds the iterations and [None] would be
    an exhausted bound.  The result is the cursor and the entrant. *)
Fixpoint scan_fields (fuel : nat) (lines : list (list N)) (k : nat)
  (horse_data : horse) : option (nat * horse) :=
  match fuel with
  | O => None
  | S fuel' =>
      match lines !! k with
      | None => Some (k, horse_data)
      | Some l =>
          let current_line := strip l in
          if matched (re_match frame_horse_re current_line)
          then Some (k, horse_data)
          else if negb (truthy current_line)
          then scan_fields fuel' lines (S k) horse_data
          else
            let weight_match := re_search weight_re current_line in
            if matched weight_match && negb (truthy (field "weight" horse_data))
            then scan_fields fuel' lines (S k)
                   (set_field "weight"
                      (grp 1 weight_match ++ u "kg(" ++ grp 2 weight_match ++ u ")")
                      horse_data)
            else
            let odds_popularity_match := re_search odds_re current_line in
            if matched odds_popularity_match
               && negb (truthy (field "odds" horse_data))
            then scan_fields fuel' lines (S k)
                   (set_field "popularity" (grp 2 odds_popularity_match ++ u "番人気")
                      (set_field "odds" (grp 1 odds_popularity_match) horse_data))
            else
            let age_sex_color_match := re_search age_sex_re current_line in
            if matched age_sex_color_match
               && negb (truthy (field "age" horse_data))
            then scan_fields fuel' lines (S k)
                   (jockey_lookahead lines k
                      (set_field "coat_color" (grp 3 age_sex_color_match)
                         (set_field "age" (grp 2 age_sex_color_match ++ u "歳")
                            (set_field "sex" (grp 1 age_sex_color_match) horse_data))))
            else
            let load_weight_match := re_search load_weight_re current_line in
            if matched load_weight_match
               && negb (truthy (field "load_weight" horse_data))
            then scan_fields fuel' lines (S k)
                   (set_field "load_weight" (grp 1 load_weight_match ++ u "kg")
                      horse_data)
            else
            if matched (re_search past_date_re current_line) then
              let race_result :=
                parse_past_race current_line (take 8 (drop k lines)) in
              scan_fields fuel' lines (S k)
                (if bool_decide (race_result ≠ ∅)
                 then add_past_race race_result horse_data else horse_data)
            else scan_fields fuel' lines (S k) horse_data
      end
  end.

(** The outer [while i < len(lines)] loop. *)
Fixpoint horses_loop (fuel : nat) (lines : list (list N)) (i : nat)
  (horses : list horse) : option (list horse) :=
  match fuel with
  | O => None
  | S fuel' =>
      match lines !! i with
      | None => Some horses
      | Some line =>
          match re_match frame_horse_re (strip line) with
          | Some frame_horse_match =>
              let horse_data :=
                horse_init (group 1 frame_horse_match) (group 2 frame_horse_match) in
              let '(horse_data, j) := positional_fields lines i horse_data in
              '(k, horse_data) ← scan_fields (S (length lines)) lines j horse_data;
              horses_loop fuel' lines k (horses ++ [horse_data])
          | None => horses_loop fuel' lines (S i) horses
          end
      end
  end.

Definition extract_horses_data (lines : list (list N)) : option (list horse) :=
  horses_loop (S (length lines)) lines 0 [].

(** ** [extract_training_data] *)

Definition training_info_init : gmap string (list N) :=
  <["horse_name" := []]> (<["date" := []]> (<["course" := []]>
  (<["condition" := []]> (<["jockey" := []]> (<["time" := []]>
  (<["evaluation" := []]> ∅)))))).

(** [\d+\.\d+] *)
Definition decimal_re : regex := seqs [Plus D; C "."; Plus D].
(** [\d{4}/\d{2}/\d{2}] *)
Definition slash_date_re : regex :=
  seqs [rep 4 D; C "/"; rep 2 D; C "/"; rep 2 D].

Definition training_part (training_info : gmap string (list N)) (part : list N)
  : gmap string (list N) :=
  if matched (re_search slash_date_re part)
  then <["date" := part]> training_info
  else if matched (re_search decimal_re part)
  then <["time" := part]> training_info
  else training_info.

Definition training_step (acc : bool * list (gmap string (list N)))
  (line : list N) : bool * list (gmap string (list N)) :=
  let '(in_training_section, training_data) := acc in
  if contains (u "調教タイム") line then (true, training_data)
  else if in_training_section && matched (re_search decimal_re line)
  then (in_training_section,
        training_data ++ [fold_left training_part (split_ws line) training_info_init])
  else (in_training_section, training_data).

Definition extract_training_data (lines : list (list N))
  : list (gmap string (list N)) :=
  snd (fold_left training_step lines (false, [])).

(** ** [parse_keiba_data] *)

(** The instance state of [KeibaDataOrganizer]. *)
Record organizer : Type := Organizer {
  race_info : gmap string (list N);
  horses_data : list horse;
  training_data : list (gmap string (list N))
}.

(** [KeibaDataOrganizer()] *)
Definition organizer_new : organizer := Organizer ∅ [] [].

(** The dictionary [parse_keiba_data] returns. *)
Record parsed : Type := Parsed {
  parsed_race_info : gmap string (list N);
  parsed_horses_data : list horse;
  parsed_training_data : list (gmap string (list N))
}.

(** [[line.strip() for line in text.split('\n') if line.strip()]] *)
Definition normalize_lines (text : list N) : list (list N) :=
  map strip (filter (fun line => truthy (strip line) = true) (split_on NL text)).

(** The method threads the object: each assignment to [self] replaces one
    attribute, and the result is built from the attributes at the end. *)
Definition parse_keiba_data (self : organizer) (text : list N)
  : option (organizer * parsed) :=
  let lines := normalize_lines text in
  let filtered_lines := filter_training_section lines in
  let self := Organizer (extract_race_info filtered_lines)
                (horses_data self) (training_data self) in
  horses ← extract_horses_data filtered_lines;
  let self := Organizer (race_info self) horses (training_data self) in
  let self := Organizer (race_info self) (horses_data self)
                (extract_training_data lines) in
  Some (self, Parsed (race_info self) (horses_data self) (training_data self)).

(** * Notions used by the statements *)

(** A line that sets the skip flag from the normal state: it contains the
    training-section heading or matches the training-table header. *)
Definition starts_training (line : list N) : bool :=
  contains (u "調教タイム") line || matched (re_search training_header_re line).

(** The lines before the first one that sets the skip flag. *)
Fixpoint before_training (lines : list (list N)) : list (list N) :=
  match lines with
  | [] => []
  | line :: lines' =>
      if starts_training line then [] else line :: before_training lines'
  end.

(** The keys of the record of race information. *)
Definition race_info_keys : list string :=
  [ "race_number"; "race_name"; "date"; "time"; "venue"; "course_type";
    "distance"; "direction"; "weather"; "track_condition"; "grade";
    "prize_money"; "entry_count" ]%string.

(** A line that the loop of [extract_race_info] takes as race number. *)
Definition is_race_number_line (line : list N) : bool :=
  matched (re_search race_number_re (strip line)).

(** The last race-number line, stripped; the empty string without one. *)
Definition last_race_number (lines : list (list N)) : list N :=
  match last (List.filter is_race_number_line lines) with
  | Some line => strip line
  | None => []
  end.

(** A declarative reading of the patterns: [Matches r (i, s) (j, s')] says
    that [r] can match from index [i] with [s] ahead up to index [j] with
    [s'] ahead.  The matcher only ever returns such matches. *)
Inductive Matches : regex -> nat * list N -> nat * list N -> Prop :=
| M_eps p : Matches Eps p p
| M_chr (f : N -> bool) i c t : f c = true -> Matches (Chr f) (i, c :: t) (S i, t)
| M_seq a b p q r : Matches a p q -> Matches b q r -> Matches (Seq a b) p r
| M_alt_l a b p q : Matches a p q -> Matches (Alt a b) p q
| M_alt_r a b p q : Matches b p q -> Matches (Alt a b) p q
| M_star_stop a p : Matches (Star a) p p
| M_star_more a p q r :
    Matches a p q -> Matches (Star a) q r -> Matches (Star a) p r
| M_lazy_stop a p : Matches (LazyStar a) p p
| M_lazy_more a p q r :
    Matches a p q -> Matches (LazyStar a) q r -> Matches (LazyStar a) p r
| M_group n a p q : Matches a p q -> Matches (Group n a) p q
| M_bol s : Matches Bol (O, s) (O, s)
| M_eol i s : at_eol s = true -> Matches Eol (i, s) (i, s).

(** The characters a pattern can consume. *)
Fixpoint alphabet (r : regex) (c : N) : bool :=
  match r with
  | Eps | Bol | Eol => false
  | Chr f => f c
  | Seq a b | Alt a b => alphabet a c || alphabet b c
  | Star a | LazyStar a | Group _ a => alphabet a c
  end.

(** Patterns whose every match stops at [$]. *)
Fixpoint ends_eol (r : regex) : bool :=
  match r with
  | Eol => true
  | Seq _ b => ends_eol b
  | Alt a b => ends_eol a && ends_eol b
  | Group _ a => ends_eol a
  | _ => false
  end.

(** A frame/horse-number header line, as both loops of
    [extract_horses_data] test it. *)
Definition is_header (line : list N) : bool :=
  matched (re_match frame_horse_re (strip line)).

(** The two integers of a header line. *)
Definition header_key (line : list N) : list N * list N :=
  (grp 1 (re_match frame_horse_re (strip line)),
   grp 2 (re_match frame_horse_re (strip line))).

Definition horse_key (h : horse) : list N * list N :=
  (field "frame_number" h, field "horse_number" h).

(** No header line among the four lines that follow a header line: these
    are the lines the positional fields (father, horse name, mother,
    mother's father) are read from. *)
Fixpoint headers_apart (lines : list (list N)) : bool :=
  match lines with
  | [] => true
  | line :: lines' =>
      (if is_header line
       then forallb (fun l => negb (is_header l)) (take 4 lines')
       else true)
      && headers_apart lines'
  end.

(** What one iteration of the inner loop that does not break does to the
    entrant; the cursor moves by one in each of these cases. *)
Definition scan_line (lines : list (list N)) (k : nat) (current_line : list N)
  (horse_data : horse) : horse :=
  if negb (truthy current_line) then horse_data
  else
    let weight_match := re_search weight_re current_line in
    if matched weight_match && negb (truthy (field "weight" horse_data))
    then set_field "weight"
           (grp 1 weight_match ++ u "kg(" ++ grp 2 weight_match ++ u ")")
           horse_data
    else
    let odds_popularity_match := re_search odds_re current_line in
    if matched odds_popularity_match && negb (truthy (field "odds" horse_data))
    then set_field "popularity" (grp 2 odds_popularity_match ++ u "番人気")
           (set_field "odds" (grp 1 odds_popularity_match) horse_data)
    else
    let age_sex_color_match := re_search age_sex_re current_line in
    if matched age_sex_color_match && negb (truthy (field "age" horse_data))
    then jockey_lookahead lines k
           (set_field "coat_color" (grp 3 age_sex_color_match)
              (set_field "age" (grp 2 age_sex_color_match ++ u "歳")
                 (set_field "sex" (grp 1 age_sex_color_match) horse_data)))
    else
    let load_weight_match := re_search load_weight_re current_line in
    if matched load_weight_match
       && negb (truthy (field "load_weight" horse_data))
    then set_field "load_weight" (grp 1 load_weight_match ++ u "kg") horse_data
    else
    if matched (re_search past_date_re current_line) then
      let race_result := parse_past_race current_line (take 8 (drop k lines)) in
      if bool_decide (race_result ≠ ∅)
      then add_past_race race_result horse_data else horse_data
    else horse_data.

(** A stripped line without its final letter [B], if it has one. *)
Fixpoint strip_marker (s : list N) : list N :=
  match s with
  | [] => []
  | [c] => if c =? ch "B" then [] else [c]
  | c :: s' => c :: strip_marker s'
  end.


(** The horse name of the entrant made at the header line of index [i]
    (lines 244-255): the stripped line two after the header without a
    final [B], when that line and the line between them are not blank;
    the empty string otherwise. *)
Definition entrant_name (lines : list (list N)) (i : nat) : list N :=
  match nonblank_at lines (S i), nonblank_at lines (S (S i)) with
  | Some _, Some name => strip_marker name
  | _, _ => []
  end.

(** An entrant made at the header line of index [i]: it has the two
    integers of that line and the horse name read two lines below it. *)
Definition made_at (lines : list (list N)) (h : horse) (i : nat) : Prop :=
  exists header,
    lines !! i = Some header /\ is_header header = true
    /\ horse_key h = header_key header
    /\ field "horse_name" h = entrant_name lines i.

(** A card that starts with a race number and has three entrants. *)
Definition marker_card : list (list N) :=
  [ u "12R"; u "1 1"; u "SireName"; u "ExampleHorseB"; u "DamName";
    u "(DamSireName)"; u "2 2"; u "SireTwo"; u "PlainName B"; u "DamTwo";
    u "(DamSireTwo)"; u "3 3"; u "SireThree"; u "PlainName" ].

(** The lines after the first line that contains the training heading. *)
Fixpoint after_heading (lines : list (list N)) : list (list N) :=
  match lines with
  | [] => []
  | line :: lines' =>
      if contains (u "調教タイム") line then lines' else after_heading lines'
  end.

(** A line the training pass makes a record of, once the flag is set. *)
Definition training_line (line : list N) : bool :=
  negb (contains (u "調教タイム") line) && matched (re_search decimal_re line).

(** The record made of such a line (lines 526-542). *)
Definition training_record (line : list N) : gmap string (list N) :=
  fold_left training_part (split_ws line) training_info_init.

(** A line that gives the race its name when none is set yet: its stripped
    text is not empty and not a site term, and a priority rule of lines
    154-157 holds. *)
Definition names_race (line : list N) : bool :=
  negb (bool_decide (strip line ∈ site_terms))
  && special_race_name line && truthy (strip line).

Definition first_race_name (lines : list (list N)) : list N :=
  match List.find names_race lines with
  | Some line => strip line
  | None => []
  end.

(** The stages of [parse_past_race], one per block of the source; the
    function is their composition ([parse_past_race_stages]). *)
Definition past_date (race_line : list N) (race_result : gmap string (list N))
  : gmap string (list N) :=
  let date_match := re_search date_re race_line in
  if matched date_match
  then <["date" := grp 1 date_match ++ u "/" ++ grp 2 date_match ++ u "/"
                     ++ grp 3 date_match]> race_result
  else race_result.

Definition past_measures (all_text : list N)
  (race_result : gmap string (list N)) : gmap string (list N) :=
  let course_match := re_search course_re all_text in
  let race_result :=
    if matched course_match
    then <["course_info" := grp 1 course_match ++ grp 2 course_match]> race_result
    else race_result in
  let time_match := re_search time_re all_text in
  let race_result :=
    if matched time_match
    then <["time" := grp 1 time_match]> race_result else race_result in
  let condition_match := re_search track_re all_text in
  let race_result :=
    if matched condition_match
    then <["track_condition" := grp 1 condition_match]> race_result
    else race_result in
  let basic_info_pattern := re_search basic_info_re all_text in
  if matched basic_info_pattern
  then <["popularity" := grp 3 basic_info_pattern ++ u "番人気"]>
         (<["field_size" := grp 1 basic_info_pattern ++ u "頭"]> race_result)
  else race_result.

Definition past_finish (race_line : list N)
  (race_result : gmap string (list N)) : gmap string (list N) :=
  match venue_finish all_venues race_line with
  | Some venue_match =>
      <["finish_position" := group 1 venue_match ++ u "着"]> race_result
  | None => race_result
  end.

Definition past_passage (all_text : list N)
  (race_result : gmap string (list N)) : gmap string (list N) :=
  let detailed_passage := re_search detailed_passage_re all_text in
  if matched detailed_passage
  then <["passage_position" := grp 0 detailed_passage]> race_result
  else
    let simple_passage := re_search simple_passage_re all_text in
    if matched simple_passage
    then <["passage_position" := grp 0 simple_passage]> race_result
    else race_result.

Definition past_alt_finish (all_text : list N)
  (race_result : gmap string (list N)) : gmap string (list N) :=
  if negb (truthy (race_result !!! "finish_position")) then
    let alt_pattern := re_search alt_finish_re all_text in
    if matched alt_pattern then
      let race_result :=
        <["field_size" := grp 2 alt_pattern ++ u "頭"]>
          (<["finish_position" := grp 1 alt_pattern ++ u "着"]> race_result) in
      let pop_match := re_search popularity_re all_text in
      if matched pop_match
      then <["popularity" := grp 1 pop_match ++ u "番人気"]> race_result
      else race_result
    else race_result
  else race_result.

Definition past_race_name (context_lines : list (list N))
  (race_result : gmap string (list N)) : gmap string (list N) :=
  match find (fun line => race_name_jra line || race_name_local line)
             context_lines with
  | Some line => <["race_name" := strip line]> race_result
  | None => race_result
  end.

(** The stages after the venue. *)
Definition past_tail (race_line : list N) (context_lines : list (list N))
  (race_result : gmap string (list N)) : gmap string (list N) :=
  let all_text := race_line ++ u " " ++ join (u " ") context_lines in
  winner_loop context_lines
    (past_race_name context_lines
       (past_alt_finish all_text
          (past_passage all_text
             (past_finish race_line (past_measures all_text race_result))))).

(** A property of records that assignments to the keys [keys] keep. *)
Definition closed_under (keys : list string)
  (P : gmap string (list N) -> Prop) : Prop :=
  forall d k v, k ∈ keys -> P d -> P (<[k := v]> d).

Definition past_tail_keys : list string :=
  [ "course_info"; "time"; "track_condition"; "field_size"; "popularity";
    "finish_position"; "passage_position"; "race_name"; "winner_name";
    "time_diff" ]%string.

Definition race_result_keys : list string :=
  [ "date"; "venue"; "race_name"; "course_info"; "finish_position";
    "passage_position"; "field_size"; "popularity"; "jockey"; "weight";
    "time"; "track_condition"; "winner_name"; "time_diff" ]%string.

(** A property of entrants that assignments to the keys [keys] keep. *)
Definition closed_fields (keys : list string) (P : horse -> Prop) : Prop :=
  forall h k v, k ∈ keys -> P h -> P (set_field k v h).

Definition positional_keys : list string :=
  [ "father"; "horse_name"; "mother"; "mother_father"; "trainer";
    "stable_type" ]%string.

Definition scan_keys : list string :=
  [ "weight"; "popularity"; "odds"; "coat_color"; "age"; "sex"; "jockey";
    "load_weight" ]%string.

Definition horse_keys : list string :=
  [ "frame_number"; "horse_number"; "horse_name"; "father"; "mother";
    "mother_father"; "trainer"; "jockey"; "weight"; "age"; "sex";
    "coat_color"; "odds"; "popularity"; "stable_type"; "recent_form";
    "load_weight" ]%string.

Definition training_info_keys : list string :=
  [ "horse_name"; "date"; "course"; "condition"; "jockey"; "time";
    "evaluation" ]%string.

(** The keys of a training record that no statement assigns. *)
Definition training_unassigned : list string :=
  [ "horse_name"; "course"; "condition"; "jockey"; "evaluation" ]%string.

(** The tokens of a line that a training record takes its date and its
    time from (lines 539-542): a token that holds a date with slashes is
    a date; a token that holds a decimal number and no such date is a
    time. *)
Definition is_date_part (part : list N) : bool :=
  matched (re_search slash_date_re part).

Definition is_time_part (part : list N) : bool :=
  negb (matched (re_search slash_date_re part))
  && matched (re_search decimal_re part).

(** The last whitespace-separated token of [line] for which [p] holds,
    the empty string when there is none. *)
Definition last_part (p : list N -> bool) (line : list N) : list N :=
  default [] (last (List.filter p (split_ws line))).

(** What holds of the training record made of [line]: its seven keys, the
    five that are never assigned, and a date and a time that are the last
    date token and the last time token of the line, without whitespace. *)
Definition training_record_ok (line : list N) (r : gmap string (list N))
  : Prop :=
  dom r = list_to_set training_info_keys
  /\ Forall (fun key => r !! key = Some []) training_unassigned
  /\ r !! "date" = Some (last_part is_date_part line)
  /\ r !! "time" = Some (last_part is_time_part line)
  /\ Forall (fun c => is_space c = false) (last_part is_date_part line)
  /\ Forall (fun c => is_space c = false) (last_part is_time_part line).

(** Patterns without groups. *)
Fixpoint no_groups (r : regex) : bool :=
  match r with
  | Group _ _ => false
  | Seq a b | Alt a b => no_groups a && no_groups b
  | Star a | LazyStar a => no_groups a
  | _ => true
  end.

(** A pattern without its groups. *)
Fixpoint erase_groups (r : regex) : regex :=
  match r with
  | Group _ a => erase_groups a
  | Seq a b => Seq (erase_groups a) (erase_groups b)
  | Alt a b => Alt (erase_groups a) (erase_groups b)
  | Star a => Star (erase_groups a)
  | LazyStar a => LazyStar (erase_groups a)
  | _ => r
  end.

(** Two positions of the matcher at the same place of the same text. *)
Definition same_text (st st' : mstate) : Prop :=
  pos st = pos st' /\ rest st = rest st'.

(** A date as the past-race parser writes it: four, two and two decimal
    digits joined by slashes. *)
Definition slash_date (date y m d : list N) : Prop :=
  date = y ++ u "/" ++ m ++ u "/" ++ d
  /\ length y = 4%nat /\ length m = 2%nat /\ length d = 2%nat
  /\ Forall (fun c => is_digit c = true) (y ++ m ++ d).

(** What holds of the jockey of every entrant: it is empty, or it is the
    stripped line after a line of sex, age and coat colour and before a
    line that is a bare decimal number (the load weight). *)
Definition jockey_ok (lines : list (list N)) (h : horse) : Prop :=
  field "jockey" h = []
  \/ exists k age_line name_line load_line,
       lines !! k = Some age_line
       /\ lines !! (k + 1)%nat = Some name_line
       /\ lines !! (k + 2)%nat = Some load_line
       /\ matched (re_search age_sex_re (strip age_line)) = true
       /\ matched (re_search load_weight_re (strip load_line)) = true
       /\ field "jockey" h = strip name_line
       /\ strip name_line <> [].

(** An entrant with exactly its seventeen string keys whose past-race
    records have exactly their fourteen keys. *)
Definition horse_keyed (h : horse) : Prop :=
  dom (fields h) = list_to_set horse_keys
  /\ Forall (fun r => dom r = list_to_set race_result_keys) (past_races h).

(** An entrant whose never-assigned fields are empty. *)
Definition never_assigned (h : horse) : Prop :=
  field "recent_form" h = []
  /\ Forall (fun r => r !! "jockey" = Some [] /\ r !! "weight" = Some [])
       (past_races h).

(** * The rows of the exports

    The four [create_*] methods build a list of dictionaries (or one
    nested structure) from the instance state and hand it to pandas or to
    [json.dumps]; what is modelled here is what they build, up to that
    call.  A subscript [d[key]] on a missing key raises [KeyError]. *)

Inductive py (A : Type) : Type :=
| KeyError
| Ret (a : A).
Arguments KeyError {A}.
Arguments Ret {A} a.

#[export] Instance py_bind : MBind py :=
  fun A B f x => match x with KeyError => KeyError | Ret a => f a end.

(** [d[key]] *)
Definition subscript (d : gmap string (list N)) (key : string) : py (list N) :=
  match d !! key with
  | Some v => Ret v
  | None => KeyError
  end.

(** [d.get(key, '')] *)
Definition get_or_empty (d : gmap string (list N)) (key : string) : list N :=
  default [] (d !! key).

Fixpoint py_map {A B : Type} (f : A -> py B) (l : list A) : py (list B) :=
  match l with
  | [] => Ret []
  | x :: l' => y ← f x; ys ← py_map f l'; Ret (y :: ys)
  end.

(** [create_race_summary_csv]: [None] when the record is empty, else the
    one row given to [pd.DataFrame]. *)
Definition race_summary_rows (self : organizer)
  : option (list (gmap string (list N))) :=
  if bool_decide (race_info self = ∅) then None else Some [race_info self].

(** [f"{race['date']} {race['venue']} {race['finish_position']}"] *)
Definition race_str (race : gmap string (list N)) : py (list N) :=
  date ← subscript race "date";
  venue ← subscript race "venue";
  finish_position ← subscript race "finish_position";
  Ret (date ++ u " " ++ venue ++ u " " ++ finish_position).

(** One row of [flattened_data] (lines 567-582): the copy of the entrant
    with [recent_3_races] and without [past_races]. *)
Definition flatten_horse (h : horse) : py (gmap string (list N)) :=
  match past_races h with
  | _ :: _ =>
      past_races_str ← py_map race_str (take 3 (past_races h));
      Ret (<["recent_3_races" := join (u " | ") past_races_str]> (fields h))
  | [] => Ret (<["recent_3_races" := []]> (fields h))
  end.

(** [create_horses_csv]: [Ret None] is the return of [None]. *)
Definition horses_csv_rows (self : organizer)
  : py (option (list (gmap string (list N)))) :=
  match horses_data self with
  | [] => Ret None
  | _ :: _ =>
      flattened_data ← py_map flatten_horse (horses_data self);
      Ret (Some flattened_data)
  end.

(** One [result_row] of [create_detailed_race_results_csv]. *)
Definition result_row (h : horse) (race : gmap string (list N))
  : py (gmap string (list N)) :=
  horse_name ← subscript (fields h) "horse_name";
  frame_number ← subscript (fields h) "frame_number";
  horse_number ← subscript (fields h) "horse_number";
  race_date ← subscript race "date";
  venue ← subscript race "venue";
  race_name ← subscript race "race_name";
  course_info ← subscript race "course_info";
  finish_position ← subscript race "finish_position";
  field_size ← subscript race "field_size";
  popularity ← subscript race "popularity";
  time ← subscript race "time";
  jockey ← subscript race "jockey";
  weight ← subscript race "weight";
  Ret (<["horse_name" := horse_name]> (<["frame_number" := frame_number]>
      (<["horse_number" := horse_number]> (<["race_date" := race_date]>
      (<["venue" := venue]> (<["race_name" := race_name]>
      (<["course_info" := course_info]>
      (<["finish_position" := finish_position]>
      (<["field_size" := field_size]> (<["popularity" := popularity]>
      (<["time" := time]> (<["jockey" := jockey]>
      (<["weight" := weight]> ∅))))))))))))).

(** [create_detailed_race_results_csv]: the list [detailed_results], or
    [None] when it is empty. *)
Definition detailed_results_rows (self : organizer)
  : py (option (list (gmap string (list N)))) :=
  per_horse ← py_map (fun h => py_map (result_row h) (past_races h))
                (horses_data self);
  match concat per_horse with
  | [] => Ret None
  | detailed_results => Ret (Some detailed_results)
  end.

(** The dictionary [ai_data] of [create_ai_readable_json], before
    [json.dumps]. *)
Record ai_data : Type := AiData {
  ai_race_info : gmap string (list N);
  ai_horses : list horse;
  ai_training_data : list (gmap string (list N))
}.

(** A dictionary rebuilt key by key with [d.get(key, '')]. *)
Definition rebuild (keys : list string) (d : gmap string (list N))
  : gmap string (list N) :=
  list_to_map (map (fun key => (key, get_or_empty d key)) keys).

Definition ai_horse (h : horse) : horse :=
  Horse (rebuild horse_keys (fields h))
        (map (rebuild race_result_keys) (past_races h)).

Definition create_ai_data (self : organizer) : ai_data :=
  AiData (race_info self) (map ai_horse (horses_data self)) (training_data self).

Definition result_row_keys : list string :=
  [ "horse_name"; "frame_number"; "horse_number"; "race_date"; "venue";
    "race_name"; "course_info"; "finish_position"; "field_size";
    "popularity"; "time"; "jockey"; "weight" ]%string.

(** What holds of every row of the detailed export. *)
Definition result_row_ok (row : gmap string (list N)) : Prop :=
  dom row = list_to_set result_row_keys
  /\ row !! "jockey" = Some [] /\ row !! "weight" = Some [].

(** A row of the entrant export beside its entrant: the fields of the
    entrant and one more key. *)
Definition flattened (h : horse) (row : gmap string (list N)) : Prop :=
  delete "recent_3_races" row = fields h
  /\ exists recent, row !! "recent_3_races" = Some recent.


(** A non-empty run of decimal digits, what [\d+] matches. *)
Definition digits (w : list N) : Prop :=
  w <> [] /\ Forall (fun c => is_digit c = true) w.

(** The formats of the entrant fields that the inner loop and the stable
    line fill in: each is empty or has the form of its pattern, and the
    fields read from one line are filled together. *)
Definition entrant_formats (h : horse) : Prop :=
  (field "weight" h = []
   \/ exists a sign b,
        field "weight" h = a ++ u "kg(" ++ sign ++ b ++ u ")"
        /\ digits a /\ digits b /\ (sign = [] \/ sign = u "+" \/ sign = u "-"))
  /\ ((field "odds" h = [] /\ field "popularity" h = [])
      \/ exists a b n,
           field "odds" h = a ++ u "." ++ b
           /\ field "popularity" h = n ++ u "番人気"
           /\ digits a /\ digits b /\ digits n)
  /\ ((field "sex" h = [] /\ field "age" h = [] /\ field "coat_color" h = [])
      \/ exists s n,
           field "sex" h = [s] /\ s ∈ u "牡牝セ"
           /\ field "age" h = n ++ u "歳" /\ digits n
           /\ field "coat_color" h <> [])
  /\ (field "load_weight" h = []
      \/ exists a b,
           field "load_weight" h = a ++ u "." ++ b ++ u "kg"
           /\ digits a /\ digits b)
  /\ ((field "stable_type" h = [] /\ field "trainer" h = [])
      \/ field "stable_type" h = u "美浦" \/ field "stable_type" h = u "栗東").

(** A field made of a number and its unit: empty, or a non-empty run of
    decimal digits followed by the unit. *)
Definition with_unit (unit : string) (v : list N) : Prop :=
  v = [] \/ exists n, v = n ++ u unit /\ digits n.

(** The formats of the fields of a past-race record that are read with a
    pattern of digits. *)
Definition race_formats (r : gmap string (list N)) : Prop :=
  with_unit "着" (r !!! "finish_position")
  /\ with_unit "頭" (r !!! "field_size")
  /\ with_unit "番人気" (r !!! "popularity")
  /\ r !!! "track_condition" ∈ [[]; u "良"; u "稍重"; u "重"; u "不良"]
  /\ (r !!! "course_info" = []
      \/ exists c n, r !!! "course_info" = c :: n /\ c ∈ u "ダ芝" /\ digits n)
  /\ (r !!! "time" = []
      \/ exists a b c,
           r !!! "time" = a ++ u ":" ++ b ++ u "." ++ c
           /\ digits a /\ digits b /\ digits c).

(** The line that carries post time, distance, direction, weather and
    track condition (line 165). *)
Definition timing_line (line : list N) : bool :=
  contains (u "発走") line && contains (u "m") line.

Definition on_timing_line (r : regex) (value : mstate -> list N)
  (line : list N) : option (list N) :=
  if timing_line line then value <$> re_search r line else None.

(** What a line assigns to the fields of lines 164-204, field by field:
    [None] when the line leaves the field alone. *)
Definition race_info_rules : list (string * (list N -> option (list N))) :=
  [ ("time"%string, on_timing_line post_time_re (group 1));
    ("course_type"%string, on_timing_line distance_re (group 1));
    ("distance"%string,
     on_timing_line distance_re (fun m => group 2 m ++ u "m"));
    ("direction"%string, on_timing_line direction_re (group 1));
    ("weather"%string,
     on_timing_line weather_re (fun m => strip (group 1 m)));
    ("track_condition"%string,
     on_timing_line condition_re (fun m => strip (group 1 m)));
    ("venue"%string,
     fun line =>
       if matched (re_search meeting_re line) then Some (strip line) else None);
    ("entry_count"%string,
     fun line =>
       if matched (re_search entry_line_re line)
       then (fun m => group 1 m ++ u "頭") <$> re_search entry_count_re line
       else None);
    ("prize_money"%string,
     fun line =>
       if contains (u "本賞金:") line then Some (strip line) else None) ].

(** The value of the last line that assigns, the empty string when no
    line does. *)
Definition last_assigned (rule : list N -> option (list N))
  (lines : list (list N)) : list N :=
  default [] (last (omap rule lines)).

(** * Sanity checks

    The model on small inputs, with the answers of CPython 3.11. *)
Example u_kana : u "あR" = [0x3042; 82].
Proof. reflexivity. Qed.

Example hdr_like :
  option_map (fun st => (group 1 st, group 2 st))
    (re_match (seqs [Bol; Group 1 (Plus D); Plus Sp; Group 2 (Plus D); Star Sp; Eol])
       (u "12   7"))
  = Some (u "12", u "7").
Proof. vm_compute. reflexivity. Qed.

Example sub_marker : re_sub (Seq (C "B") Eol) [] (u "ExampleHorse B") = u "ExampleHorse ".
Proof. vm_compute. reflexivity. Qed.

Example filter_drops_after_heading :
  filter_training_section [u "12R"; u "調教タイム"; u "1 1"; u "発走"] = [u "12R"].
Proof. vm_compute. reflexivity. Qed.

Example race_info_scenario :
  let ri := extract_race_info
     [u "12R"; u "3歳以上1勝クラス";
      u "16:30発走 / ダ1700m (右) / 天候:曇 / 馬場:良"] in
  (ri !! "race_number", ri !! "distance", ri !! "course_type", ri !! "race_name",
   ri !! "time", ri !! "weather", ri !! "track_condition", ri !! "direction")
  = (Some (u "12R"), Some (u "1700m"), Some (u "ダ"), Some [],
     Some (u "16:30"), Some (u "曇"), Some (u "良"), Some (u "右")).
Proof. vm_compute. reflexivity. Qed.

Example float_fmt1_samples :
  map float_fmt1 [u "1.20"; u "0.25"; u "0.35"; u "0.45"; u "-0.04"; u "1.";
                  u ".5"; u "--1"; u "1.2.3"; u "."; u "9007199254740993";
                  u "0.05"; u "0.15"; u "1.25"; u "1.35"; u "1-2"; u "00.10"]
  = [Some (u "1.2"); Some (u "0.2"); Some (u "0.3"); Some (u "0.5");
     Some (u "-0.0"); Some (u "1.0"); Some (u "0.5"); None; None; None;
     Some (u "9007199254740992.0"); Some (u "0.1"); Some (u "0.1");
     Some (u "1.2"); Some (u "1.4"); None; Some (u "0.1")].
Proof. vm_compute. reflexivity. Qed.

Example past_race_sample :
  let r := parse_past_race (u "2025.05.18 佐賀1")
     [u "2025.05.18 佐賀1"; u "UMATE"; u "ダ1400 1:31.5 良"; u "9頭 4番 4人";
      u "3-3-3-2"; u "カチウマ(0.3)"] in
  (r !! "date", r !! "venue", r !! "finish_position", r !! "race_name",
   r !! "course_info", r !! "time", r !! "field_size", r !! "popularity",
   r !! "passage_position", r !! "winner_name", r !! "time_diff")
  = (Some (u "2025/05/18"), Some (u "佐賀"), Some (u "1着"), Some (u "UMATE"),
     Some (u "ダ1400"), Some (u "1:31.5"), Some (u "9頭"), Some (u "4番人気"),
     Some (u "3-3-3-2"), Some (u "カチウマ"), Some (u "0.3")).
Proof. vm_compute. reflexivity. Qed.

Example scenario_entrant :
  option_map (map (fun h => (field "frame_number" h, field "horse_number" h,
                             field "father" h, field "horse_name" h,
                             field "mother" h, field "mother_father" h)))
    (extract_horses_data
       [u "12R"; u "1 1"; u "SireName"; u "ExampleHorseB"; u "DamName";
        u "(DamSireName)"])
  = Some [(u "1", u "1", u "SireName", u "ExampleHorse", u "DamName",
           u "DamSireName")].
Proof. vm_compute. reflexivity. Qed.

(** * Properties *)

(** ** Training-section filter *)

Lemma filter_step_skipping (acc : list (list N)) (line : list N) :
  filter_step (true, acc) line = (true, acc).
Proof.
  unfold filter_step. destruct (contains _ line); reflexivity.
Qed.

(** Once the flag is set, no later line is kept and the flag stays set. *)
Lemma filter_skipping_absorbs (lines acc : list (list N)) :
  fold_left filter_step lines (true, acc) = (true, acc).
Proof.
  induction lines as [|line lines IH]; cbn [fold_left]; [reflexivity|].
  rewrite filter_step_skipping. exact IH.
Qed.

Lemma filter_step_normal (acc : list (list N)) (line : list N) :
  filter_step (false, acc) line
  = if starts_training line then (true, acc) else (false, acc ++ [line]).
Proof.
  unfold filter_step, starts_training.
  destruct (contains _ line); simpl; [reflexivity|].
  destruct (matched _); reflexivity.
Qed.

Lemma filter_fold_normal (lines acc : list (list N)) :
  snd (fold_left filter_step lines (false, acc)) = acc ++ before_training lines.
Proof.
  revert acc.
  induction lines as [|line lines IH]; intros acc; cbn [fold_left before_training].
  - by rewrite app_nil_r.
  - rewrite filter_step_normal. destruct (starts_training line).
    + rewrite filter_skipping_absorbs. cbn [snd]. by rewrite app_nil_r.
    + rewrite IH. by rewrite <- app_assoc.
Qed.

Lemma filter_training_section_eq (lines : list (list N)) :
  filter_training_section lines = before_training lines.
Proof. unfold filter_training_section. by rewrite filter_fold_normal. Qed.

Lemma before_training_clean (lines : list (list N)) :
  Forall (fun line => starts_training line = false) (before_training lines).
Proof.
  induction lines as [|line lines IH]; simpl; [constructor|].
  destruct (starts_training line) eqn:E; [constructor|].
  constructor; assumption.
Qed.

Lemma before_training_fixed (lines : list (list N)) :
  Forall (fun line => starts_training line = false) lines ->
  before_training lines = lines.
Proof.
  induction 1 as [|line lines E _ IH]; simpl; [reflexivity|].
  rewrite E. by rewrite IH.
Qed.

(** C1 (the code departs from the claim): in the skipping state a
    frame/horse-number header line is not kept and the state does not go
    back to normal.  The second test of the loop body, [skip_training_data
    or re.search(...)], holds for every line once the flag is set, so the
    header line ["1 1"] that follows the heading is dropped although it
    matches the header pattern of line 101. *)
Theorem C1_header_after_heading_is_dropped :
  matched (re_match resume_header_re (u "1 1")) = true /\
  filter_step (true, []) (u "1 1") = (true, []) /\
  filter_training_section [u "調教タイム"; u "1 1"] = [].
Proof. vm_compute. auto. Qed.

(** C7: the training-section filter is idempotent: filtering its own
    output returns the same sequence, because no line of the output sets
    the skip flag. *)
Theorem C7_filter_idempotent (lines : list (list N)) :
  filter_training_section (filter_training_section lines)
  = filter_training_section lines
  /\ Forall (fun line => starts_training line = false)
       (filter_training_section lines).
Proof.
  rewrite !filter_training_section_eq. split.
  - apply before_training_fixed, before_training_clean.
  - apply before_training_clean.
Qed.

(** ** Race-info extractor *)

(** A literal key is not in a list of other literal keys. *)
Ltac key_not_in :=
  repeat (apply not_elem_of_cons; split; [discriminate|]); apply not_elem_of_nil.

Lemma lookup_set_if_match (key : string) (o : option mstate)
  (f : mstate -> gmap string (list N) -> gmap string (list N))
  (d : gmap string (list N)) :
  (forall m d', f m d' !! key = d' !! key) ->
  set_if_match o f d !! key = d !! key.
Proof. intros Hf. destruct o; simpl; [apply Hf | reflexivity]. Qed.

(** The keys the tail of the loop body assigns. *)
Lemma race_info_rest_lookup (key : string) (d : gmap string (list N))
  (line : list N) :
  key ∉ ["time"; "distance"; "course_type"; "direction"; "weather";
         "track_condition"; "venue"; "entry_count"; "prize_money"]%string ->
  race_info_rest d line !! key = d !! key.
Proof.
  intros H. repeat (apply not_elem_of_cons in H as [? H]).
  unfold race_info_rest.
  repeat first
    [ rewrite lookup_insert_ne by done
    | rewrite lookup_set_if_match
        by (intros; rewrite ?lookup_insert_ne by done; reflexivity)
    | match goal with |- context [if ?b then _ else _] => destruct b end ];
  reflexivity.
Qed.

(** What one iteration does to [race_number]: a matching line overwrites
    it, there is no test that it is still unset. *)
Lemma race_info_step_race_number (d : gmap string (list N)) (line : list N) :
  race_info_step d line !! "race_number"
  = if is_race_number_line line then Some (strip line) else d !! "race_number".
Proof.
  unfold race_info_step, is_race_number_line.
  destruct (matched (re_search race_number_re (strip line)));
    repeat match goal with |- context [if ?b then _ else _] => destruct b end;
    rewrite ?race_info_rest_lookup by key_not_in;
    rewrite ?lookup_insert_ne by done;
    rewrite ?lookup_insert_eq; reflexivity.
Qed.

Lemma race_info_step_untouched (key : string) (d : gmap string (list N))
  (line : list N) :
  key ∉ ["race_number"; "race_name"; "time"; "distance"; "course_type";
         "direction"; "weather"; "track_condition"; "venue"; "entry_count";
         "prize_money"]%string ->
  race_info_step d line !! key = d !! key.
Proof.
  intros H.
  apply not_elem_of_cons in H as [? H]. apply not_elem_of_cons in H as [? Hrest].
  unfold race_info_step.
  repeat match goal with |- context [if ?b then _ else _] => destruct b end;
    rewrite ?race_info_rest_lookup by assumption;
    rewrite ?lookup_insert_ne by done; reflexivity.
Qed.

Lemma extract_race_info_untouched (key : string) (lines : list (list N))
  (d : gmap string (list N)) :
  key ∉ ["race_number"; "race_name"; "time"; "distance"; "course_type";
         "direction"; "weather"; "track_condition"; "venue"; "entry_count";
         "prize_money"]%string ->
  fold_left race_info_step lines d !! key = d !! key.
Proof.
  intros H. revert d.
  induction lines as [|line lines IH]; intros d; cbn [fold_left]; [reflexivity|].
  rewrite IH. by apply race_info_step_untouched.
Qed.

(** C10: for every line sequence the record returned by
    [extract_race_info] has the keys [grade] and [date], and both hold the
    empty string: no rule of the loop assigns them. *)
Theorem C10_grade_and_date_stay_empty (lines : list (list N)) :
  extract_race_info lines !! "grade" = Some []
  /\ extract_race_info lines !! "date" = Some [].
Proof.
  unfold extract_race_info.
  split; (rewrite extract_race_info_untouched; [reflexivity | key_not_in]).
Qed.

Lemma fold_race_number (lines : list (list N)) (d : gmap string (list N)) :
  fold_left race_info_step lines d !! "race_number"
  = match last (List.filter is_race_number_line lines) with
    | Some line => Some (strip line)
    | None => d !! "race_number"
    end.
Proof.
  revert d.
  induction lines as [|line lines IH]; intros d; cbn [fold_left List.filter];
    [reflexivity|].
  rewrite IH, race_info_step_race_number.
  destruct (is_race_number_line line); [|reflexivity].
  rewrite last_cons. by destruct (last _).
Qed.

(** C3 (as the code has it): [race_number] is the last line whose stripped
    text matches [^\d+R$], stripped; each matching line overwrites the
    value of an earlier one.  Without such a line it is the empty
    string. *)
Theorem C3_race_number_is_last_match (lines : list (list N)) :
  extract_race_info lines !! "race_number" = Some (last_race_number lines).
Proof.
  unfold extract_race_info, last_race_number. rewrite fold_race_number.
  by destruct (last _).
Qed.

(** C3, the claim as stated fails: both lines of ["1R"; "2R"] match the
    pattern, they are distinct, and [race_number] is not the first. *)
Lemma C3_first_match_does_not_win :
  is_race_number_line (u "1R") = true
  /\ is_race_number_line (u "2R") = true
  /\ filter_training_section [u "1R"; u "2R"] = [u "1R"; u "2R"]
  /\ extract_race_info [u "1R"; u "2R"] !! "race_number" = Some (u "2R")
  /\ extract_race_info [u "1R"; u "2R"] !! "race_number" <> Some (u "1R").
Proof. vm_compute. repeat split; discriminate. Qed.

(** C5 (the code departs from the claim): the fallback that accepts an
    age/class line as [race_name] is the [elif] of the test [not
    race_info['race_name']] and repeats that test, so it is never taken.
    The line below matches the age/class pattern, no priority rule accepts
    it, and [race_name] is still empty after the pass. *)
Theorem C5_class_line_is_not_a_fallback :
  let line := u "3歳以上1勝クラス" in
  matched (re_search class_race_re line) = true
  /\ special_race_name line = false
  /\ extract_race_info [line] !! "race_name" = Some [].
Proof. vm_compute. auto. Qed.

(** ** The matcher returns matches of the pattern *)

Section MatcherSound.

Variable a : regex.
Hypothesis body_sound : forall st k x,
  rmatch a st k = Some x ->
  exists st', Matches a (pos st, rest st) (pos st', rest st') /\ k st' = Some x.

Lemma star_loop_sound (k : mstate -> option mstate) (n : nat) :
  forall st x,
    star_loop (rmatch a) k n st = Some x ->
    exists st', Matches (Star a) (pos st, rest st) (pos st', rest st')
                /\ k st' = Some x.
Proof.
  induction n as [|n IH]; intros st x; cbn [star_loop].
  - intros Hk. exists st. split; [constructor | exact Hk].
  - destruct (rmatch a st _) as [y|] eqn:E.
    + intros [= ->]. apply body_sound in E as (st1 & Ha & Hk1).
      destruct (_ <? _)%nat; [|discriminate].
      apply IH in Hk1 as (st2 & Hs & Hk2).
      exists st2. split; [eapply M_star_more; eassumption | exact Hk2].
    + intros Hk. exists st. split; [constructor | exact Hk].
Qed.

Lemma lazy_loop_sound (k : mstate -> option mstate) (n : nat) :
  forall st x,
    lazy_loop (rmatch a) k n st = Some x ->
    exists st', Matches (LazyStar a) (pos st, rest st) (pos st', rest st')
                /\ k st' = Some x.
Proof.
  induction n as [|n IH]; intros st x; cbn [lazy_loop].
  - intros Hk. exists st. split; [constructor | exact Hk].
  - destruct (k st) as [y|] eqn:E.
    + intros [= ->]. exists st. split; [constructor | exact E].
    + intros Hb. apply body_sound in Hb as (st1 & Ha & Hk1).
      destruct (_ <? _)%nat; [|discriminate].
      apply IH in Hk1 as (st2 & Hs & Hk2).
      exists st2. split; [eapply M_lazy_more; eassumption | exact Hk2].
Qed.

End MatcherSound.

Lemma rmatch_sound (r : regex) :
  forall st k x,
    rmatch r st k = Some x ->
    exists st', Matches r (pos st, rest st) (pos st', rest st') /\ k st' = Some x.
Proof.
  induction r as [|f|a IHa b IHb|a IHa b IHb|a IHa|a IHa|n a IHa| |];
    intros st k x; cbn [rmatch].
  - intros Hk. exists st. split; [constructor | exact Hk].
  - destruct st as [i [|c t] cs]; cbn [rest]; [discriminate|].
    destruct (f c) eqn:Ef; [|discriminate].
    intros Hk. exists (adv (MState i (c :: t) cs) t).
    split; [by constructor | exact Hk].
  - intros H. apply IHa in H as (st1 & Ha & H).
    apply IHb in H as (st2 & Hb & H).
    exists st2. split; [eapply M_seq; eassumption | exact H].
  - destruct (rmatch a st k) as [y|] eqn:E.
    + intros [= ->]. apply IHa in E as (st1 & Ha & H).
      exists st1. split; [by apply M_alt_l | exact H].
    + intros H. apply IHb in H as (st1 & Hb & H).
      exists st1. split; [by apply M_alt_r | exact H].
  - apply star_loop_sound, IHa.
  - apply lazy_loop_sound, IHa.
  - intros H. apply IHa in H as (st1 & Ha & H).
    exists (set_cap n (take (pos st1 - pos st) (rest st)) st1).
    split; [by constructor | exact H].
  - destruct st as [[|i] s cs]; cbn [pos]; [|discriminate].
    intros Hk. exists (MState O s cs). split; [constructor | exact Hk].
  - destruct (at_eol (rest st)) eqn:E; [|discriminate].
    intros Hk. exists st. split; [by constructor | exact Hk].
Qed.

(** A match consumes a prefix of the text ahead, made of characters of the
    pattern's alphabet. *)
Lemma Forall_alphabet_l (a b : regex) (w : list N) :
  Forall (fun c => alphabet a c = true) w ->
  Forall (fun c => alphabet a c || alphabet b c = true) w.
Proof. intros F. eapply Forall_impl; [exact F|]. intros c ->. reflexivity. Qed.

Lemma Forall_alphabet_r (a b : regex) (w : list N) :
  Forall (fun c => alphabet b c = true) w ->
  Forall (fun c => alphabet a c || alphabet b c = true) w.
Proof. intros F. eapply Forall_impl; [exact F|]. cbn. intros c ->. apply orb_true_r. Qed.

Ltac glue_prefixes :=
  match goal with
  | H1 : snd _ = ?w1 ++ snd ?q, H2 : snd ?q = ?w2 ++ snd _ |- _ =>
      exists (w1 ++ w2); rewrite <- app_assoc, <- H2, length_app;
      split; [exact H1 | split; [lia|]]
  end.

Lemma Matches_prefix (r : regex) (p q : nat * list N) :
  Matches r p q ->
  exists w, snd p = w ++ snd q /\ fst q = (fst p + length w)%nat
            /\ Forall (fun c => alphabet r c = true) w.
Proof.
  induction 1; cbn [alphabet fst snd] in *;
    repeat match goal with
           | H : exists _, _ |- _ => destruct H as (? & ? & ? & ?)
           end;
    try (exists []; cbn; split; [reflexivity | split; [lia | constructor]]).
  - eexists [_]. repeat split; [cbn; lia | by repeat constructor].
  - glue_prefixes.
    apply Forall_app. split; [by apply Forall_alphabet_l | by apply Forall_alphabet_r].
  - eexists. repeat split; [eassumption | assumption | by apply Forall_alphabet_l].
  - eexists. repeat split; [eassumption | assumption | by apply Forall_alphabet_r].
  - glue_prefixes. by apply Forall_app.
  - glue_prefixes. by apply Forall_app.
  - eexists. repeat split; eassumption.
Qed.

Lemma Matches_ends_eol (r : regex) (p q : nat * list N) :
  Matches r p q -> ends_eol r = true -> at_eol (snd q) = true.
Proof.
  induction 1; cbn [ends_eol snd]; try discriminate; auto.
  - rewrite andb_true_iff. tauto.
  - rewrite andb_true_iff. tauto.
Qed.

(** A line accepted by [re.match] with a pattern that ends in [$] is made
    of characters of the pattern, up to a final newline. *)
Lemma re_match_anchored (r : regex) (s : list N) :
  matched (re_match r s) = true -> ends_eol r = true ->
  Forall (fun c => alphabet r c = true \/ c = NL) s.
Proof.
  unfold re_match, match_at. destruct (rmatch _ _ _) as [x|] eqn:E; [|discriminate].
  intros _ Hend. apply rmatch_sound in E as (st' & HM & _).
  pose proof (Matches_prefix _ _ _ HM) as (w & Hw & _ & F).
  pose proof (Matches_ends_eol _ _ _ HM Hend) as He.
  cbn [alphabet fst snd rest pos] in *. rewrite Hw.
  apply Forall_app. split.
  - eapply Forall_impl; [exact F|]. cbn. auto.
  - destruct (rest st') as [|c [|c' t]]; cbn in He; try discriminate.
    + constructor.
    + apply N.eqb_eq in He. constructor; [by right | constructor].
Qed.

(** ** Stripping and substrings *)

Lemma lstrip_split (s : list N) :
  exists a, s = a ++ lstrip s /\ Forall (fun c => is_space c = true) a.
Proof.
  induction s as [|c s (a & E & F)]; cbn [lstrip].
  - exists []. split; [reflexivity | constructor].
  - destruct (is_space c) eqn:Ec.
    + exists (c :: a). split; [cbn; congruence | by constructor].
    + exists []. split; [reflexivity | constructor].
Qed.

Lemma lstrip_head (s t : list N) (c : N) :
  lstrip s = c :: t -> is_space c = false.
Proof.
  induction s as [|d s IH]; cbn [lstrip]; [discriminate|].
  destruct (is_space d) eqn:Ed; [exact IH|]. by intros [= <- _].
Qed.

Lemma rstrip_split (s : list N) :
  exists b, s = rstrip s ++ b /\ Forall (fun c => is_space c = true) b.
Proof.
  unfold rstrip. destruct (lstrip_split (rev s)) as (a & E & F).
  exists (rev a). split.
  - rewrite <- rev_app_distr, <- E. by rewrite rev_involutive.
  - apply Forall_forall. intros c Hc. rewrite Forall_forall in F.
    apply F, list_elem_of_In. apply list_elem_of_In in Hc.
    by apply <- in_rev in Hc.
Qed.

Lemma rstrip_last (s : list N) (c : N) :
  last (rstrip s) = Some c -> is_space c = false.
Proof.
  unfold rstrip. destruct (lstrip (rev s)) as [|d t] eqn:E; [discriminate|].
  cbn [rev]. rewrite last_snoc. intros [= <-]. eapply lstrip_head, E.
Qed.

(** [s.strip()] removes whitespace at both ends, and only that. *)
Lemma strip_split (s : list N) :
  exists a b, s = a ++ strip s ++ b
              /\ Forall (fun c => is_space c = true) a
              /\ Forall (fun c => is_space c = true) b.
Proof.
  unfold strip. destruct (lstrip_split s) as (a & Ea & Fa).
  destruct (rstrip_split (lstrip s)) as (b & Eb & Fb).
  exists a, b. repeat split; try assumption. congruence.
Qed.

Lemma strip_last (s : list N) (c : N) :
  last (strip s) = Some c -> is_space c = false.
Proof. apply rstrip_last. Qed.

Lemma strip_keeps (s : list N) (c : N) :
  c ∈ s -> is_space c = false -> c ∈ strip s.
Proof.
  destruct (strip_split s) as (a & b & E & Fa & Fb).
  rewrite E at 1. rewrite !elem_of_app. rewrite Forall_forall in Fa, Fb.
  intros [H|[H|H]] Hc; [|exact H|]; [apply Fa in H | apply Fb in H]; congruence.
Qed.

Lemma strip_Forall (P : N -> Prop) (s : list N) :
  Forall P (strip s) -> (forall c, is_space c = true -> P c) -> Forall P s.
Proof.
  destruct (strip_split s) as (a & b & E & Fa & Fb). intros F HP.
  rewrite E. rewrite !Forall_app. repeat split; [|exact F|];
    (eapply Forall_impl; [eassumption|]; cbn; auto).
Qed.

Lemma starts_with_head (x : N) (n s : list N) :
  starts_with (x :: n) s = true -> exists t, s = x :: t.
Proof.
  destruct s as [|y t]; cbn; [discriminate|].
  intros [->%N.eqb_eq _]%andb_true_iff. by exists t.
Qed.

(** A string that contains [needle] contains its first character. *)
Lemma contains_head (x : N) (n s : list N) :
  contains (x :: n) s = true -> x ∈ s.
Proof.
  induction s as [|y t IH]; cbn [contains].
  - rewrite orb_false_r. intros (t & [=])%starts_with_head.
  - intros [(t' & [= -> ->])%starts_with_head | H%IH]%orb_true_iff.
    + apply elem_of_cons. by left.
    + apply elem_of_cons. by right.
Qed.

(** ** Entrant segmentation *)

(** A header line holds digits and whitespace only. *)
Lemma header_chars (line : list N) :
  is_header line = true ->
  Forall (fun c => is_digit c || is_space c = true) line.
Proof.
  intros H. apply strip_Forall.
  - eapply Forall_impl.
    + apply (re_match_anchored frame_horse_re); [exact H | reflexivity].
    + cbn -[is_digit is_space]. intros c [Hc | ->]; [|reflexivity].
      destruct (is_digit c), (is_space c); done.
  - intros c ->. apply orb_true_r.
Qed.

(** So it is not a stable line (line 271). *)
Lemma header_not_stable (line : list N) :
  is_header line = true ->
  contains (u "美浦") line || contains (u "栗東") line = false.
Proof.
  intros H%header_chars. rewrite Forall_forall in H.
  apply orb_false_iff. split.
  - destruct (contains _ line) eqn:E; [|reflexivity].
    change (u "美浦") with (ch "美" :: u "浦") in E.
    apply contains_head, H in E. discriminate E.
  - destruct (contains _ line) eqn:E; [|reflexivity].
    change (u "栗東") with (ch "栗" :: u "東") in E.
    apply contains_head, H in E. discriminate E.
Qed.

Lemma scan_fields_unfold (fuel : nat) (lines : list (list N)) (k : nat)
  (horse_data : horse) :
  scan_fields (S fuel) lines k horse_data
  = match lines !! k with
    | None => Some (k, horse_data)
    | Some l =>
        if is_header l then Some (k, horse_data)
        else scan_fields fuel lines (S k) (scan_line lines k (strip l) horse_data)
    end.
Proof.
  cbn [scan_fields]. unfold scan_line, is_header.
  destruct (lines !! k) as [l|]; [|reflexivity].
  repeat match goal with
         | |- context [if ?b then _ else _] => destruct b
         end; reflexivity.
Qed.

Lemma field_set_field_ne (key key' : string) (v : list N) (h : horse) :
  key' <> key -> field key (set_field key' v h) = field key h.
Proof.
  intros Hne. unfold field, set_field. cbn [fields].
  by rewrite lookup_total_insert_ne.
Qed.

Lemma field_jockey_lookahead (key : string) (lines : list (list N)) (k : nat)
  (h : horse) :
  "jockey"%string <> key -> field key (jockey_lookahead lines k h) = field key h.
Proof.
  intros Hne. unfold jockey_lookahead.
  repeat case_match; rewrite ?field_set_field_ne by assumption; reflexivity.
Qed.

(** The inner loop leaves the keys of the header and the positional
    fields alone. *)
Lemma field_scan_line (key : string) (lines : list (list N)) (k : nat)
  (current_line : list N) (h : horse) :
  key ∉ ["weight"; "popularity"; "odds"; "coat_color"; "age"; "sex"; "jockey";
         "load_weight"]%string ->
  field key (scan_line lines k current_line h) = field key h.
Proof.
  intros H.
  repeat (apply not_elem_of_cons in H as [? H]).
  unfold scan_line.
  repeat match goal with
         | |- context [if ?b then _ else _] => destruct b
         end;
    rewrite ?field_jockey_lookahead by congruence;
    rewrite ?field_set_field_ne by congruence; reflexivity.
Qed.

Lemma field_positional_fields (key : string) (lines : list (list N)) (i : nat)
  (h : horse) :
  key ∉ ["father"; "horse_name"; "mother"; "mother_father"; "trainer";
         "stable_type"]%string ->
  field key (positional_fields lines i h).1 = field key h.
Proof.
  intros H.
  repeat (apply not_elem_of_cons in H as [? H]).
  unfold positional_fields.
  repeat case_match; simplify_eq; cbn [fst];
    rewrite ?field_set_field_ne by congruence; reflexivity.
Qed.

(** The cursor after the positional fields: the lines it has passed are
    among the four after the header, or a stable line. *)
Lemma positional_fields_cursor (lines : list (list N)) (i : nat) (h : horse) :
  let j := (positional_fields lines i h).2 in
  (S i <= j)%nat
  /\ forall idx l, (S i <= idx < j)%nat -> lines !! idx = Some l ->
       (idx <= i + 4)%nat
       \/ contains (u "美浦") l || contains (u "栗東") l = true.
Proof.
  unfold positional_fields.
  repeat case_match; simplify_eq; cbn [snd]; (split; [lia|]);
    intros idx l' Hidx Hl;
    (destruct (decide (idx <= i + 4)%nat); [by left | right]);
    try lia;
    match goal with
    | H : lines !! ?a = Some ?l3, _ : contains _ ?l3 || _ = true |- _ =>
        assert (idx = a) as -> by lia; congruence
    end.
Qed.

(** The inner loop returns: with a bound above the lines that are left it
    stops at the next header line or at the end, all lines it passes are
    not header lines, and it leaves the header keys and the positional
    fields as they are. *)
Lemma scan_fields_spec (fuel : nat) (lines : list (list N)) :
  forall (k : nat) (h : horse),
    (length lines - k < fuel)%nat ->
    exists k' h',
      scan_fields fuel lines k h = Some (k', h')
      /\ (k <= k')%nat
      /\ (forall idx l, (k <= idx < k')%nat -> lines !! idx = Some l ->
            is_header l = false)
      /\ (forall key,
            key ∉ ["weight"; "popularity"; "odds"; "coat_color"; "age"; "sex";
                   "jockey"; "load_weight"]%string ->
            field key h' = field key h).
Proof.
  induction fuel as [|fuel IH]; intros k h Hfuel; [lia|].
  rewrite scan_fields_unfold.
  destruct (lines !! k) as [l|] eqn:El.
  - destruct (is_header l) eqn:Eh.
    + exists k, h. repeat split; [lia | intros; lia].
    + apply lookup_lt_Some in El as Hlen.
      destruct (IH (S k) (scan_line lines k (strip l) h)) as (k' & h' & E & Hk & Hno & Hf);
        [lia|].
      exists k', h'. repeat split; [exact E | lia | |].
      * intros idx l' Hidx Hl'. destruct (decide (idx = k)) as [->|].
        -- congruence.
        -- apply (Hno idx); [lia | exact Hl'].
      * intros key Hkey. rewrite Hf by exact Hkey. by apply field_scan_line.
  - exists k, h. repeat split; [lia | intros; lia].
Qed.

Lemma filter_drop_skip (p : list N -> bool) (lines : list (list N)) (n a : nat) :
  (forall idx l, (a <= idx < a + n)%nat -> lines !! idx = Some l -> p l = false) ->
  List.filter p (drop a lines) = List.filter p (drop (a + n) lines).
Proof.
  revert a. induction n as [|n IH]; intros a H.
  - by rewrite Nat.add_0_r.
  - destruct (lines !! a) as [l|] eqn:El.
    + rewrite (drop_S _ _ _ El). cbn [List.filter].
      rewrite (H a l) by (lia || exact El).
      rewrite IH; [f_equal; f_equal; lia|].
      intros idx l' Hidx. apply H. lia.
    + apply lookup_ge_None in El. by rewrite !drop_ge by lia.
Qed.

Lemma headers_apart_drop (lines : list (list N)) (n : nat) :
  headers_apart lines = true -> headers_apart (drop n lines) = true.
Proof.
  revert lines. induction n as [|n IH]; intros [|l lines]; cbn [drop headers_apart];
    try done.
  intros [_ H]%andb_true_iff. by apply IH.
Qed.

Lemma headers_apart_next (lines : list (list N)) (i : nat) (l : list N) :
  headers_apart (drop i lines) = true ->
  lines !! i = Some l -> is_header l = true ->
  forall idx l', (S i <= idx <= i + 4)%nat -> lines !! idx = Some l' ->
    is_header l' = false.
Proof.
  intros Ha El Hh idx l' Hidx El'.
  rewrite (drop_S _ _ _ El) in Ha. cbn [headers_apart] in Ha. rewrite Hh in Ha.
  apply andb_true_iff in Ha as [Ha _].
  rewrite forallb_forall in Ha.
  apply negb_true_iff, Ha, list_elem_of_In.
  apply list_elem_of_lookup. exists (idx - S i)%nat.
  rewrite lookup_take_lt by lia. rewrite lookup_drop.
  by replace (S i + (idx - S i))%nat with idx by lia.
Qed.

Lemma horse_key_init (a b : list N) : horse_key (horse_init a b) = (a, b).
Proof. reflexivity. Qed.

(** The outer loop returns, with one entrant per header line the cursor
    meets; when no header line hides among the positional lines of
    another, these are all header lines, in order. *)
Lemma horses_loop_spec (fuel : nat) (lines : list (list N)) :
  forall (i : nat) (acc : list horse),
    (length lines - i < fuel)%nat ->
    exists hs,
      horses_loop fuel lines i acc = Some (acc ++ hs)
      /\ (headers_apart (drop i lines) = true ->
          map horse_key hs
          = map header_key (List.filter is_header (drop i lines))).
Proof.
  induction fuel as [|fuel IH]; intros i acc Hfuel; [lia|].
  cbn [horses_loop].
  destruct (lines !! i) as [line|] eqn:El.
  - pose proof (lookup_lt_Some _ _ _ El) as Hlen.
    destruct (re_match frame_horse_re (strip line)) as [m|] eqn:Em.
    + assert (Hh : is_header line = true) by (unfold is_header; by rewrite Em).
      pose proof (positional_fields_cursor lines i (horse_init (group 1 m) (group 2 m)))
        as [Hj Hpos].
      assert (Hkey1 : horse_key (positional_fields lines i
                (horse_init (group 1 m) (group 2 m))).1 = (group 1 m, group 2 m)).
      { unfold horse_key. rewrite !field_positional_fields by key_not_in.
        apply horse_key_init. }
      destruct (positional_fields lines i _) as [h1 j]. cbn [fst snd] in *.
      destruct (scan_fields_spec (S (length lines)) lines j h1)
        as (k & h2 & E & Hk & Hno & Hf); [lia|].
      rewrite E. cbn [mbind option_bind].
      destruct (IH k (acc ++ [h2])) as (hs & Eh & Hkeys); [lia|].
      exists (h2 :: hs). split.
      * rewrite Eh. by rewrite <- app_assoc.
      * intros Ha. rewrite (drop_S _ _ _ El). cbn [List.filter]. rewrite Hh.
        cbn [map]. f_equal.
        -- unfold header_key. rewrite Em. cbn [grp]. rewrite <- Hkey1.
           unfold horse_key. by rewrite !Hf by key_not_in.
        -- rewrite Hkeys.
           ++ f_equal. replace k with (S i + (k - S i))%nat at 1 by lia.
              symmetry. apply filter_drop_skip.
              intros idx l' Hidx El'.
              destruct (decide (idx < j)%nat).
              ** destruct (Hpos idx l') as [H4|Hst]; [lia | exact El' | |].
                 --- apply (headers_apart_next lines i line Ha El Hh idx); [lia | exact El'].
                 --- destruct (is_header l') eqn:E'; [|reflexivity].
                     apply header_not_stable in E'. congruence.
              ** apply (Hno idx); [lia | exact El'].
           ++ replace k with (i + (k - i))%nat by lia. rewrite <- drop_drop.
              by apply headers_apart_drop.
    + destruct (IH (S i) acc) as (hs & Eh & Hkeys); [lia|].
      exists hs. split; [exact Eh|].
      intros Ha. rewrite (drop_S _ _ _ El). cbn [List.filter].
      unfold is_header at 1. rewrite Em. cbn [matched].
      apply Hkeys. rewrite (drop_S _ _ _ El) in Ha. cbn [headers_apart] in Ha.
      by apply andb_true_iff in Ha as [_ Ha].
  - exists []. split; [by rewrite app_nil_r|].
    intros _. apply lookup_ge_None in El. by rewrite drop_ge.
Qed.

(** [extract_horses_data] returns for every line sequence. *)
Lemma extract_horses_data_total (lines : list (list N)) :
  exists horses, extract_horses_data lines = Some horses.
Proof.
  destruct (horses_loop_spec (S (length lines)) lines 0 []) as (hs & E & _); [lia|].
  by exists hs.
Qed.

(** C2 (as the code has it): when no header line is among the four lines
    after another header line (the lines read as father, horse name,
    mother and mother's father), the entrant list has one entry per header
    line of the filtered sequence, in the order of the header lines, each
    with the two integers of its header line. *)
Theorem C2_one_entrant_per_header (lines : list (list N)) :
  headers_apart lines = true ->
  exists horses,
    extract_horses_data lines = Some horses
    /\ length horses = length (List.filter is_header lines)
    /\ map horse_key horses = map header_key (List.filter is_header lines).
Proof.
  intros Ha.
  destruct (horses_loop_spec (S (length lines)) lines 0 []) as (hs & E & Hkeys);
    [lia|].
  specialize (Hkeys Ha). cbn [drop] in Hkeys.
  exists hs. repeat split; [exact E | | exact Hkeys].
  apply (f_equal length) in Hkeys. by rewrite !length_map in Hkeys.
Qed.

Lemma C2_two_entrants :
  let lines := [u "12R"; u "1 1"; u "Sire"; u "Horse"; u "Dam"; u "(DamSire)";
                u "美浦・Trainer"; u "2 2"; u "Sire2"] in
  headers_apart lines = true
  /\ exists horses,
       extract_horses_data lines = Some horses
       /\ length horses = length (List.filter is_header lines)
       /\ map horse_key horses = map header_key (List.filter is_header lines).
Proof.
  split; [vm_compute; reflexivity|].
  apply (C2_one_entrant_per_header
           [u "12R"; u "1 1"; u "Sire"; u "Horse"; u "Dam"; u "(DamSire)";
            u "美浦・Trainer"; u "2 2"; u "Sire2"]).
  vm_compute. reflexivity.
Defined.

(** C2, the claim as stated fails: the filtered sequence ["1 1"; "2 2"]
    has two header lines and the entrant list has one entry, because the
    second line is read as the father of the first entrant. *)
Lemma C2_adjacent_headers_one_entrant :
  filter_training_section [u "1 1"; u "2 2"] = [u "1 1"; u "2 2"]
  /\ List.filter is_header [u "1 1"; u "2 2"] = [u "1 1"; u "2 2"]
  /\ option_map (map (fun h => (horse_key h, field "father" h)))
       (extract_horses_data [u "1 1"; u "2 2"])
     = Some [((u "1", u "1"), u "2 2")]
  /\ option_map length (extract_horses_data [u "1 1"; u "2 2"]) <> Some 2%nat.
Proof. vm_compute. repeat split; discriminate. Qed.

(** ** The whole pass *)

(** C8: the result of [parse_keiba_data] is a function of the text alone:
    it returns for every text, the object it is called on does not
    influence the result or the state it leaves (each of the three
    attributes is reassigned), and so a second call on the same object
    with the same text gives the same result. *)
Theorem C8_parse_depends_on_text_only (self self0 : organizer) (text : list N) :
  exists self' result,
    parse_keiba_data self text = Some (self', result)
    /\ parse_keiba_data self0 text = Some (self', result)
    /\ parse_keiba_data self' text = Some (self', result)
    /\ result = Parsed (race_info self') (horses_data self') (training_data self').
Proof.
  unfold parse_keiba_data.
  destruct (extract_horses_data_total
              (filter_training_section (normalize_lines text))) as (hs & ->).
  cbn [mbind option_bind race_info horses_data training_data].
  eexists _, _. repeat split.
Qed.

(** C9: for the empty text [parse_keiba_data] returns, the record of race
    information has its thirteen keys, each with the empty string, and the
    lists of entrants and of training records are empty. *)
Theorem C9_empty_text (self : organizer) :
  exists self' result,
    parse_keiba_data self [] = Some (self', result)
    /\ Forall (fun key => parsed_race_info result !! key = Some []) race_info_keys
    /\ (forall key v, parsed_race_info result !! key = Some v -> v = [])
    /\ parsed_horses_data result = []
    /\ parsed_training_data result = [].
Proof.
  exists (Organizer race_info_init [] []), (Parsed race_info_init [] []).
  split; [reflexivity|]. cbn [parsed_race_info parsed_horses_data parsed_training_data].
  split; [repeat constructor|]. split; [|split; reflexivity].
  intros key v. unfold race_info_init.
  rewrite !lookup_insert_Some, lookup_empty. intros H.
  repeat (destruct H as [[_ <-]|[_ H]]; [reflexivity|]). discriminate H.
Qed.

(** ** The horse name *)

Lemma match_at_blinker (i : nat) (s : list N) :
  match_at blinker_re i s
  = match s with
    | c :: t =>
        if (ch "B" =? c) && at_eol t
        then Some (MState (S i) t [(O, [c])])
        else None
    | [] => None
    end.
Proof.
  unfold match_at, blinker_re, C. cbn [rmatch rest pos].
  destruct s as [|c t]; [reflexivity|].
  destruct (ch "B" =? c); [|reflexivity]. cbn [adv rest pos caps andb].
  destruct (at_eol t); [|reflexivity].
  unfold set_cap. cbn [pos rest caps]. by rewrite Nat.sub_succ_l, Nat.sub_diag.
Qed.

Lemma sub_from_blinker (s : list N) :
  forall fuel i,
    (length s < fuel)%nat -> last s <> Some NL ->
    sub_from blinker_re [] fuel i s = strip_marker s.
Proof.
  induction s as [|c t IH]; intros [|fuel] i Hfuel Hlast; cbn [length] in Hfuel;
    try lia; cbn [sub_from]; rewrite match_at_blinker; [reflexivity|].
  destruct t as [|d t'].
  - cbn [at_eol strip_marker]. rewrite andb_true_r, N.eqb_sym.
    destruct fuel as [|fuel]; [cbn in Hfuel; lia|].
    destruct (c =? ch "B"); cbn [length app drop sub_from];
      by rewrite match_at_blinker.
  - assert (Hne : at_eol (d :: t') = false).
    { destruct t' as [|e t'']; [|reflexivity]. cbn [at_eol].
      apply N.eqb_neq. intros ->. by apply Hlast. }
    rewrite Hne, andb_false_r.
    rewrite IH; [reflexivity | cbn in *; lia | by rewrite last_cons_cons in Hlast].
Qed.

(** [re.sub(r'B$', '', s)] on a stripped line removes its final [B]. *)
Lemma re_sub_blinker (line : list N) :
  re_sub blinker_re [] (strip line) = strip_marker (strip line).
Proof.
  unfold re_sub. apply sub_from_blinker; [lia|].
  intros H%strip_last. discriminate H.
Qed.

Lemma strip_marker_unchanged (s : list N) :
  last s <> Some (ch "B") -> strip_marker s = s.
Proof.
  induction s as [|c [|d t] IH]; intros Hlast; cbn [strip_marker]; [reflexivity| |].
  - destruct (c =? ch "B") eqn:E; [|reflexivity].
    apply N.eqb_eq in E as ->. by destruct Hlast.
  - f_equal. apply IH. by rewrite last_cons_cons in Hlast.
Qed.

Lemma field_set_field_eq (key : string) (v : list N) (h : horse) :
  field key (set_field key v h) = v.
Proof. unfold field, set_field. cbn [fields]. apply lookup_total_insert_eq. Qed.

Lemma positional_horse_name (lines : list (list N)) (i : nat) (h : horse)
  (father name : list N) :
  nonblank_at lines (S i) = Some father ->
  nonblank_at lines (S (S i)) = Some name ->
  field "horse_name" (positional_fields lines i h).1 = re_sub blinker_re [] name.
Proof.
  intros Hf Hn. unfold positional_fields. rewrite Hf, Hn.
  repeat case_match; simplify_eq; cbn [fst];
    rewrite ?field_set_field_ne by congruence; apply field_set_field_eq.
Qed.

Lemma nonblank_at_strip (lines : list (list N)) (j : nat) (s : list N) :
  nonblank_at lines j = Some s -> exists l, lines !! j = Some l /\ s = strip l.
Proof.
  unfold nonblank_at. destruct (lines !! j) as [l|]; [|discriminate].
  destruct (truthy (strip l)); [|discriminate]. intros [= <-]. by exists l.
Qed.

(** The positional fields give the entrant its horse name. *)
Lemma positional_entrant_name (lines : list (list N)) (i : nat)
  (a b : list N) :
  field "horse_name" (positional_fields lines i (horse_init a b)).1
  = entrant_name lines i.
Proof.
  unfold entrant_name.
  destruct (nonblank_at lines (S i)) as [father|] eqn:Ef.
  - destruct (nonblank_at lines (S (S i))) as [name|] eqn:En.
    + rewrite (positional_horse_name _ _ _ _ _ Ef En).
      apply nonblank_at_strip in En as (l & _ & ->). apply re_sub_blinker.
    + unfold positional_fields. rewrite Ef, En.
      repeat case_match; simplify_eq; cbn [fst];
        rewrite ?field_set_field_ne by discriminate; reflexivity.
  - unfold positional_fields. rewrite Ef.
    repeat case_match; simplify_eq; cbn [fst];
      rewrite ?field_set_field_ne by discriminate; reflexivity.
Qed.

(** The outer loop makes one entrant at each header line its cursor
    meets, and its cursor meets every header line that is not among the
    four lines after the header line of an entrant. *)
Lemma horses_loop_names (fuel : nat) (lines : list (list N)) :
  forall (i : nat) (acc : list horse),
    (length lines - i < fuel)%nat ->
    exists hs starts,
      horses_loop fuel lines i acc = Some (acc ++ hs)
      /\ Forall2 (made_at lines) hs starts
      /\ forall idx header,
           (i <= idx)%nat -> lines !! idx = Some header ->
           is_header header = true ->
           idx ∈ starts
           \/ exists i0, i0 ∈ starts /\ (i0 < idx <= i0 + 4)%nat.
Proof.
  induction fuel as [|fuel IH]; intros i acc Hfuel; [lia|].
  cbn [horses_loop].
  destruct (lines !! i) as [line|] eqn:El.
  - pose proof (lookup_lt_Some _ _ _ El) as Hlen.
    destruct (re_match frame_horse_re (strip line)) as [m|] eqn:Em.
    + assert (Hh : is_header line = true) by (unfold is_header; by rewrite Em).
      pose proof (positional_fields_cursor lines i (horse_init (group 1 m) (group 2 m)))
        as [Hj Hpos].
      assert (Hkey1 : horse_key (positional_fields lines i
                (horse_init (group 1 m) (group 2 m))).1 = (group 1 m, group 2 m)).
      { unfold horse_key. rewrite !field_positional_fields by key_not_in.
        apply horse_key_init. }
      pose proof (positional_entrant_name lines i (group 1 m) (group 2 m))
        as Hname1.
      destruct (positional_fields lines i _) as [h1 j]. cbn [fst snd] in *.
      destruct (scan_fields_spec (S (length lines)) lines j h1)
        as (k & h2 & E & Hk & Hno & Hf); [lia|].
      rewrite E. cbn [mbind option_bind].
      destruct (IH k (acc ++ [h2])) as (hs & starts & Eh & Hmade & Hreach); [lia|].
      exists (h2 :: hs), (i :: starts). split; [|split].
      * rewrite Eh. by rewrite <- app_assoc.
      * constructor; [|exact Hmade]. exists line. repeat split; try assumption.
        -- unfold header_key. rewrite Em. cbn [grp]. rewrite <- Hkey1.
           unfold horse_key. by rewrite !Hf by key_not_in.
        -- rewrite Hf by key_not_in. exact Hname1.
      * intros idx header Hidx Ei Hi.
        destruct (decide (idx = i)) as [->|Hne]; [left; by left|].
        destruct (decide (idx < j)%nat) as [Hlt|Hge].
        { destruct (Hpos idx header) as [H4|Hst]; [lia | exact Ei | |].
          - right. exists i. split; [by left | lia].
          - apply header_not_stable in Hi. congruence. }
        destruct (decide (idx < k)%nat) as [Hlt|Hge'].
        { rewrite (Hno idx header) in Hi by (lia || exact Ei). discriminate Hi. }
        destruct (Hreach idx header) as [Hin|(i0 & Hin & Hb)];
          [lia | exact Ei | exact Hi | |].
        -- left. by right.
        -- right. exists i0. split; [by right | exact Hb].
    + destruct (IH (S i) acc) as (hs & starts & Eh & Hmade & Hreach); [lia|].
      exists hs, starts. split; [exact Eh|]. split; [exact Hmade|].
      intros idx header Hidx Ei Hi.
      destruct (decide (idx = i)) as [->|Hne].
      * rewrite El in Ei. injection Ei as <-.
        unfold is_header in Hi. rewrite Em in Hi. discriminate Hi.
      * apply (Hreach idx header); [lia | exact Ei | exact Hi].
  - exists [], []. split; [by rewrite app_nil_r|]. split; [constructor|].
    intros idx header Hidx Ei. apply lookup_lt_Some in Ei.
    apply lookup_ge_None in El. lia.
Qed.

Lemma strip_marker_final (s : list N) : strip_marker (s ++ [ch "B"]) = s.
Proof.
  induction s as [|c [|d t] IH]; [reflexivity| |].
  - cbn [app strip_marker]. reflexivity.
  - change ((c :: d :: t) ++ [ch "B"]) with (c :: (d :: t) ++ [ch "B"]).
    cbn [strip_marker app] in *. by rewrite IH.
Qed.

(** C4 (as the code has it): every entrant is made at a header line and
    its horse name is the stripped line two after that header line
    without a final letter [B], wherever the header line stands in the
    sequence; every header line gets an entrant unless it is among the
    four lines after the header line of an entrant.  Only a final [B] is
    removed: what stands before it stays (for ["ExampleHorse B"] the
    space), and a stripped line that does not end in [B] is kept as it
    is. *)
Theorem C4_horse_name_drops_final_B (lines : list (list N)) :
  exists horses starts,
    extract_horses_data lines = Some horses
    /\ Forall2 (made_at lines) horses starts
    /\ (forall i header,
          lines !! i = Some header -> is_header header = true ->
          i ∈ starts \/ exists i0, i0 ∈ starts /\ (i0 < i <= i0 + 4)%nat)
    /\ (forall name, strip_marker (name ++ [ch "B"]) = name)
    /\ (forall name, last name <> Some (ch "B") -> strip_marker name = name).
Proof.
  destruct (horses_loop_names (S (length lines)) lines 0 [])
    as (hs & starts & E & Hmade & Hreach); [lia|].
  exists hs, starts. split; [exact E|]. split; [exact Hmade|].
  split; [|split].
  - intros i header. apply Hreach. lia.
  - apply strip_marker_final.
  - apply strip_marker_unchanged.
Qed.

Lemma C4_marker_examples :
  option_map (map (field "horse_name")) (extract_horses_data marker_card)
  = Some [u "ExampleHorse"; u "PlainName "; u "PlainName"]
  /\ exists horses starts,
       extract_horses_data marker_card = Some horses
       /\ Forall2 (made_at marker_card) horses starts
       /\ (forall i header,
             marker_card !! i = Some header -> is_header header = true ->
             i ∈ starts \/ exists i0, i0 ∈ starts /\ (i0 < i <= i0 + 4)%nat)
       /\ (forall name, strip_marker (name ++ [ch "B"]) = name)
       /\ (forall name, last name <> Some (ch "B") -> strip_marker name = name).
Proof.
  split; [vm_compute; reflexivity|].
  apply (C4_horse_name_drops_final_B marker_card).
Defined.

(** C4, the claim as stated fails: for the horse-name line
    ["ExampleHorse B"] the extracted name keeps the space before the
    marker. *)
Lemma C4_space_before_marker_stays :
  option_map (map (field "horse_name"))
    (extract_horses_data
       [u "1 1"; u "SireName"; u "ExampleHorse B"; u "DamName"; u "(DamSireName)"])
  = Some [u "ExampleHorse "]
  /\ u "ExampleHorse " <> u "ExampleHorse".
Proof. vm_compute. split; [reflexivity | discriminate]. Qed.

(** ** Winner and time difference *)










Lemma rmatch_seq (a b : regex) (st : mstate) (k : mstate -> option mstate) :
  rmatch (Seq a b) st k = rmatch a st (fun st' => rmatch b st' k).
Proof. reflexivity. Qed.

Lemma rmatch_group (n : nat) (a : regex) (st : mstate)
  (k : mstate -> option mstate) :
  rmatch (Group n a) st k
  = rmatch a st (fun st' => k (set_cap n (take (pos st' - pos st) (rest st)) st')).
Proof. reflexivity. Qed.











(** * Further properties of the extraction passes *)

(** ** Line normalisation *)

Lemma lstrip_fixed (s : list N) :
  match s with c :: _ => is_space c = false | [] => True end -> lstrip s = s.
Proof. destruct s as [|c s]; cbn [lstrip]; [reflexivity|]. by intros ->. Qed.

Lemma strip_head (s t : list N) (c : N) :
  strip s = c :: t -> is_space c = false.
Proof.
  unfold strip. intros E.
  destruct (rstrip_split (lstrip s)) as (b & Eb & _).
  rewrite E in Eb. cbn [app] in Eb. eapply lstrip_head, Eb.
Qed.

(** Stripping a stripped string changes nothing. *)
Lemma strip_idempotent (s : list N) : strip (strip s) = strip s.
Proof.
  set (t := strip s). assert (Et : strip s = t) by reflexivity. clearbody t.
  unfold strip at 1.
  assert (Hl : lstrip t = t).
  { apply lstrip_fixed. destruct t as [|c t']; [exact I|]. eapply strip_head, Et. }
  rewrite Hl. unfold rstrip.
  assert (Hr : lstrip (rev t) = rev t).
  { apply lstrip_fixed. destruct (rev t) as [|c r] eqn:Er; [exact I|].
    apply (strip_last s). rewrite Et.
    rewrite <- (rev_involutive t), Er. cbn [rev]. apply last_snoc. }
  rewrite Hr. apply rev_involutive.
Qed.

Lemma strip_subset (s : list N) (c : N) : c ∈ strip s -> c ∈ s.
Proof.
  destruct (strip_split s) as (a & b & E & _). intros H.
  rewrite E, !elem_of_app. auto.
Qed.

Lemma not_elem_of_rev (c : N) (l : list N) : c ∉ l -> c ∉ rev l.
Proof.
  intros H Hin. apply H. apply list_elem_of_In, in_rev.
  by apply list_elem_of_In.
Qed.

Lemma split_on_go_no_sep (sep : N) (s cur : list N) :
  sep ∉ cur -> Forall (fun piece => sep ∉ piece) (split_on_go sep s cur).
Proof.
  revert cur. induction s as [|c s IH]; intros cur Hcur; cbn [split_on_go].
  - repeat constructor. by apply not_elem_of_rev.
  - destruct (c =? sep) eqn:E.
    + constructor.
      * by apply not_elem_of_rev.
      * apply IH. apply not_elem_of_nil.
    + apply IH. apply not_elem_of_cons. split; [|exact Hcur].
      apply N.eqb_neq in E. congruence.
Qed.

(** X1: every line [parse_keiba_data] works on is non-empty, has no
    whitespace at either end (stripping it again changes nothing) and holds
    no newline. *)
Theorem X1_normalized_lines (text : list N) :
  Forall (fun line => line <> [] /\ strip line = line /\ NL ∉ line)
    (normalize_lines text).
Proof.
  unfold normalize_lines. apply Forall_forall. intros line Hin.
  apply list_elem_of_In, in_map_iff in Hin as (raw & <- & Hraw).
  apply list_elem_of_In, list_elem_of_filter in Hraw as [Htruthy Hraw].
  repeat split.
  - intros E. rewrite E in Htruthy. discriminate Htruthy.
  - apply strip_idempotent.
  - intros Hnl%strip_subset.
    pose proof (split_on_go_no_sep NL text [] (not_elem_of_nil _)) as Hall.
    rewrite Forall_forall in Hall. by apply (Hall raw).
Qed.

(** ** Training-section filter *)

Lemma before_training_split (lines : list (list N)) :
  exists dropped,
    lines = before_training lines ++ dropped
    /\ match dropped with
       | [] => True
       | line :: _ => starts_training line = true
       end.
Proof.
  induction lines as [|line lines (dropped & E & H)]; cbn [before_training].
  - by exists [].
  - destruct (starts_training line) eqn:Es.
    + by exists (line :: lines).
    + exists dropped. split; [cbn; congruence | exact H].
Qed.

Lemma before_training_cut (pre post : list (list N)) (line : list N) :
  starts_training line = true ->
  before_training (pre ++ line :: post) = before_training pre.
Proof.
  intros Hl. induction pre as [|l pre IH]; cbn [app before_training].
  - by rewrite Hl.
  - destruct (starts_training l); [reflexivity | by rewrite IH].
Qed.

(** X2: the filter keeps exactly the lines before the first line that
    contains the training heading or matches the training-table header:
    the input is the output followed by the dropped lines, no kept line is
    such a line, and the first dropped line is one. *)
Theorem X2_filter_keeps_leading_lines (lines : list (list N)) :
  exists dropped,
    lines = filter_training_section lines ++ dropped
    /\ Forall (fun line => starts_training line = false)
         (filter_training_section lines)
    /\ match dropped with
       | [] => True
       | line :: _ => starts_training line = true
       end.
Proof.
  rewrite filter_training_section_eq.
  destruct (before_training_split lines) as (dropped & E & H).
  exists dropped. repeat split; [exact E | apply before_training_clean | exact H].
Qed.

(** X3: nothing after a training heading reaches the race-info and the
    entrant extraction: the filtered lines, the race information and the
    entrants are those of the lines before it. *)
Theorem X3_lines_after_heading_are_ignored (pre post : list (list N))
  (line : list N) :
  starts_training line = true ->
  filter_training_section (pre ++ line :: post) = filter_training_section pre
  /\ extract_race_info (filter_training_section (pre ++ line :: post))
     = extract_race_info (filter_training_section pre)
  /\ extract_horses_data (filter_training_section (pre ++ line :: post))
     = extract_horses_data (filter_training_section pre).
Proof.
  intros Hl.
  assert (E : filter_training_section (pre ++ line :: post)
              = filter_training_section pre).
  { rewrite !filter_training_section_eq. by apply before_training_cut. }
  by rewrite E.
Qed.

Lemma X3_heading_example :
  starts_training (u "調教タイム") = true
  /\ (filter_training_section ([u "12R"] ++ u "調教タイム" :: [u "1 1"; u "Sire"])
      = filter_training_section [u "12R"]
      /\ extract_race_info
           (filter_training_section ([u "12R"] ++ u "調教タイム" :: [u "1 1"; u "Sire"]))
         = extract_race_info (filter_training_section [u "12R"])
      /\ extract_horses_data
           (filter_training_section ([u "12R"] ++ u "調教タイム" :: [u "1 1"; u "Sire"]))
         = extract_horses_data (filter_training_section [u "12R"])).
Proof.
  split; [vm_compute; reflexivity|].
  apply (X3_lines_after_heading_are_ignored [u "12R"] [u "1 1"; u "Sire"]
           (u "調教タイム")).
  vm_compute. reflexivity.
Defined.

(** ** Training records *)

Lemma training_fold_active (lines : list (list N))
  (acc : list (gmap string (list N))) :
  fold_left training_step lines (true, acc)
  = (true, acc ++ map training_record (List.filter training_line lines)).
Proof.
  revert acc. induction lines as [|line lines IH]; intros acc;
    cbn [fold_left List.filter map].
  - by rewrite app_nil_r.
  - unfold training_step at 2, training_line.
    destruct (contains (u "調教タイム") line); cbn [negb andb].
    + apply IH.
    + destruct (matched (re_search decimal_re line)); cbn [map].
      * rewrite IH. by rewrite <- app_assoc.
      * apply IH.
Qed.

Lemma training_fold_inactive (lines : list (list N))
  (acc : list (gmap string (list N))) :
  snd (fold_left training_step lines (false, acc))
  = acc ++ map training_record (List.filter training_line (after_heading lines)).
Proof.
  induction lines as [|line lines IH]; cbn [fold_left after_heading].
  - by rewrite app_nil_r.
  - unfold training_step at 2.
    destruct (contains (u "調教タイム") line); cbn [andb].
    + by rewrite training_fold_active.
    + exact IH.
Qed.

(** X4: the training pass never clears its flag: the records are those of
    all lines after the first heading line that hold a decimal number and
    are not heading lines themselves, in order; lines none of which is a
    heading line give no record. *)
Theorem X4_training_records (lines : list (list N)) :
  extract_training_data lines
  = map training_record (List.filter training_line (after_heading lines))
  /\ extract_training_data
       (List.filter (fun line => negb (contains (u "調教タイム") line)) lines)
     = [].
Proof.
  unfold extract_training_data. rewrite !training_fold_inactive. cbn [app].
  split; [reflexivity|].
  replace (after_heading (List.filter _ lines)) with (@nil (list N));
    [reflexivity|].
  induction lines as [|line lines IH]; cbn [List.filter]; [reflexivity|].
  destruct (contains (u "調教タイム") line) eqn:E; cbn [negb]; [exact IH|].
  cbn [after_heading]. by rewrite E.
Qed.

Example training_sample :
  map (fun r => (r !! "date", r !! "time", r !! "horse_name"))
    (extract_training_data
       [u "58.5"; u "調教タイム"; u "ホース 2025/07/01 美Ｗ 良 助手 54.3 39.1";
        u "まずまず"; u "12R"; u "58.0"])
  = [(Some (u "2025/07/01"), Some (u "39.1"), Some []);
     (Some [], Some (u "58.0"), Some [])].
Proof. vm_compute. reflexivity. Qed.

(** ** Race name *)

Lemma truthy_false (s : list N) : truthy s = false -> s = [].
Proof. by destruct s. Qed.

Lemma race_info_step_race_name (d : gmap string (list N)) (line x : list N) :
  d !! "race_name" = Some x ->
  race_info_step d line !! "race_name"
  = Some (if truthy x then x else if names_race line then strip line else []).
Proof.
  intros Hx. unfold race_info_step, names_race.
  set (d1 := if matched (re_search race_number_re (strip line))
             then <["race_number" := strip line]> d else d).
  assert (H1 : d1 !! "race_name" = Some x).
  { subst d1. destruct (matched _); [by rewrite lookup_insert_ne|exact Hx]. }
  rewrite (lookup_total_correct _ _ _ H1). clearbody d1.
  destruct (truthy x) eqn:Ex; cbn [negb andb].
  - rewrite race_info_rest_lookup by key_not_in. exact H1.
  - apply truthy_false in Ex as ->.
    destruct (bool_decide (strip line ∈ site_terms)); cbn [negb andb]; [exact H1|].
    destruct (special_race_name line); cbn [andb];
      rewrite race_info_rest_lookup by key_not_in.
    + rewrite lookup_insert_eq. by destruct (strip line).
    + exact H1.
Qed.

Lemma fold_race_name (lines : list (list N)) :
  forall (d : gmap string (list N)) (x : list N),
    d !! "race_name" = Some x ->
    fold_left race_info_step lines d !! "race_name"
    = Some (if truthy x then x else first_race_name lines).
Proof.
  induction lines as [|line lines IH]; intros d x Hx; cbn [fold_left].
  - rewrite Hx. unfold first_race_name. cbn. by destruct x.
  - rewrite (IH _ _ (race_info_step_race_name d line x Hx)).
    unfold first_race_name. cbn [List.find].
    destruct (truthy x) eqn:Ex; [by rewrite Ex|].
    destruct (names_race line) eqn:En.
    + unfold names_race in En. apply andb_true_iff in En as [_ ->]. reflexivity.
    + reflexivity.
Qed.

(** X5: the race name is the stripped text of the first line that is not
    empty, is not one of the site terms and satisfies a priority rule
    (grade letter at the end, cup/memorial character without prize token,
    or short line without the excluded tokens); it is empty when there is
    no such line.  Later lines never replace it, and the age/class pattern
    of line 161 plays no part. *)
Theorem X5_race_name_is_first_accepted (lines : list (list N)) :
  extract_race_info lines !! "race_name" = Some (first_race_name lines).
Proof.
  unfold extract_race_info.
  by rewrite (fold_race_name lines race_info_init []).
Qed.

Example race_name_sample :
  extract_race_info [u "ニュース"; u "12R"; u "有馬記念"; u "天皇賞 G"] !! "race_name"
  = Some (u "有馬記念").
Proof. vm_compute. reflexivity. Qed.

(** ** Key sets *)

(** Assigning a key that is present keeps the key set. *)
Lemma dom_insert_present (k : string) (v : list N) (d : gmap string (list N))
  (K : gset string) :
  dom d = K -> k ∈ K -> dom (<[k := v]> d) = K.
Proof.
  intros <- Hk. rewrite dom_insert_L.
  apply subseteq_union_1_L, singleton_subseteq_l, Hk.
Qed.

Lemma dom_set_if_match (K : gset string) (o : option mstate)
  (f : mstate -> gmap string (list N) -> gmap string (list N))
  (d : gmap string (list N)) :
  (forall m d', dom d' = K -> dom (f m d') = K) ->
  dom d = K -> dom (set_if_match o f d) = K.
Proof. intros Hf Hd. destruct o; cbn [set_if_match]; auto. Qed.

Ltac key_present :=
  apply elem_of_dom; eexists; reflexivity.

Lemma dom_race_info_rest (d : gmap string (list N)) (line : list N) :
  dom d = dom race_info_init -> dom (race_info_rest d line) = dom race_info_init.
Proof.
  intros Hd. unfold race_info_rest.
  repeat first
    [ assumption
    | apply dom_insert_present; [|key_present]
    | apply dom_set_if_match; [intros ? ? ?|]
    | match goal with |- context [if ?b then _ else _] => destruct b end ].
Qed.

Lemma dom_race_info_step (d : gmap string (list N)) (line : list N) :
  dom d = dom race_info_init -> dom (race_info_step d line) = dom race_info_init.
Proof.
  intros Hd. unfold race_info_step.
  repeat first
    [ assumption
    | apply dom_race_info_rest
    | apply dom_insert_present; [|key_present]
    | match goal with |- context [if ?b then _ else _] => destruct b end ].
Qed.

Lemma dom_extract_race_info (lines : list (list N)) :
  dom (extract_race_info lines) = list_to_set race_info_keys.
Proof.
  transitivity (dom race_info_init); [|reflexivity].
  unfold extract_race_info. generalize (eq_refl (dom race_info_init)).
  generalize race_info_init at 1 3.
  induction lines as [|line lines IH]; intros d Hd; cbn [fold_left]; [exact Hd|].
  apply IH. by apply dom_race_info_step.
Qed.

(** X6: for every line sequence the record of race information has
    exactly its thirteen keys: the loop only assigns keys of the initial
    record and removes none. *)
Theorem X6_race_info_keys (lines : list (list N)) :
  dom (extract_race_info lines) = list_to_set race_info_keys.
Proof. apply dom_extract_race_info. Qed.

(** ** The stages of the past-race parser *)

Lemma parse_past_race_stages (race_line : list N) (context_lines : list (list N)) :
  parse_past_race race_line context_lines
  = past_tail race_line context_lines
      (resolve_venue race_line (past_date race_line race_result_init)).
Proof. reflexivity. Qed.

Ltac key_in := apply list_elem_of_In; cbn; tauto.

Ltac closed_steps H :=
  repeat first
    [ assumption
    | apply H; [key_in|]
    | match goal with |- context [if ?b then _ else _] => destruct b end
    | match goal with |- context [match ?o with Some _ => _ | None => _ end] =>
        destruct o
      end ].

Lemma winner_loop_closed (P : gmap string (list N) -> Prop)
  (context_lines : list (list N)) (d : gmap string (list N)) :
  closed_under past_tail_keys P -> P d -> P (winner_loop context_lines d).
Proof.
  intros H Hd. induction context_lines as [|line context_lines IH];
    cbn [winner_loop]; [exact Hd|].
  closed_steps H.
Qed.

Section PastStages.

Variable P : gmap string (list N) -> Prop.
Hypothesis closed : closed_under past_tail_keys P.

Lemma past_measures_closed (all_text : list N) (d : gmap string (list N)) :
  P d -> P (past_measures all_text d).
Proof. intros Hd. unfold past_measures. closed_steps closed. Qed.

Lemma past_finish_closed (race_line : list N) (d : gmap string (list N)) :
  P d -> P (past_finish race_line d).
Proof. intros Hd. unfold past_finish. closed_steps closed. Qed.

Lemma past_passage_closed (all_text : list N) (d : gmap string (list N)) :
  P d -> P (past_passage all_text d).
Proof. intros Hd. unfold past_passage. closed_steps closed. Qed.

Lemma past_alt_finish_closed (all_text : list N) (d : gmap string (list N)) :
  P d -> P (past_alt_finish all_text d).
Proof. intros Hd. unfold past_alt_finish. closed_steps closed. Qed.

Lemma past_race_name_closed (context_lines : list (list N))
  (d : gmap string (list N)) :
  P d -> P (past_race_name context_lines d).
Proof. intros Hd. unfold past_race_name. closed_steps closed. Qed.

Lemma past_tail_closed (race_line : list N) (context_lines : list (list N))
  (d : gmap string (list N)) :
  P d -> P (past_tail race_line context_lines d).
Proof.
  intros Hd. unfold past_tail. cbv zeta.
  apply winner_loop_closed; [exact closed|].
  apply past_race_name_closed, past_alt_finish_closed, past_passage_closed,
    past_finish_closed, past_measures_closed, Hd.
Qed.

End PastStages.

Lemma past_date_closed (P : gmap string (list N) -> Prop) (race_line : list N)
  (d : gmap string (list N)) :
  closed_under ["date"%string] P -> P d -> P (past_date race_line d).
Proof. intros H Hd. unfold past_date. closed_steps H. Qed.

(** The venue loops only ever assign a name of the venue list. *)
Lemma resolve_venue_closed (P : gmap string (list N) -> Prop)
  (race_line : list N) (d : gmap string (list N)) :
  (forall d' v, v ∈ all_venues -> P d' -> P (<["venue" := v]> d')) ->
  P d -> P (resolve_venue race_line d).
Proof.
  intros H Hd. unfold resolve_venue.
  repeat first
    [ assumption
    | match goal with
      | |- context [match find ?f ?l with Some _ => _ | None => _ end] =>
          let E := fresh "E" in
          destruct (find f l) eqn:E;
          [apply find_some in E as [E _]; apply list_elem_of_In in E|]
      end
    | apply H; [assumption|]
    | match goal with |- context [if ?b then _ else _] => destruct b end
    | match goal with |- context [match ?o with Some _ => _ | None => _ end] =>
        destruct o
      end ].
Qed.

Lemma parse_past_race_closed (P : gmap string (list N) -> Prop)
  (race_line : list N) (context_lines : list (list N)) :
  closed_under ("date" :: "venue" :: past_tail_keys)%string P ->
  P race_result_init -> P (parse_past_race race_line context_lines).
Proof.
  intros H H0. rewrite parse_past_race_stages.
  apply past_tail_closed.
  { intros d k v Hk. apply H. by do 2 (apply elem_of_cons; right). }
  apply resolve_venue_closed.
  { intros d v _. apply H. key_in. }
  apply past_date_closed; [|exact H0].
  intros d k v Hk. apply H. apply elem_of_cons in Hk as [->|Hk]; [key_in|].
  by apply elem_of_nil in Hk.
Qed.

Lemma dom_parse_past_race (race_line : list N) (context_lines : list (list N)) :
  dom (parse_past_race race_line context_lines) = list_to_set race_result_keys.
Proof.
  apply parse_past_race_closed; [|reflexivity].
  intros d k v Hk Hd. apply dom_insert_present; [exact Hd|].
  apply list_elem_of_In in Hk. cbn in Hk.
  repeat (destruct Hk as [<-|Hk]; [by vm_compute|]). destruct Hk.
Qed.

Lemma parse_past_race_unassigned (race_line : list N)
  (context_lines : list (list N)) :
  parse_past_race race_line context_lines !! "jockey" = Some []
  /\ parse_past_race race_line context_lines !! "weight" = Some [].
Proof.
  apply (parse_past_race_closed
           (fun d => d !! "jockey" = Some [] /\ d !! "weight" = Some []));
    [|split; reflexivity].
  intros d k v Hk [Hj Hw].
  apply list_elem_of_In in Hk. cbn in Hk.
  repeat (destruct Hk as [<-|Hk];
          [by rewrite !lookup_insert_ne by discriminate|]).
  destruct Hk.
Qed.

(** X9: the venue of a past-race record is the empty string or one of the
    twenty-three names of the venue list. *)
Theorem X9_past_race_venue_is_listed (race_line : list N)
  (context_lines : list (list N)) :
  exists venue,
    parse_past_race race_line context_lines !! "venue" = Some venue
    /\ (venue = [] \/ venue ∈ all_venues).
Proof.
  rewrite parse_past_race_stages.
  apply (past_tail_closed
           (fun d => exists venue,
              d !! "venue" = Some venue /\ (venue = [] \/ venue ∈ all_venues))).
  { intros d k v Hk (venue & Hv & Hin). exists venue. split; [|exact Hin].
    apply list_elem_of_In in Hk. cbn in Hk.
    repeat (destruct Hk as [<-|Hk]; [by rewrite lookup_insert_ne by discriminate|]).
    destruct Hk. }
  apply resolve_venue_closed.
  { intros d v Hv _. exists v. split; [apply lookup_insert_eq | by right]. }
  apply past_date_closed.
  { intros d k v Hk (venue & Hv & Hin). exists venue. split; [|exact Hin].
    apply elem_of_cons in Hk as [->|Hk]; [|by apply elem_of_nil in Hk].
    by rewrite lookup_insert_ne by discriminate. }
  exists []. split; [reflexivity | by left].
Qed.

(** ** Invariants of the entrant loops *)

Section EntrantInvariant.

Variable lines : list (list N).
Variable P : horse -> Prop.
Hypothesis P_init : forall a b, P (horse_init a b).
Hypothesis P_positional : forall i h, P h -> P (positional_fields lines i h).1.
Hypothesis P_scan_line : forall k l h,
  lines !! k = Some l -> P h -> P (scan_line lines k (strip l) h).

Lemma scan_fields_invariant (fuel : nat) :
  forall k h k' h',
    scan_fields fuel lines k h = Some (k', h') -> P h -> P h'.
Proof.
  induction fuel as [|fuel IH]; intros k h k' h'; [discriminate|].
  rewrite scan_fields_unfold.
  destruct (lines !! k) as [l|] eqn:El; [|by intros [= _ <-]].
  destruct (is_header l); [by intros [= _ <-]|].
  intros E Hh. eapply IH; [exact E|]. by apply P_scan_line.
Qed.

Lemma horses_loop_invariant (fuel : nat) :
  forall i acc horses,
    horses_loop fuel lines i acc = Some horses ->
    Forall P acc -> Forall P horses.
Proof.
  induction fuel as [|fuel IH]; intros i acc horses; [discriminate|].
  cbn [horses_loop].
  destruct (lines !! i) as [line|]; [|by intros [= <-]].
  destruct (re_match frame_horse_re (strip line)) as [m|]; [|apply IH].
  pose proof (P_positional i (horse_init (group 1 m) (group 2 m))
                (P_init _ _)) as H1.
  destruct (positional_fields lines i _) as [h1 j]. cbn [fst] in H1.
  destruct (scan_fields (S (length lines)) lines j h1) as [[k h2]|] eqn:E;
    [|discriminate].
  cbn [mbind option_bind]. intros Hl Hacc. eapply IH; [exact Hl|].
  apply Forall_app. split; [exact Hacc|].
  repeat constructor. eapply scan_fields_invariant; eassumption.
Qed.

(** A property of the initial entrant that the positional fields and
    every iteration of the inner loop keep holds of every entrant. *)
Lemma extract_horses_data_invariant (horses : list horse) :
  extract_horses_data lines = Some horses -> Forall P horses.
Proof. intros E. eapply horses_loop_invariant; [exact E | constructor]. Qed.

End EntrantInvariant.

Section EntrantFields.

Variable lines : list (list N).
Variable P : horse -> Prop.
Hypothesis P_init : forall a b, P (horse_init a b).
Hypothesis P_positional : closed_fields positional_keys P.
Hypothesis P_scan : closed_fields scan_keys P.
Hypothesis P_past : forall h k current_line,
  matched (re_search past_date_re current_line) = true ->
  P h ->
  P (add_past_race (parse_past_race current_line (take 8 (drop k lines))) h).

Lemma positional_fields_keeps (i : nat) (h : horse) :
  P h -> P (positional_fields lines i h).1.
Proof.
  intros Hh. unfold positional_fields.
  repeat case_match; simplify_eq; cbn [fst];
    repeat first [assumption | apply P_positional; [key_in|]].
Qed.

Lemma scan_line_keeps (k : nat) (current_line : list N) (h : horse) :
  P h -> P (scan_line lines k current_line h).
Proof.
  intros Hh. unfold scan_line, jockey_lookahead.
  repeat first
    [ assumption
    | apply P_scan; [key_in|]
    | apply P_past; [assumption|]
    | match goal with
      | |- context [if matched (re_search past_date_re ?l) then _ else _] =>
          destruct (matched (re_search past_date_re l)) eqn:?
      end
    | match goal with |- context [if ?b then _ else _] => destruct b end
    | match goal with |- context [match ?o with Some _ => _ | None => _ end] =>
        destruct o
      end ].
Qed.

(** The same for a property that assignments to the fields keep. *)
Lemma extract_horses_data_keeps (horses : list horse) :
  extract_horses_data lines = Some horses -> Forall P horses.
Proof.
  apply extract_horses_data_invariant.
  - exact P_init.
  - apply positional_fields_keeps.
  - intros k l h _. apply scan_line_keeps.
Qed.

End EntrantFields.

Lemma dom_fields_set_field (K : gset string) (k : string) (v : list N)
  (h : horse) :
  dom (fields h) = K -> k ∈ K -> dom (fields (set_field k v h)) = K.
Proof. intros Hd Hk. unfold set_field. cbn [fields]. by apply dom_insert_present. Qed.

Lemma extract_horses_data_keyed (lines : list (list N)) (horses : list horse) :
  extract_horses_data lines = Some horses -> Forall horse_keyed horses.
Proof.
  apply (extract_horses_data_keeps lines horse_keyed).
  - intros a b. split; [reflexivity | constructor].
  - intros h k v Hk [Hd Hp]. split; [|exact Hp].
    apply dom_fields_set_field; [exact Hd|].
    apply list_elem_of_In in Hk. cbn in Hk.
    repeat (destruct Hk as [<-|Hk]; [by vm_compute|]). destruct Hk.
  - intros h k v Hk [Hd Hp]. split; [|exact Hp].
    apply dom_fields_set_field; [exact Hd|].
    apply list_elem_of_In in Hk. cbn in Hk.
    repeat (destruct Hk as [<-|Hk]; [by vm_compute|]). destruct Hk.
  - intros h k l _ [Hd Hp]. split; [exact Hd|]. cbn [add_past_race past_races].
    apply Forall_app. split; [exact Hp|].
    repeat constructor. apply dom_parse_past_race.
Qed.

(** X7: every entrant has exactly its seventeen string keys and every
    past-race record attached to it exactly its fourteen keys, for every
    line sequence: no field of the exported structure is ever missing. *)
Theorem X7_entrant_and_past_race_keys (lines : list (list N)) :
  exists horses,
    extract_horses_data lines = Some horses /\ Forall horse_keyed horses.
Proof.
  destruct (extract_horses_data_total lines) as (horses & E).
  exists horses. split; [exact E | by apply (extract_horses_data_keyed lines)].
Qed.

Lemma extract_horses_data_never_assigned (lines : list (list N))
  (horses : list horse) :
  extract_horses_data lines = Some horses -> Forall never_assigned horses.
Proof.
  apply (extract_horses_data_keeps lines never_assigned).
  - intros a b. split; [reflexivity | constructor].
  - intros h k v Hk [Hd Hp]. split; [|exact Hp].
    rewrite field_set_field_ne; [exact Hd|].
    apply list_elem_of_In in Hk. cbn in Hk.
    repeat (destruct Hk as [<-|Hk]; [discriminate|]). destruct Hk.
  - intros h k v Hk [Hd Hp]. split; [|exact Hp].
    rewrite field_set_field_ne; [exact Hd|].
    apply list_elem_of_In in Hk. cbn in Hk.
    repeat (destruct Hk as [<-|Hk]; [discriminate|]). destruct Hk.
  - intros h k l _ [Hd Hp]. split; [exact Hd|]. cbn [add_past_race past_races].
    apply Forall_app. split; [exact Hp|].
    repeat constructor; apply parse_past_race_unassigned.
Qed.

(** X8: three fields are never filled in: [recent_form] of every entrant
    and [jockey] and [weight] of every past-race record attached to an
    entrant are the empty string, for every line sequence. *)
Theorem X8_fields_never_assigned (lines : list (list N)) :
  exists horses,
    extract_horses_data lines = Some horses /\ Forall never_assigned horses.
Proof.
  destruct (extract_horses_data_total lines) as (horses & E).
  exists horses. split; [exact E|].
  by apply (extract_horses_data_never_assigned lines).
Qed.

(** ** The fields of a training record *)

Lemma Forall_rev_nonspace (l : list N) :
  Forall (fun c => is_space c = false) l ->
  Forall (fun c => is_space c = false) (rev l).
Proof.
  rewrite !Forall_forall. intros H x Hx. apply H.
  apply list_elem_of_In. apply list_elem_of_In in Hx. by apply <- in_rev in Hx.
Qed.

Lemma rev_cons_not_nil (c : N) (l : list N) : rev (c :: l) <> [].
Proof.
  intros E. apply (f_equal (@length N)) in E.
  rewrite length_rev in E. discriminate E.
Qed.

(** The parts of [line.split()] are not empty and hold no whitespace. *)
Lemma split_ws_go_parts (s cur : list N) :
  Forall (fun c => is_space c = false) cur ->
  Forall (fun part => part <> [] /\ Forall (fun c => is_space c = false) part)
    (split_ws_go s cur).
Proof.
  revert cur. induction s as [|c s IH]; intros cur Hcur; cbn [split_ws_go].
  - destruct cur as [|d cur]; [constructor|]. repeat constructor.
    + apply rev_cons_not_nil.
    + by apply Forall_rev_nonspace.
  - destruct (is_space c) eqn:Ec.
    + destruct cur as [|d cur]; [apply IH; constructor|].
      constructor; [|apply IH; constructor]. split.
      * apply rev_cons_not_nil.
      * by apply Forall_rev_nonspace.
    + apply IH. by constructor.
Qed.

Lemma training_parts_keep (P : gmap string (list N) -> Prop)
  (parts : list (list N)) :
  (forall d part, part ∈ parts -> P d -> P (<["date" := part]> d)) ->
  (forall d part, part ∈ parts -> P d -> P (<["time" := part]> d)) ->
  forall d, P d -> P (fold_left training_part parts d).
Proof.
  induction parts as [|part parts IH]; intros Hdate Htime d Hd;
    cbn [fold_left]; [exact Hd|].
  apply IH.
  - intros d' p Hp. apply Hdate. apply elem_of_cons. by right.
  - intros d' p Hp. apply Htime. apply elem_of_cons. by right.
  - unfold training_part.
    destruct (matched (re_search slash_date_re part));
      [apply Hdate; [apply elem_of_cons; by left | exact Hd]|].
    destruct (matched (re_search decimal_re part));
      [apply Htime; [apply elem_of_cons; by left | exact Hd]|].
    exact Hd.
Qed.

Lemma unassigned_after_insert (k : string) (v : list N)
  (r : gmap string (list N)) :
  k ∉ training_unassigned ->
  Forall (fun key => r !! key = Some []) training_unassigned ->
  Forall (fun key => <[k := v]> r !! key = Some []) training_unassigned.
Proof.
  intros Hk. rewrite !Forall_forall. intros H key Hkey.
  rewrite lookup_insert_ne; [by apply H|]. intros ->. by apply Hk.
Qed.

(** The date and the time after the loop over the tokens: the last date
    token and the last time token, and what was there without one. *)
Lemma fold_training_part (parts : list (list N)) :
  forall d,
    fold_left training_part parts d !! "date"
    = match last (List.filter is_date_part parts) with
      | Some part => Some part
      | None => d !! "date"
      end
    /\ fold_left training_part parts d !! "time"
       = match last (List.filter is_time_part parts) with
         | Some part => Some part
         | None => d !! "time"
         end.
Proof.
  induction parts as [|part parts IH]; intros d;
    cbn [fold_left List.filter]; [by split|].
  destruct (IH (training_part d part)) as [-> ->]. clear IH.
  unfold training_part, is_date_part, is_time_part.
  destruct (matched (re_search slash_date_re part)); cbn [negb andb].
  - rewrite last_cons, lookup_insert_eq, lookup_insert_ne by discriminate.
    split; by destruct (last _).
  - destruct (matched (re_search decimal_re part)).
    + rewrite last_cons, lookup_insert_eq, lookup_insert_ne by discriminate.
      split; by destruct (last _).
    + by split.
Qed.

Lemma last_part_nonspace (p : list N -> bool) (line : list N) :
  Forall (fun c => is_space c = false) (last_part p line).
Proof.
  unfold last_part.
  destruct (last (List.filter p (split_ws line))) as [part|] eqn:E;
    [|constructor]. cbn [default].
  apply last_Some_elem_of, list_elem_of_In, filter_In in E as [Hin _].
  pose proof (split_ws_go_parts line [] (Forall_nil_2 _)) as Hparts.
  fold (split_ws line) in Hparts. rewrite Forall_forall in Hparts.
  by apply Hparts, list_elem_of_In.
Qed.

Lemma training_record_fields (line : list N) :
  training_record_ok line (training_record line).
Proof.
  repeat split.
  - unfold training_record.
    apply (training_parts_keep
             (fun d => dom d = list_to_set training_info_keys));
      [| |reflexivity];
      intros d part _ Hd; (apply dom_insert_present; [exact Hd | by vm_compute]).
  - unfold training_record.
    apply (training_parts_keep
             (fun d => Forall (fun key => d !! key = Some []) training_unassigned));
      [| |repeat constructor];
      intros d part _ Hd; (apply unassigned_after_insert; [key_not_in | exact Hd]).
  - unfold training_record, last_part.
    destruct (fold_training_part (split_ws line) training_info_init) as [-> _].
    by destruct (last _).
  - unfold training_record, last_part.
    destruct (fold_training_part (split_ws line) training_info_init) as [_ ->].
    by destruct (last _).
  - apply last_part_nonspace.
  - apply last_part_nonspace.
Qed.

(** X10: the training records are those of the lines that make one, line
    by line; each has exactly its seven keys; [horse_name], [course],
    [condition], [jockey] and [evaluation] are always the empty string;
    [date] is the last whitespace-separated token of its line that holds
    a date with slashes and [time] the last token that holds a decimal
    number and no such date, each the empty string when the line has no
    such token; so neither holds whitespace. *)
Theorem X10_training_record_fields (lines : list (list N)) :
  Forall2 training_record_ok
    (List.filter training_line (after_heading lines))
    (extract_training_data lines).
Proof.
  unfold extract_training_data. rewrite training_fold_inactive. cbn [app].
  induction (List.filter training_line (after_heading lines)) as [|line l IH];
    cbn [map]; constructor; [apply training_record_fields | exact IH].
Qed.

(** ** The first entrant *)

Lemma horses_loop_first (fuel : nat) (lines : list (list N)) :
  forall (i : nat) (acc : list horse),
    (length lines - i < fuel)%nat ->
    exists hs,
      horses_loop fuel lines i acc = Some (acc ++ hs)
      /\ match hs, List.find is_header (drop i lines) with
         | [], None => True
         | h :: _, Some line => horse_key h = header_key line
         | _, _ => False
         end.
Proof.
  induction fuel as [|fuel IH]; intros i acc Hfuel; [lia|].
  cbn [horses_loop].
  destruct (lines !! i) as [line|] eqn:El.
  - pose proof (lookup_lt_Some _ _ _ El) as Hlen.
    rewrite (drop_S _ _ _ El). cbn [List.find].
    assert (Hh : is_header line = matched (re_match frame_horse_re (strip line)))
      by reflexivity.
    destruct (re_match frame_horse_re (strip line)) as [m|] eqn:Em;
      cbn [matched] in Hh; rewrite Hh.
    + pose proof (positional_fields_cursor lines i
                    (horse_init (group 1 m) (group 2 m))) as [Hj _].
      assert (Hkey1 : horse_key (positional_fields lines i
                (horse_init (group 1 m) (group 2 m))).1 = (group 1 m, group 2 m)).
      { unfold horse_key. rewrite !field_positional_fields by key_not_in.
        apply horse_key_init. }
      destruct (positional_fields lines i _) as [h1 j]. cbn [fst snd] in *.
      destruct (scan_fields_spec (S (length lines)) lines j h1)
        as (k & h2 & E & Hk & _ & Hf); [lia|].
      rewrite E. cbn [mbind option_bind].
      destruct (horses_loop_spec fuel lines k (acc ++ [h2])) as (hs & Eh & _);
        [lia|].
      exists (h2 :: hs). split; [rewrite Eh; by rewrite <- app_assoc|].
      unfold header_key. rewrite Em. cbn [grp]. rewrite <- Hkey1. unfold horse_key.
      by rewrite !Hf by key_not_in.
    + apply IH. lia.
  - exists []. split; [by rewrite app_nil_r|].
    apply lookup_ge_None in El. by rewrite drop_ge.
Qed.

(** X11: the entrant list is empty exactly when no line is a header line;
    otherwise its first entry is the entrant of the first header line,
    with the two integers of that line.  This holds for every line
    sequence, also when later header lines are read as fields. *)
Theorem X11_first_header_gives_first_entrant (lines : list (list N)) :
  exists horses,
    extract_horses_data lines = Some horses
    /\ match horses, List.find is_header lines with
       | [], None => True
       | h :: _, Some line => horse_key h = header_key line
       | _, _ => False
       end.
Proof.
  destruct (horses_loop_first (S (length lines)) lines 0 []) as (hs & E & H);
    [lia|].
  exists hs. split; [exact E | exact H].
Qed.

(** ** Captured groups *)

Section GroupFree.

Variable a : regex.
Hypothesis body_keeps : forall st k x,
  rmatch a st k = Some x ->
  exists st', Matches a (pos st, rest st) (pos st', rest st')
              /\ caps st' = caps st /\ k st' = Some x.

Lemma star_loop_keeps_caps (k : mstate -> option mstate) (n : nat) :
  forall st x,
    star_loop (rmatch a) k n st = Some x ->
    exists st', Matches (Star a) (pos st, rest st) (pos st', rest st')
                /\ caps st' = caps st /\ k st' = Some x.
Proof.
  induction n as [|n IH]; intros st x; cbn [star_loop].
  - intros Hk. exists st. repeat split; [constructor | exact Hk].
  - destruct (rmatch a st _) as [y|] eqn:E.
    + intros [= ->]. apply body_keeps in E as (st1 & Ha & Hc1 & Hk1).
      destruct (_ <? _)%nat; [|discriminate].
      apply IH in Hk1 as (st2 & Hs & Hc2 & Hk2).
      exists st2. repeat split;
        [eapply M_star_more; eassumption | congruence | exact Hk2].
    + intros Hk. exists st. repeat split; [constructor | exact Hk].
Qed.

Lemma lazy_loop_keeps_caps (k : mstate -> option mstate) (n : nat) :
  forall st x,
    lazy_loop (rmatch a) k n st = Some x ->
    exists st', Matches (LazyStar a) (pos st, rest st) (pos st', rest st')
                /\ caps st' = caps st /\ k st' = Some x.
Proof.
  induction n as [|n IH]; intros st x; cbn [lazy_loop].
  - intros Hk. exists st. repeat split; [constructor | exact Hk].
  - destruct (k st) as [y|] eqn:E.
    + intros [= ->]. exists st. repeat split; [constructor | exact E].
    + intros Hb. apply body_keeps in Hb as (st1 & Ha & Hc1 & Hk1).
      destruct (_ <? _)%nat; [|discriminate].
      apply IH in Hk1 as (st2 & Hs & Hc2 & Hk2).
      exists st2. repeat split;
        [eapply M_lazy_more; eassumption | congruence | exact Hk2].
Qed.

End GroupFree.

(** A pattern without groups leaves the captured groups as they are. *)
Lemma rmatch_keeps_caps (r : regex) :
  no_groups r = true ->
  forall st k x,
    rmatch r st k = Some x ->
    exists st', Matches r (pos st, rest st) (pos st', rest st')
                /\ caps st' = caps st /\ k st' = Some x.
Proof.
  induction r as [|f|a IHa b IHb|a IHa b IHb|a IHa|a IHa|n a IHa| |];
    cbn [no_groups]; intros Hng st k x; cbn [rmatch].
  - intros Hk. exists st. repeat split; [constructor | exact Hk].
  - destruct st as [i [|c t] cs]; cbn [rest]; [discriminate|].
    destruct (f c) eqn:Ef; [|discriminate].
    intros Hk. exists (adv (MState i (c :: t) cs) t).
    repeat split; [by constructor | exact Hk].
  - apply andb_true_iff in Hng as [Ha Hb].
    intros H. apply (IHa Ha) in H as (st1 & M1 & C1 & H).
    apply (IHb Hb) in H as (st2 & M2 & C2 & H).
    exists st2. repeat split; [eapply M_seq; eassumption | congruence | exact H].
  - apply andb_true_iff in Hng as [Ha Hb].
    destruct (rmatch a st k) as [y|] eqn:E.
    + intros [= ->]. apply (IHa Ha) in E as (st1 & M1 & C1 & H).
      exists st1. repeat split; [by apply M_alt_l | exact C1 | exact H].
    + intros H. apply (IHb Hb) in H as (st1 & M1 & C1 & H).
      exists st1. repeat split; [by apply M_alt_r | exact C1 | exact H].
  - apply star_loop_keeps_caps, IHa, Hng.
  - apply lazy_loop_keeps_caps, IHa, Hng.
  - discriminate Hng.
  - destruct st as [[|i] s cs]; cbn [pos]; [|discriminate].
    intros Hk. exists (MState O s cs). repeat split; [constructor | exact Hk].
  - destruct (at_eol (rest st)) eqn:E; [|discriminate].
    intros Hk. exists st. repeat split; [by constructor | exact Hk].
Qed.

(** One or more characters of a class. *)
Lemma Matches_plus_chr (p : N -> bool) (i j : nat) (s s' : list N) :
  Matches (Plus (Chr p)) (i, s) (j, s') ->
  exists w, w <> [] /\ s = w ++ s' /\ j = (i + length w)%nat
            /\ Forall (fun c => p c = true) w.
Proof.
  unfold Plus. intros H. inversion H as [| |a b p0 q r0 H1 H2| | | | | | | | |]; subst.
  inversion H1; subst.
  apply Matches_prefix in H2 as (w & Ew & Lw & Fw). cbn [fst snd alphabet] in *.
  exists (c :: w). repeat split; [done | by rewrite Ew | cbn; lia | by constructor].
Qed.

Lemma Matches_star_chr (p : N -> bool) (i j : nat) (s s' : list N) :
  Matches (Star (Chr p)) (i, s) (j, s') ->
  exists w, s = w ++ s' /\ j = (i + length w)%nat
            /\ Forall (fun c => p c = true) w.
Proof. intros H. apply Matches_prefix in H. exact H. Qed.

Lemma is_digit_not_space (c : N) : is_digit c = true -> is_space c = false.
Proof.
  unfold is_digit, is_space, in_range.
  rewrite !orb_false_iff, !andb_false_iff, !N.leb_gt, !N.eqb_neq.
  rewrite orb_true_iff, existsb_exists.
  intros [(lo & Hin & Hr) | Hr];
    apply andb_true_iff in Hr as [H1%N.leb_le H2%N.leb_le]; [|lia].
  cbn [nd_runs In] in Hin.
  repeat (destruct Hin as [<- | Hin]; [lia|]). destruct Hin.
Qed.

Lemma last_app_r (l1 l2 : list N) (c : N) :
  last l2 = Some c -> last (l1 ++ l2) = Some c.
Proof. intros H. by rewrite last_app, H. Qed.

Lemma rmatch_bol (st : mstate) (k : mstate -> option mstate) :
  rmatch Bol st k = if (pos st =? 0)%nat then k st else None.
Proof. reflexivity. Qed.

Lemma rmatch_eol (st : mstate) (k : mstate -> option mstate) :
  rmatch Eol st k = if at_eol (rest st) then k st else None.
Proof. reflexivity. Qed.

(** The shape of a header line: what [re.match] captures is all of the
    stripped line but the whitespace between the two integers. *)
Lemma header_shape (line : list N) (m : mstate) :
  re_match frame_horse_re (strip line) = Some m ->
  exists sp,
    strip line = group 1 m ++ sp ++ group 2 m
    /\ group 1 m <> [] /\ group 2 m <> [] /\ sp <> []
    /\ Forall (fun c => is_digit c = true) (group 1 m)
    /\ Forall (fun c => is_digit c = true) (group 2 m)
    /\ Forall (fun c => is_space c = true) sp.
Proof.
  unfold re_match, match_at. rewrite rmatch_group.
  unfold frame_horse_re, seqs. rewrite rmatch_seq.
  rewrite rmatch_bol. cbn [pos Nat.eqb]. rewrite rmatch_seq, rmatch_group.
  intros H. apply (rmatch_keeps_caps (Plus D) eq_refl) in H as (st1 & M1 & C1 & H).
  rewrite rmatch_seq in H.
  apply (rmatch_keeps_caps (Plus Sp) eq_refl) in H as (st2 & M2 & C2 & H).
  rewrite rmatch_seq, rmatch_group in H.
  apply (rmatch_keeps_caps (Plus D) eq_refl) in H as (st3 & M3 & C3 & H).
  rewrite rmatch_seq in H.
  apply (rmatch_keeps_caps (Star Sp) eq_refl) in H as (st4 & M4 & C4 & H).
  rewrite rmatch_eol in H. destruct (at_eol (rest st4)) eqn:Eol4; [|discriminate].
  injection H as <-.
  cbn [pos rest caps set_cap] in *.
  apply Matches_plus_chr in M1 as (w1 & N1 & E1 & L1 & F1).
  apply Matches_plus_chr in M2 as (w2 & N2 & E2 & L2 & F2).
  apply Matches_plus_chr in M3 as (w3 & N3 & E3 & L3 & F3).
  apply Matches_star_chr in M4 as (w4 & E4 & L4 & F4).
  assert (G1 : take (pos st1 - 0) (strip line) = w1).
  { rewrite E1. apply take_app_length'. lia. }
  assert (G2 : take (pos st3 - pos st2) (rest st2) = w3).
  { rewrite E3. apply take_app_length'. lia. }
  unfold group, set_cap. cbn [caps assoc_cap Nat.eqb].
  rewrite C4, C3, C2. cbn [assoc_cap Nat.eqb]. rewrite G1, G2.
  assert (Htail : w4 ++ rest st4 = []).
  { destruct (last (w4 ++ rest st4)) as [c|] eqn:El; [|by apply last_None].
    exfalso.
    assert (Hsp : is_space c = true).
    { rewrite last_app in El. destruct (rest st4) as [|d [|? ?]]; cbn in Eol4;
        try discriminate.
      - cbn in El. apply last_Some_elem_of in El.
        rewrite Forall_forall in F4. by apply F4.
      - cbn in El. injection El as <-. apply N.eqb_eq in Eol4 as ->. reflexivity. }
    assert (Hl : last (strip line) = Some c).
    { rewrite E1, E2, E3, E4. by do 3 apply last_app_r. }
    apply strip_last in Hl. congruence. }
  exists w2. rewrite E1, E2, E3, E4, Htail, app_nil_r. by repeat split.
Qed.

(** X12: a header line consists, when stripped, of its two integers with
    whitespace between them and nothing else: the captured frame and horse
    numbers are non-empty runs of decimal digits and, with the whitespace
    that separates them, make up the whole stripped line. *)
Theorem X12_header_line_shape (line : list N) :
  is_header line = true ->
  exists sp,
    strip line = (header_key line).1 ++ sp ++ (header_key line).2
    /\ (header_key line).1 <> [] /\ (header_key line).2 <> [] /\ sp <> []
    /\ Forall (fun c => is_digit c = true) (header_key line).1
    /\ Forall (fun c => is_digit c = true) (header_key line).2
    /\ Forall (fun c => is_space c = true) sp.
Proof.
  unfold is_header, header_key.
  destruct (re_match frame_horse_re (strip line)) as [m|] eqn:E; [|discriminate].
  intros _. cbn [grp fst snd]. by apply header_shape.
Qed.

Lemma X12_header_example :
  is_header (u " 3   12 ") = true
  /\ exists sp,
       strip (u " 3   12 ")
       = (header_key (u " 3   12 ")).1 ++ sp ++ (header_key (u " 3   12 ")).2
       /\ (header_key (u " 3   12 ")).1 <> []
       /\ (header_key (u " 3   12 ")).2 <> [] /\ sp <> []
       /\ Forall (fun c => is_digit c = true) (header_key (u " 3   12 ")).1
       /\ Forall (fun c => is_digit c = true) (header_key (u " 3   12 ")).2
       /\ Forall (fun c => is_space c = true) sp.
Proof.
  split; [vm_compute; reflexivity|].
  apply (X12_header_line_shape (u " 3   12 ")). vm_compute. reflexivity.
Defined.

(** ** Groups do not change whether a pattern is found *)

Lemma matched_first (o1 o1' o2 o2' : option mstate) :
  matched o1 = matched o1' -> matched o2 = matched o2' ->
  matched (match o1 with Some x => Some x | None => o2 end)
  = matched (match o1' with Some x => Some x | None => o2' end).
Proof. destruct o1, o1'; cbn; congruence. Qed.

Section EraseLoops.

Variable a a' : regex.
Hypothesis body_same : forall st st' k k',
  same_text st st' ->
  (forall s s', same_text s s' -> matched (k s) = matched (k' s')) ->
  matched (rmatch a st k) = matched (rmatch a' st' k').

Lemma star_loop_same (k k' : mstate -> option mstate) (n : nat) :
  (forall s s', same_text s s' -> matched (k s) = matched (k' s')) ->
  forall st st', same_text st st' ->
    matched (star_loop (rmatch a) k n st)
    = matched (star_loop (rmatch a') k' n st').
Proof.
  intros Hk. induction n as [|n IH]; intros st st' Hst; cbn [star_loop].
  - by apply Hk.
  - apply matched_first; [|by apply Hk].
    apply body_same; [exact Hst|].
    intros s s' Hs. destruct Hst as [_ Hr], Hs as [Hp Hr'].
    rewrite Hr, Hr'. destruct (_ <? _)%nat; [|reflexivity].
    apply IH. by split.
Qed.

Lemma lazy_loop_same (k k' : mstate -> option mstate) (n : nat) :
  (forall s s', same_text s s' -> matched (k s) = matched (k' s')) ->
  forall st st', same_text st st' ->
    matched (lazy_loop (rmatch a) k n st)
    = matched (lazy_loop (rmatch a') k' n st').
Proof.
  intros Hk. induction n as [|n IH]; intros st st' Hst; cbn [lazy_loop].
  - by apply Hk.
  - apply matched_first; [by apply Hk|].
    apply body_same; [exact Hst|].
    intros s s' Hs. destruct Hst as [_ Hr], Hs as [Hp Hr'].
    rewrite Hr, Hr'. destruct (_ <? _)%nat; [|reflexivity].
    apply IH. by split.
Qed.

End EraseLoops.

Lemma rmatch_erase (r : regex) :
  forall st st' k k',
    same_text st st' ->
    (forall s s', same_text s s' -> matched (k s) = matched (k' s')) ->
    matched (rmatch r st k) = matched (rmatch (erase_groups r) st' k').
Proof.
  induction r as [|f|a IHa b IHb|a IHa b IHb|a IHa|a IHa|n a IHa| |];
    intros st st' k k' Hst Hk; cbn [rmatch erase_groups].
  - by apply Hk.
  - destruct Hst as [Hp Hr]. rewrite <- Hr.
    destruct (rest st) as [|c t] eqn:E; [reflexivity|].
    destruct (f c); [|reflexivity]. apply Hk. split; cbn; congruence.
  - apply IHa; [exact Hst|]. intros s s' Hs. by apply IHb.
  - apply matched_first; [by apply IHa | by apply IHb].
  - destruct Hst as [Hp Hr]. rewrite <- Hr.
    apply star_loop_same; [exact IHa | exact Hk | by split].
  - destruct Hst as [Hp Hr]. rewrite <- Hr.
    apply lazy_loop_same; [exact IHa | exact Hk | by split].
  - apply IHa; [exact Hst|]. intros s s' [Hp Hr]. apply Hk. by split.
  - destruct Hst as [Hp Hr]. rewrite <- Hp.
    destruct (pos st =? 0)%nat; [|reflexivity]. apply Hk. by split.
  - destruct Hst as [Hp Hr]. rewrite <- Hr.
    destruct (at_eol (rest st)); [|reflexivity]. apply Hk. by split.
Qed.

Lemma match_at_erase (r r' : regex) (i : nat) (s : list N) :
  erase_groups r = erase_groups r' ->
  matched (match_at r i s) = matched (match_at r' i s).
Proof.
  intros E. unfold match_at.
  rewrite (rmatch_erase (Group 0 r) _ (MState i s []) Some Some);
    [|by split|by intros ? ? _].
  rewrite (rmatch_erase (Group 0 r') _ (MState i s []) Some Some);
    [|by split|by intros ? ? _].
  cbn [erase_groups]. by rewrite E.
Qed.

(** Whether [re.search] finds a pattern does not depend on its groups. *)
Lemma search_erase (r r' : regex) (s : list N) :
  erase_groups r = erase_groups r' ->
  matched (re_search r s) = matched (re_search r' s).
Proof.
  intros E. unfold re_search. generalize O.
  induction s as [|c s IH]; intros i; cbn [search_from].
  - apply matched_first; [by apply match_at_erase | reflexivity].
  - apply matched_first; [by apply match_at_erase | apply IH].
Qed.

(** ** The date of a past race *)

Lemma search_from_found (r : regex) (s : list N) :
  forall i m,
    search_from r i s = Some m ->
    exists pre s', s = pre ++ s' /\ match_at r (i + length pre) s' = Some m.
Proof.
  induction s as [|c s IH]; intros i m; cbn [search_from].
  - destruct (match_at r i []) as [x|] eqn:E; [|discriminate].
    intros [= <-]. exists [], []. split; [reflexivity|].
    cbn [length]. by rewrite Nat.add_0_r.
  - destruct (match_at r i (c :: s)) as [x|] eqn:E.
    + intros [= <-]. exists [], (c :: s). split; [reflexivity|].
      cbn [length]. by rewrite Nat.add_0_r.
    + intros (pre & s' & -> & H)%IH. exists (c :: pre), s'.
      split; [reflexivity|]. cbn [length].
      by replace (i + S (length pre))%nat with (S i + length pre)%nat by lia.
Qed.

Lemma Matches_chr_inv (p : N -> bool) (i j : nat) (s s' : list N) :
  Matches (Chr p) (i, s) (j, s') ->
  exists c, s = c :: s' /\ j = S i /\ p c = true.
Proof. intros H. inversion H; subst. by eexists. Qed.

Lemma Matches_seq_inv (a b : regex) (p r : nat * list N) :
  Matches (Seq a b) p r -> exists q, Matches a p q /\ Matches b q r.
Proof. intros H. inversion H; subst. by eexists. Qed.

Lemma Matches_two_digits (i j : nat) (s s' : list N) :
  Matches (rep 2 D) (i, s) (j, s') ->
  exists w, s = w ++ s' /\ length w = 2%nat /\ j = (i + 2)%nat
            /\ Forall (fun c => is_digit c = true) w.
Proof.
  cbn [rep]. intros ([i1 s1] & H1 & H2)%Matches_seq_inv.
  apply Matches_chr_inv in H1 as (c1 & -> & -> & D1).
  apply Matches_chr_inv in H2 as (c2 & -> & -> & D2).
  exists [c1; c2]. repeat split; [lia | by repeat constructor].
Qed.

Lemma Matches_four_digits (i j : nat) (s s' : list N) :
  Matches (rep 4 D) (i, s) (j, s') ->
  exists w, s = w ++ s' /\ length w = 4%nat /\ j = (i + 4)%nat
            /\ Forall (fun c => is_digit c = true) w.
Proof.
  cbn [rep]. intros ([i1 s1] & H1 & ([i2 s2] & H2 & ([i3 s3] & H3 & H4)
                       %Matches_seq_inv)%Matches_seq_inv)%Matches_seq_inv.
  apply Matches_chr_inv in H1 as (c1 & -> & -> & D1).
  apply Matches_chr_inv in H2 as (c2 & -> & -> & D2).
  apply Matches_chr_inv in H3 as (c3 & -> & -> & D3).
  apply Matches_chr_inv in H4 as (c4 & -> & -> & D4).
  exists [c1; c2; c3; c4]. repeat split; [lia | by repeat constructor].
Qed.

Lemma date_match_shape (i : nat) (s : list N) (m : mstate) :
  match_at date_re i s = Some m ->
  exists post,
    s = group 1 m ++ u "." ++ group 2 m ++ u "." ++ group 3 m ++ post
    /\ length (group 1 m) = 4%nat /\ length (group 2 m) = 2%nat
    /\ length (group 3 m) = 2%nat
    /\ Forall (fun c => is_digit c = true)
         (group 1 m ++ group 2 m ++ group 3 m).
Proof.
  unfold match_at. rewrite rmatch_group.
  unfold date_re, seqs. rewrite rmatch_seq, rmatch_group.
  intros H. apply (rmatch_keeps_caps (rep 4 D) eq_refl) in H as (st1 & M1 & C1 & H).
  rewrite rmatch_seq in H.
  apply (rmatch_keeps_caps (C ".") eq_refl) in H as (st2 & M2 & C2 & H).
  rewrite rmatch_seq, rmatch_group in H.
  apply (rmatch_keeps_caps (rep 2 D) eq_refl) in H as (st3 & M3 & C3 & H).
  rewrite rmatch_seq in H.
  apply (rmatch_keeps_caps (C ".") eq_refl) in H as (st4 & M4 & C4 & H).
  rewrite rmatch_group in H.
  apply (rmatch_keeps_caps (rep 2 D) eq_refl) in H as (st5 & M5 & C5 & H).
  injection H as <-.
  cbn [pos rest caps set_cap] in *.
  apply Matches_four_digits in M1 as (w1 & E1 & L1 & P1 & F1).
  apply Matches_chr_inv in M2 as (c2 & E2 & P2 & D2).
  apply Matches_two_digits in M3 as (w3 & E3 & L3 & P3 & F3).
  apply Matches_chr_inv in M4 as (c4 & E4 & P4 & D4).
  apply Matches_two_digits in M5 as (w5 & E5 & L5 & P5 & F5).
  apply N.eqb_eq in D2, D4. subst c2 c4.
  assert (G1 : take (pos st1 - i) s = w1).
  { rewrite E1. apply take_app_length'. lia. }
  assert (G2 : take (pos st3 - pos st2) (rest st2) = w3).
  { rewrite E3. apply take_app_length'. lia. }
  assert (G3 : take (pos st5 - pos st4) (rest st4) = w5).
  { rewrite E5. apply take_app_length'. lia. }
  unfold group, set_cap. cbn [caps assoc_cap Nat.eqb].
  rewrite C5. cbn [assoc_cap Nat.eqb]. rewrite C4, C3. cbn [assoc_cap Nat.eqb].
  rewrite C2. cbn [assoc_cap Nat.eqb]. rewrite G1, G2, G3.
  exists (rest st5). repeat split; try assumption.
  - rewrite E1, E2, E3, E4, E5. reflexivity.
  - by rewrite !Forall_app.
Qed.

Lemma parse_past_race_date (race_line : list N) (context_lines : list (list N)) :
  parse_past_race race_line context_lines !! "date"
  = past_date race_line race_result_init !! "date".
Proof.
  rewrite parse_past_race_stages.
  apply (past_tail_closed
           (fun d => d !! "date" = past_date race_line race_result_init !! "date")).
  { intros d k v Hk Hd. rewrite <- Hd.
    apply list_elem_of_In in Hk. cbn in Hk.
    repeat (destruct Hk as [<-|Hk]; [by rewrite lookup_insert_ne by discriminate|]).
    destruct Hk. }
  apply resolve_venue_closed; [|reflexivity].
  intros d v _ Hd. by rewrite lookup_insert_ne by discriminate.
Qed.

Lemma past_race_date_shape (race_line : list N) (context_lines : list (list N)) :
  exists date,
    parse_past_race race_line context_lines !! "date" = Some date
    /\ ((date = [] /\ matched (re_search date_re race_line) = false)
        \/ exists pre y m d post,
             race_line = pre ++ y ++ u "." ++ m ++ u "." ++ d ++ post
             /\ slash_date date y m d).
Proof.
  rewrite parse_past_race_date. unfold past_date. cbv zeta.
  destruct (re_search date_re race_line) as [mt|] eqn:E; cbn [matched grp].
  - eexists. split; [apply lookup_insert_eq|]. right.
    apply search_from_found in E as (pre & s' & -> & Hm).
    apply date_match_shape in Hm as (post & Es & L1 & L2 & L3 & F).
    exists pre, (group 1 mt), (group 2 mt), (group 3 mt), post.
    split; [by rewrite Es at 1|]. by repeat split.
  - exists []. split; [reflexivity|]. by left.
Qed.

(** X13: the date of a past-race record is a date found in the
    trigger line, its three digit groups of four, two and two decimal
    digits joined by slashes instead of points; it is the empty string
    exactly when the trigger line holds no such date. *)
Theorem X13_past_race_date (race_line : list N) (context_lines : list (list N)) :
  exists date,
    parse_past_race race_line context_lines !! "date" = Some date
    /\ ((date = [] /\ matched (re_search date_re race_line) = false)
        \/ exists pre y m d post,
             race_line = pre ++ y ++ u "." ++ m ++ u "." ++ d ++ post
             /\ slash_date date y m d).
Proof. apply past_race_date_shape. Qed.

(** X14: every past-race record attached to an entrant has a date, of the
    form of four, two and two decimal digits joined by slashes: a record
    is only made of a line that holds a date. *)
Theorem X14_attached_past_races_are_dated (lines : list (list N)) :
  exists horses,
    extract_horses_data lines = Some horses
    /\ Forall (fun h =>
         Forall (fun r => exists date y m d,
                   r !! "date" = Some date /\ slash_date date y m d)
           (past_races h))
       horses.
Proof.
  destruct (extract_horses_data_total lines) as (horses & E).
  exists horses. split; [exact E|].
  apply (extract_horses_data_keeps lines
           (fun h => Forall (fun r => exists date y m d,
                               r !! "date" = Some date /\ slash_date date y m d)
                       (past_races h))); [| | | |exact E].
  - intros a b. constructor.
  - intros h k v _ Hp. exact Hp.
  - intros h k v _ Hp. exact Hp.
  - intros h k l Hm Hp. cbn [add_past_race past_races].
    apply Forall_app. split; [exact Hp|]. repeat constructor.
    destruct (past_race_date_shape l (take 8 (drop k lines)))
      as (date & Ed & [[_ Hno] | (pre & y & m & d & post & _ & Hs)]).
    + rewrite (search_erase date_re past_date_re l eq_refl) in Hno. congruence.
    + by exists date, y, m, d.
Qed.

(** ** The jockey *)

Lemma jockey_ok_same (lines : list (list N)) (h h' : horse) :
  field "jockey" h' = field "jockey" h -> jockey_ok lines h -> jockey_ok lines h'.
Proof. unfold jockey_ok. intros ->. auto. Qed.

Lemma jockey_lookahead_ok (lines : list (list N)) (k : nat) (l : list N)
  (h : horse) :
  lines !! k = Some l ->
  matched (re_search age_sex_re (strip l)) = true ->
  jockey_ok lines h ->
  jockey_ok lines (jockey_lookahead lines k h).
Proof.
  intros El Hage Hh. unfold jockey_lookahead, nonblank_at.
  destruct (lines !! (k + 1)%nat) as [l1|] eqn:E1; [|exact Hh].
  destruct (truthy (strip l1)) eqn:T1; [|exact Hh].
  destruct (lines !! (k + 2)%nat) as [l2|] eqn:E2; [|exact Hh].
  destruct (matched (re_search load_weight_re (strip l2))) eqn:M2; [|exact Hh].
  right. exists k, l, l1, l2. repeat split; try assumption.
  - apply field_set_field_eq.
  - intros E. rewrite E in T1. discriminate T1.
Qed.

Lemma scan_line_jockey (lines : list (list N)) (k : nat) (l : list N)
  (h : horse) :
  lines !! k = Some l ->
  jockey_ok lines h -> jockey_ok lines (scan_line lines k (strip l) h).
Proof.
  intros El Hh. unfold scan_line.
  destruct (negb (truthy (strip l))); [exact Hh|]. cbv zeta.
  destruct (_ && _).
  { eapply jockey_ok_same; [|exact Hh]. by rewrite field_set_field_ne. }
  destruct (_ && _).
  { eapply jockey_ok_same; [|exact Hh]. by rewrite !field_set_field_ne. }
  destruct (matched (re_search age_sex_re (strip l))) eqn:Hage; cbn [andb].
  - destruct (negb _).
    + apply (jockey_lookahead_ok lines k l); [exact El | exact Hage|].
      eapply jockey_ok_same; [|exact Hh]. by rewrite !field_set_field_ne.
    + destruct (_ && _).
      { eapply jockey_ok_same; [|exact Hh]. by rewrite field_set_field_ne. }
      repeat match goal with |- context [if ?b then _ else _] => destruct b end;
        exact Hh.
  - destruct (_ && _).
    { eapply jockey_ok_same; [|exact Hh]. by rewrite field_set_field_ne. }
    repeat match goal with |- context [if ?b then _ else _] => destruct b end;
      exact Hh.
Qed.

(** X15: the jockey of an entrant is only ever taken from the line after
    a line of sex, age and coat colour, and only when the line after that
    is a bare decimal number; otherwise it stays empty. *)
Theorem X15_jockey_needs_load_weight_line (lines : list (list N)) :
  exists horses,
    extract_horses_data lines = Some horses
    /\ Forall (jockey_ok lines) horses.
Proof.
  destruct (extract_horses_data_total lines) as (horses & E).
  exists horses. split; [exact E|].
  apply (extract_horses_data_invariant lines (jockey_ok lines)); [| | |exact E].
  - intros a b. by left.
  - intros i h. apply jockey_ok_same.
    apply field_positional_fields. key_not_in.
  - intros k l h. apply scan_line_jockey.
Qed.

Example jockey_sample :
  option_map (map (fun h => (field "jockey" h, field "age" h, field "load_weight" h)))
    (extract_horses_data
       [u "1 1"; u "Sire"; u "Horse"; u "Dam"; u "(DamSire)"; u "牡4栗";
        u "Rider"; u "58.0"; u "2 2"; u "Sire"; u "Horse"; u "Dam";
        u "(DamSire)"; u "牝3鹿"; u "Rider2"; u "480kg(+2)"])
  = Some [(u "Rider", u "4歳", u "58.0kg"); ([], u "3歳", [])].
Proof. vm_compute. reflexivity. Qed.

(** ** The rows of the exports *)

Lemma subscript_present (d : gmap string (list N)) (K : gset string)
  (key : string) :
  dom d = K -> key ∈ K -> subscript d key = Ret (get_or_empty d key).
Proof.
  intros Hd Hk. rewrite <- Hd in Hk. apply elem_of_dom in Hk as [v Hv].
  unfold subscript, get_or_empty. by rewrite Hv.
Qed.

Lemma rebuild_lookup_in (keys : list string) (d : gmap string (list N))
  (k : string) :
  k ∈ keys -> rebuild keys d !! k = Some (get_or_empty d k).
Proof.
  unfold rebuild. induction keys as [|k0 keys IH]; cbn [map]; intros Hin.
  - by apply elem_of_nil in Hin.
  - rewrite list_to_map_cons. destruct (decide (k0 = k)) as [->|Hne].
    + apply lookup_insert_eq.
    + rewrite lookup_insert_ne by exact Hne. apply IH.
      apply elem_of_cons in Hin as [->|Hin]; [by destruct Hne | exact Hin].
Qed.

Lemma rebuild_lookup_out (keys : list string) (d : gmap string (list N))
  (k : string) :
  k ∉ keys -> rebuild keys d !! k = None.
Proof.
  unfold rebuild. induction keys as [|k0 keys IH]; cbn [map]; intros Hout.
  - by rewrite list_to_map_nil, lookup_empty.
  - apply not_elem_of_cons in Hout as [Hne Hout].
    rewrite list_to_map_cons, lookup_insert_ne by congruence. by apply IH.
Qed.

(** Rebuilding a dictionary from exactly its keys gives it back. *)
Lemma rebuild_same (keys : list string) (d : gmap string (list N)) :
  dom d = list_to_set keys -> rebuild keys d = d.
Proof.
  intros Hd. apply map_eq. intros k.
  destruct (decide (k ∈ keys)) as [Hin|Hnin].
  - rewrite rebuild_lookup_in by exact Hin.
    assert (Hk : k ∈ dom d) by (rewrite Hd; by apply elem_of_list_to_set).
    apply elem_of_dom in Hk as [v Hv]. unfold get_or_empty. by rewrite Hv.
  - rewrite rebuild_lookup_out by exact Hnin.
    symmetry. apply not_elem_of_dom. rewrite Hd.
    by rewrite elem_of_list_to_set.
Qed.

Lemma ai_horse_same (h : horse) : horse_keyed h -> ai_horse h = h.
Proof.
  intros [Hd Hp]. unfold ai_horse. destruct h as [f p]. cbn [fields past_races] in *.
  f_equal; [by apply rebuild_same|].
  induction Hp as [|r p Hr _ IH]; cbn [map]; [reflexivity|].
  by rewrite rebuild_same, IH.
Qed.

(** X16: the structure built for the JSON export is the parsed structure
    itself: after a call of [parse_keiba_data] the race information, every
    entrant with each of its seventeen fields and each of its past-race
    records, and the training records are handed to [json.dumps] as they
    were parsed; no default of a [get] is ever used. *)
Theorem X16_json_structure_is_parsed_structure (self : organizer) (text : list N) :
  exists self' result,
    parse_keiba_data self text = Some (self', result)
    /\ create_ai_data self'
       = AiData (parsed_race_info result) (parsed_horses_data result)
           (parsed_training_data result).
Proof.
  unfold parse_keiba_data.
  destruct (extract_horses_data_total
              (filter_training_section (normalize_lines text))) as (hs & E).
  rewrite E. cbn [mbind option_bind race_info horses_data training_data].
  eexists _, _. split; [reflexivity|].
  unfold create_ai_data.
  cbn [race_info horses_data training_data parsed_race_info parsed_horses_data
       parsed_training_data].
  f_equal.
  pose proof (extract_horses_data_keyed _ _ E) as Hk. clear E.
  induction Hk as [|h hs' Hh _ IH]; cbn [map]; [reflexivity|].
  by rewrite ai_horse_same, IH.
Qed.

Lemma py_map_ok {A B : Type} (f : A -> py B) (P : A -> Prop)
  (Q : A -> B -> Prop) (l : list A) :
  (forall x, P x -> exists y, f x = Ret y /\ Q x y) ->
  Forall P l ->
  exists ys, py_map f l = Ret ys /\ Forall2 Q l ys.
Proof.
  intros Hf. induction 1 as [|x l Hx _ (ys & E & HQ)]; cbn [py_map].
  - by exists [].
  - destruct (Hf x Hx) as (y & Ey & Hy). rewrite Ey, E.
    exists (y :: ys). split; [reflexivity | by constructor].
Qed.

Lemma result_row_returns (h : horse) (r : gmap string (list N)) :
  dom (fields h) = list_to_set horse_keys ->
  dom r = list_to_set race_result_keys ->
  r !! "jockey" = Some [] -> r !! "weight" = Some [] ->
  exists row, result_row h r = Ret row /\ result_row_ok row.
Proof.
  intros Hh Hr Hj Hw. unfold result_row.
  rewrite !(subscript_present _ _ _ Hh) by (by vm_compute).
  rewrite !(subscript_present _ _ _ Hr) by (by vm_compute).
  eexists. split; [reflexivity|].
  unfold get_or_empty. rewrite Hj, Hw. cbn [default].
  split; [reflexivity|]. split; reflexivity.
Qed.

Lemma parse_keiba_data_state (self : organizer) (text : list N) :
  exists horses,
    extract_horses_data (filter_training_section (normalize_lines text))
    = Some horses
    /\ parse_keiba_data self text
       = Some (Organizer
                 (extract_race_info (filter_training_section (normalize_lines text)))
                 horses (extract_training_data (normalize_lines text)),
               Parsed
                 (extract_race_info (filter_training_section (normalize_lines text)))
                 horses (extract_training_data (normalize_lines text))).
Proof.
  destruct (extract_horses_data_total
              (filter_training_section (normalize_lines text))) as (hs & E).
  exists hs. split; [exact E|]. unfold parse_keiba_data. by rewrite E.
Qed.

(** X17: after a call of [parse_keiba_data] the detailed export raises no
    [KeyError]: it has one row per past-race record of every entrant, each
    with the thirteen keys of the row, and the [jockey] and [weight] of
    every row are empty; it returns [None] only when there is no row. *)
Theorem X17_detailed_export_rows (self : organizer) (text : list N) :
  exists self' result rows,
    parse_keiba_data self text = Some (self', result)
    /\ detailed_results_rows self'
       = Ret (match rows with [] => None | _ :: _ => Some rows end)
    /\ length rows
       = sum_list (map (fun h => length (past_races h)) (parsed_horses_data result))
    /\ Forall result_row_ok rows.
Proof.
  destruct (parse_keiba_data_state self text) as (horses & E & ->).
  pose proof (extract_horses_data_keyed _ _ E) as Hk.
  pose proof (extract_horses_data_never_assigned _ _ E) as Hn.
  clear E.
  assert (H : exists per_horse,
             py_map (fun h => py_map (result_row h) (past_races h)) horses
             = Ret per_horse
             /\ length (concat per_horse)
                = sum_list (map (fun h => length (past_races h)) horses)
             /\ Forall result_row_ok (concat per_horse)).
  { induction horses as [|h horses IH]; cbn [py_map].
    - exists []. repeat split. constructor.
    - apply Forall_cons in Hk as [[Hd Hp] Hk], Hn as [[_ Hu] Hn].
      destruct (IH Hk Hn) as (per & Eper & Lper & Fper).
      assert (Hrows : exists rows,
                 py_map (result_row h) (past_races h) = Ret rows
                 /\ length rows = length (past_races h)
                 /\ Forall result_row_ok rows).
      { clear IH Eper. induction (past_races h) as [|r rs IHr]; cbn [py_map].
        - exists []. repeat split. constructor.
        - apply Forall_cons in Hp as [Hr Hp], Hu as [[Hj Hw] Hu].
          destruct (IHr Hp Hu) as (rows & Er & Lr & Fr).
          destruct (result_row_returns h r Hd Hr Hj Hw) as (row & Erow & Hrow).
          rewrite Erow, Er. exists (row :: rows).
          repeat split; [cbn; by rewrite Lr | by constructor]. }
      destruct Hrows as (rows & Er & Lr & Fr). rewrite Er, Eper.
      exists (rows :: per). cbn [concat map sum_list].
      repeat split; [by rewrite length_app, Lr, Lper | by apply Forall_app]. }
  destruct H as (per & Eper & Lper & Fper).
  eexists _, _, (concat per). split; [reflexivity|].
  unfold detailed_results_rows. cbn [horses_data parsed_horses_data].
  rewrite Eper. cbn [mbind py_bind].
  repeat split; [by destruct (concat per) | exact Lper | exact Fper].
Qed.

Lemma race_str_returns (r : gmap string (list N)) :
  dom r = list_to_set race_result_keys -> exists s, race_str r = Ret s.
Proof.
  intros Hr. unfold race_str.
  rewrite !(subscript_present _ _ _ Hr) by (by vm_compute). by eexists.
Qed.

Lemma flatten_horse_returns (h : horse) :
  horse_keyed h -> exists row, flatten_horse h = Ret row /\ flattened h row.
Proof.
  intros [Hd Hp]. unfold flatten_horse.
  assert (Hnone : fields h !! "recent_3_races" = None).
  { apply not_elem_of_dom. rewrite Hd, elem_of_list_to_set. key_not_in. }
  assert (Hrow : forall recent,
             flattened h (<["recent_3_races" := recent]> (fields h))).
  { intros recent. split.
    - rewrite delete_insert_eq. by apply delete_id.
    - exists recent. apply lookup_insert_eq. }
  destruct (past_races h) as [|r rs] eqn:Ep; [by eexists|].
  destruct (py_map_ok race_str
              (fun r => dom r = list_to_set race_result_keys)
              (fun _ _ => True) (take 3 (r :: rs))) as (strs & -> & _).
  - intros x Hx. destruct (race_str_returns x Hx) as (s & ->). by exists s.
  - by apply Forall_take.
  - by eexists.
Qed.

(** X18: after a call of [parse_keiba_data] the entrant export raises no
    [KeyError]: it returns [None] when no entrant was found and otherwise
    one row per entrant, in order, each being the seventeen fields of the
    entrant with the one added key [recent_3_races]. *)
Theorem X18_entrant_export_rows (self : organizer) (text : list N) :
  exists self' result rows,
    parse_keiba_data self text = Some (self', result)
    /\ horses_csv_rows self'
       = Ret (match parsed_horses_data result with
              | [] => None
              | _ :: _ => Some rows
              end)
    /\ Forall2 flattened (parsed_horses_data result) rows.
Proof.
  destruct (parse_keiba_data_state self text) as (horses & E & ->).
  pose proof (extract_horses_data_keyed _ _ E) as Hk. clear E.
  destruct (py_map_ok flatten_horse horse_keyed flattened horses)
    as (rows & Erows & Hrows); [apply flatten_horse_returns | exact Hk |].
  eexists _, _, rows. split; [reflexivity|].
  unfold horses_csv_rows. cbn [horses_data parsed_horses_data].
  split; [|exact Hrows].
  destruct horses as [|h hs]; [reflexivity|]. by rewrite Erows.
Qed.

(** X19: after a call of [parse_keiba_data] the race summary always has
    its one row, the record of race information, also when no field was
    recognised; on an object that has parsed nothing it is [None]. *)
Theorem X19_race_summary_row (self : organizer) (text : list N) :
  exists self' result,
    parse_keiba_data self text = Some (self', result)
    /\ race_summary_rows self' = Some [parsed_race_info result]
    /\ race_summary_rows organizer_new = None.
Proof.
  destruct (parse_keiba_data_state self text) as (horses & E & ->).
  eexists _, _. split; [reflexivity|]. split; [|reflexivity].
  unfold race_summary_rows. cbn [race_info parsed_race_info].
  rewrite bool_decide_eq_false_2; [reflexivity|].
  intros Hempty. apply (f_equal dom) in Hempty.
  rewrite dom_extract_race_info, dom_empty_L in Hempty.
  discriminate Hempty.
Qed.

(** ** The formats of the entrant fields *)

(** What a pattern without groups consumes. *)
Lemma free_consumes (r : regex) (st : mstate) (k : mstate -> option mstate)
  (x : mstate) :
  no_groups r = true ->
  rmatch r st k = Some x ->
  exists w st',
    rest st = w ++ rest st' /\ pos st' = (pos st + length w)%nat
    /\ Matches r (pos st, rest st) (pos st', rest st')
    /\ caps st' = caps st /\ k st' = Some x.
Proof.
  intros Hng H. apply (rmatch_keeps_caps r Hng) in H as (st' & M & Hc & Hk).
  pose proof (Matches_prefix _ _ _ M) as (w & Ew & Lw & _). cbn [fst snd] in *.
  by exists w, st'.
Qed.

(** What a group around a pattern without groups captures. *)
Lemma group_captures (n : nat) (r : regex) (st : mstate)
  (k : mstate -> option mstate) (x : mstate) :
  no_groups r = true ->
  rmatch (Group n r) st k = Some x ->
  exists w st',
    rest st = w ++ rest st' /\ pos st' = (pos st + length w)%nat
    /\ Matches r (pos st, rest st) (pos st', rest st')
    /\ caps st' = caps st /\ k (set_cap n w st') = Some x.
Proof.
  rewrite rmatch_group. intros Hng H.
  apply (free_consumes r _ _ _ Hng) in H as (w & st' & Ew & Lw & M & Hc & Hk).
  exists w, st'. repeat split; try assumption.
  rewrite <- Hk. do 2 f_equal. rewrite Ew, Lw.
  symmetry. apply take_app_length'. lia.
Qed.

Lemma Matches_digits (i j : nat) (s s' : list N) :
  Matches (Plus D) (i, s) (j, s') -> exists w, s = w ++ s' /\ digits w.
Proof.
  intros (w & Hw & E & _ & F)%Matches_plus_chr. exists w. by repeat split.
Qed.

Lemma Matches_char (c : string) (i j : nat) (s s' : list N) :
  Matches (C c) (i, s) (j, s') -> s = ch c :: s'.
Proof.
  intros (x & -> & _ & Hx%N.eqb_eq)%Matches_chr_inv. by rewrite Hx.
Qed.

Lemma Matches_decimal (i j : nat) (s s' : list N) :
  Matches (seqs [Plus D; C "."; Plus D]) (i, s) (j, s') ->
  exists a b, s = (a ++ u "." ++ b) ++ s' /\ digits a /\ digits b.
Proof.
  cbn [seqs].
  intros ([i1 s1] & H1 & ([i2 s2] & H2 & H3)%Matches_seq_inv)%Matches_seq_inv.
  apply Matches_digits in H1 as (a & -> & Da).
  apply Matches_char in H2 as ->.
  apply Matches_digits in H3 as (b & -> & Db).
  exists a, b. split; [|by split]. by rewrite <- !app_assoc.
Qed.

Lemma Matches_signed (i j : nat) (s s' : list N) :
  Matches (Seq (Opt (AnyOf "+-")) (Plus D)) (i, s) (j, s') ->
  exists sign b,
    s = (sign ++ b) ++ s' /\ digits b
    /\ (sign = [] \/ sign = u "+" \/ sign = u "-").
Proof.
  intros ([i1 s1] & H1 & H2)%Matches_seq_inv.
  apply Matches_digits in H2 as (b & -> & Db).
  unfold Opt in H1. inversion H1 as [| | |a0 b0 p q H| a0 b0 p q H| | | | | | |]; subst.
  - apply Matches_chr_inv in H as (c & -> & _ & Hc).
    apply existsb_exists in Hc as (x & Hin & ->%N.eqb_eq).
    exists [x], b. split; [reflexivity|]. split; [exact Db|].
    vm_compute in Hin. destruct Hin as [<-|[<-|[]]]; auto.
  - inversion H; subst. exists [], b. split; [reflexivity|]. split; [exact Db | by left].
Qed.

Lemma weight_shape (i : nat) (s : list N) (m : mstate) :
  match_at weight_re i s = Some m ->
  exists sign b,
    digits (group 1 m) /\ group 2 m = sign ++ b /\ digits b
    /\ (sign = [] \/ sign = u "+" \/ sign = u "-").
Proof.
  unfold match_at. rewrite rmatch_group.
  unfold weight_re, seqs. rewrite rmatch_seq.
  intros H. apply group_captures in H as (w1 & st1 & E1 & _ & M1 & C1 & H);
    [|reflexivity].
  rewrite rmatch_seq in H.
  apply free_consumes in H as (w2 & st2 & E2 & _ & M2 & C2 & H); [|reflexivity].
  rewrite rmatch_seq in H.
  apply free_consumes in H as (w3 & st3 & E3 & _ & M3 & C3 & H); [|reflexivity].
  rewrite rmatch_seq in H.
  apply group_captures in H as (w4 & st4 & E4 & _ & M4 & C4 & H); [|reflexivity].
  apply free_consumes in H as (w5 & st5 & E5 & _ & M5 & C5 & H); [|reflexivity].
  injection H as <-.
  cbn [pos rest caps set_cap] in *.
  apply Matches_digits in M1 as (a & Ea & Da).
  apply Matches_signed in M4 as (sign & b & Eb & Db & Hs).
  rewrite E1 in Ea. apply app_inv_tail in Ea as ->.
  rewrite E4 in Eb. apply app_inv_tail in Eb as ->.
  exists sign, b. unfold group. cbn [caps set_cap assoc_cap Nat.eqb].
  rewrite C5. cbn [assoc_cap Nat.eqb]. rewrite C4, C3, C2. cbn [assoc_cap Nat.eqb].
  exact (conj Da (conj eq_refl (conj Db Hs))).
Qed.

Lemma odds_shape (i : nat) (s : list N) (m : mstate) :
  match_at odds_re i s = Some m ->
  exists a b,
    group 1 m = a ++ u "." ++ b /\ digits a /\ digits b /\ digits (group 2 m).
Proof.
  unfold match_at. rewrite rmatch_group.
  unfold odds_re. cbn [seqs]. rewrite rmatch_seq.
  intros H. apply group_captures in H as (w1 & st1 & E1 & _ & M1 & C1 & H);
    [|reflexivity].
  rewrite rmatch_seq in H.
  apply free_consumes in H as (w2 & st2 & E2 & _ & M2 & C2 & H); [|reflexivity].
  rewrite rmatch_seq in H.
  apply free_consumes in H as (w3 & st3 & E3 & _ & M3 & C3 & H); [|reflexivity].
  rewrite rmatch_seq in H.
  apply group_captures in H as (w4 & st4 & E4 & _ & M4 & C4 & H); [|reflexivity].
  rewrite rmatch_seq in H.
  apply free_consumes in H as (w5 & st5 & E5 & _ & M5 & C5 & H); [|reflexivity].
  apply free_consumes in H as (w6 & st6 & E6 & _ & M6 & C6 & H); [|reflexivity].
  injection H as <-.
  cbn [pos rest caps set_cap] in *.
  apply Matches_decimal in M1 as (a & b & Ea & Da & Db).
  apply Matches_digits in M4 as (n & En & Dn).
  rewrite E1 in Ea. apply app_inv_tail in Ea as ->.
  rewrite E4 in En. apply app_inv_tail in En as ->.
  exists a, b. unfold group. cbn [caps set_cap assoc_cap Nat.eqb].
  rewrite C6, C5. cbn [assoc_cap Nat.eqb]. rewrite C4, C3, C2.
  cbn [assoc_cap Nat.eqb].
  exact (conj eq_refl (conj Da (conj Db Dn))).
Qed.

Lemma load_weight_shape (i : nat) (s : list N) (m : mstate) :
  match_at load_weight_re i s = Some m ->
  exists a b, group 1 m = a ++ u "." ++ b /\ digits a /\ digits b.
Proof.
  unfold match_at. rewrite rmatch_group.
  unfold load_weight_re. cbn [seqs]. rewrite rmatch_seq, rmatch_bol.
  destruct (pos _ =? 0)%nat; [|discriminate]. rewrite rmatch_seq.
  intros H. apply group_captures in H as (w1 & st1 & E1 & _ & M1 & C1 & H);
    [|reflexivity].
  apply free_consumes in H as (w2 & st2 & E2 & _ & M2 & C2 & H); [|reflexivity].
  injection H as <-.
  cbn [pos rest caps set_cap] in *.
  apply Matches_decimal in M1 as (a & b & Ea & Da & Db).
  rewrite E1 in Ea. apply app_inv_tail in Ea as ->.
  exists a, b. unfold group. cbn [caps set_cap assoc_cap Nat.eqb].
  rewrite C2. cbn [assoc_cap Nat.eqb].
  exact (conj eq_refl (conj Da Db)).
Qed.

Lemma age_sex_shape (i : nat) (s : list N) (m : mstate) :
  match_at age_sex_re i s = Some m ->
  exists c,
    group 1 m = [c] /\ c ∈ u "牡牝セ" /\ digits (group 2 m) /\ group 3 m <> [].
Proof.
  unfold match_at. rewrite rmatch_group.
  unfold age_sex_re. cbn [seqs]. rewrite rmatch_seq, rmatch_bol.
  destruct (pos _ =? 0)%nat; [|discriminate]. rewrite rmatch_seq.
  intros H. apply group_captures in H as (w1 & st1 & E1 & _ & M1 & C1 & H);
    [|reflexivity].
  rewrite rmatch_seq in H.
  apply group_captures in H as (w2 & st2 & E2 & _ & M2 & C2 & H); [|reflexivity].
  rewrite rmatch_seq in H.
  apply group_captures in H as (w3 & st3 & E3 & _ & M3 & C3 & H); [|reflexivity].
  apply free_consumes in H as (w4 & st4 & E4 & _ & M4 & C4 & H); [|reflexivity].
  injection H as <-.
  cbn [pos rest caps set_cap] in *.
  apply Matches_chr_inv in M1 as (c & Ec & _ & Hc).
  apply Matches_digits in M2 as (n & En & Dn).
  apply Matches_plus_chr in M3 as (w & Hw & Ew & _ & _).
  rewrite E1 in Ec. apply (app_inv_tail _ _ [c]) in Ec as ->.
  rewrite E2 in En. apply app_inv_tail in En as ->.
  rewrite E3 in Ew. apply app_inv_tail in Ew as ->.
  exists c. unfold group. cbn [caps set_cap assoc_cap Nat.eqb].
  rewrite C4. cbn [assoc_cap Nat.eqb]. rewrite C3. cbn [assoc_cap Nat.eqb].
  rewrite C2. cbn [assoc_cap Nat.eqb].
  repeat split; try assumption; [|apply Dn|apply Dn].
  apply existsb_exists in Hc as (x & Hin & ->%N.eqb_eq).
  by apply list_elem_of_In.
Qed.

Lemma Matches_lit2 (c1 c2 : N) (i j : nat) (s s' : list N) :
  Matches (Seq (Chr (N.eqb c1)) (Chr (N.eqb c2))) (i, s) (j, s') ->
  s = [c1; c2] ++ s'.
Proof.
  intros ([i1 s1] & H1 & H2)%Matches_seq_inv.
  apply Matches_chr_inv in H1 as (x & -> & _ & ->%N.eqb_eq).
  apply Matches_chr_inv in H2 as (y & -> & _ & ->%N.eqb_eq).
  reflexivity.
Qed.

Lemma Matches_alt_inv (a b : regex) (p q : nat * list N) :
  Matches (Alt a b) p q -> Matches a p q \/ Matches b p q.
Proof. intros H. inversion H; subst; auto. Qed.

Lemma stable_shape (i : nat) (s : list N) (m : mstate) :
  match_at stable_re i s = Some m ->
  group 1 m = u "美浦" \/ group 1 m = u "栗東".
Proof.
  unfold match_at. rewrite rmatch_group.
  unfold stable_re. cbn [seqs]. rewrite rmatch_seq.
  intros H. apply group_captures in H as (w1 & st1 & E1 & _ & M1 & C1 & H);
    [|reflexivity].
  rewrite rmatch_seq in H.
  apply free_consumes in H as (w2 & st2 & E2 & _ & M2 & C2 & H); [|reflexivity].
  apply group_captures in H as (w3 & st3 & E3 & _ & M3 & C3 & H); [|reflexivity].
  injection H as <-.
  cbn [pos rest caps set_cap] in *.
  unfold group. cbn [caps set_cap assoc_cap Nat.eqb].
  rewrite C3, C2. cbn [assoc_cap Nat.eqb].
  apply Matches_alt_inv in M1 as [H|H];
    apply Matches_lit2 in H; rewrite E1 in H;
    apply app_inv_tail in H as ->; [by left | by right].
Qed.

Ltac field_rewrite :=
  repeat first [ rewrite field_set_field_eq
               | rewrite field_set_field_ne by discriminate ].

Lemma formats_init (a b : list N) : entrant_formats (horse_init a b).
Proof. unfold entrant_formats. repeat split; by left. Qed.

Lemma formats_other (k : string) (v : list N) (h : horse) :
  k ∈ ["father"; "horse_name"; "mother"; "mother_father"; "jockey"]%string ->
  entrant_formats h -> entrant_formats (set_field k v h).
Proof.
  intros Hk Hh. apply list_elem_of_In in Hk. cbn in Hk.
  unfold entrant_formats.
  repeat (destruct Hk as [<-|Hk]; [field_rewrite; exact Hh|]). destruct Hk.
Qed.

Lemma formats_past (r : gmap string (list N)) (h : horse) :
  entrant_formats h -> entrant_formats (add_past_race r h).
Proof. intros Hh. exact Hh. Qed.

Lemma formats_weight (m : mstate) (i : nat) (s : list N) (h : horse) :
  match_at weight_re i s = Some m ->
  entrant_formats h ->
  entrant_formats
    (set_field "weight" (group 1 m ++ u "kg(" ++ group 2 m ++ u ")") h).
Proof.
  intros (sign & b & Da & E2 & Db & Hs)%weight_shape (_ & O & A & L & S).
  unfold entrant_formats. field_rewrite.
  refine (conj (or_intror _) (conj O (conj A (conj L S)))).
  exists (group 1 m), sign, b. rewrite E2, <- !app_assoc.
  exact (conj eq_refl (conj Da (conj Db Hs))).
Qed.

Lemma formats_odds (m : mstate) (i : nat) (s : list N) (h : horse) :
  match_at odds_re i s = Some m ->
  entrant_formats h ->
  entrant_formats
    (set_field "popularity" (group 2 m ++ u "番人気")
       (set_field "odds" (group 1 m) h)).
Proof.
  intros (a & b & E1 & Da & Db & Dn)%odds_shape (W & _ & A & L & S).
  unfold entrant_formats. field_rewrite.
  refine (conj W (conj (or_intror _) (conj A (conj L S)))).
  exists a, b, (group 2 m).
  exact (conj E1 (conj eq_refl (conj Da (conj Db Dn)))).
Qed.

Lemma formats_age (m : mstate) (i : nat) (s : list N) (h : horse) :
  match_at age_sex_re i s = Some m ->
  entrant_formats h ->
  entrant_formats
    (set_field "coat_color" (group 3 m)
       (set_field "age" (group 2 m ++ u "歳")
          (set_field "sex" (group 1 m) h))).
Proof.
  intros (c & E1 & Hc & Dn & H3)%age_sex_shape (W & O & _ & L & S).
  unfold entrant_formats. field_rewrite.
  refine (conj W (conj O (conj (or_intror _) (conj L S)))).
  exists c, (group 2 m).
  exact (conj E1 (conj Hc (conj eq_refl (conj Dn H3)))).
Qed.

Lemma formats_load_weight (m : mstate) (i : nat) (s : list N) (h : horse) :
  match_at load_weight_re i s = Some m ->
  entrant_formats h ->
  entrant_formats (set_field "load_weight" (group 1 m ++ u "kg") h).
Proof.
  intros (a & b & E1 & Da & Db)%load_weight_shape (W & O & A & _ & S).
  unfold entrant_formats. field_rewrite.
  refine (conj W (conj O (conj A (conj (or_intror _) S)))).
  exists a, b. rewrite E1, <- !app_assoc.
  exact (conj eq_refl (conj Da Db)).
Qed.

Lemma formats_stable (m : mstate) (i : nat) (s : list N) (h : horse) :
  match_at stable_re i s = Some m ->
  entrant_formats h ->
  entrant_formats
    (set_field "trainer" (strip (group 2 m))
       (set_field "stable_type" (group 1 m) h)).
Proof.
  intros H1%stable_shape (W & O & A & L & _).
  unfold entrant_formats. field_rewrite.
  exact (conj W (conj O (conj A (conj L (or_intror H1))))).
Qed.

Lemma search_found (r : regex) (s : list N) (m : mstate) :
  re_search r s = Some m -> exists i s', match_at r i s' = Some m.
Proof.
  intros (pre & s' & _ & H)%search_from_found. by exists (0 + length pre)%nat, s'.
Qed.

Lemma formats_positional (lines : list (list N)) (i : nat) (h : horse) :
  entrant_formats h -> entrant_formats (positional_fields lines i h).1.
Proof.
  intros Hh. unfold positional_fields.
  repeat case_match; simplify_eq; cbn [fst];
    repeat first
      [ assumption
      | apply formats_other; [key_in|]
      | match goal with
        | E : re_search stable_re _ = Some _ |- _ =>
            apply search_found in E as (? & ? & E);
            apply (formats_stable _ _ _ _ E)
        end ].
Qed.

Lemma formats_jockey_lookahead (lines : list (list N)) (k : nat) (h : horse) :
  entrant_formats h -> entrant_formats (jockey_lookahead lines k h).
Proof.
  intros Hh. unfold jockey_lookahead.
  repeat case_match; try assumption. by apply formats_other; [key_in|].
Qed.

Lemma matched_search (r : regex) (s : list N) :
  matched (re_search r s) = true ->
  exists m i s', re_search r s = Some m /\ match_at r i s' = Some m.
Proof.
  destruct (re_search r s) as [m|] eqn:E; [|discriminate].
  intros _. apply search_found in E as (i & s' & E). by exists m, i, s'.
Qed.

Lemma formats_scan_line (lines : list (list N)) (k : nat)
  (current_line : list N) (h : horse) :
  entrant_formats h -> entrant_formats (scan_line lines k current_line h).
Proof.
  intros Hh. unfold scan_line. cbv zeta.
  repeat match goal with
    | |- entrant_formats h => exact Hh
    | |- entrant_formats (add_past_race _ _) => apply formats_past
    | |- entrant_formats (jockey_lookahead _ _ _) =>
        apply formats_jockey_lookahead
    | E : match_at weight_re _ _ = Some _ |- _ =>
        apply (formats_weight _ _ _ _ E); clear E
    | E : match_at odds_re _ _ = Some _ |- _ =>
        apply (formats_odds _ _ _ _ E); clear E
    | E : match_at age_sex_re _ _ = Some _ |- _ =>
        apply (formats_age _ _ _ _ E); clear E
    | E : match_at load_weight_re _ _ = Some _ |- _ =>
        apply (formats_load_weight _ _ _ _ E); clear E
    | |- entrant_formats (if matched (re_search ?r ?l) && ?b then _ else _) =>
        let E := fresh "E" in
        destruct (matched (re_search r l)) eqn:E; cbn [andb];
        [ destruct b;
          [ apply matched_search in E as (? & ? & ? & -> & E); cbn [grp]
          | clear E ]
        | clear E ]
    | |- entrant_formats (if ?b then _ else _) => destruct b
    end.
Qed.

(** X20: every entrant field that the inner loop or the stable line fills
    in is empty or has the form of its pattern, and the fields read from
    one line are filled together: [weight] is digits, [kg(], an optional
    sign, digits and [)]; [odds] is a decimal number and [popularity]
    digits and the popularity suffix, both empty or both filled; [sex] is
    one of the three sex characters, [age] digits and the age suffix and
    [coat_color] non-empty, all empty or all filled; [load_weight] is a
    decimal number and [kg]; [stable_type] is one of the two training
    centres, or empty together with [trainer]. *)
Theorem X20_entrant_field_formats (lines : list (list N)) :
  exists horses,
    extract_horses_data lines = Some horses
    /\ Forall entrant_formats horses.
Proof.
  destruct (extract_horses_data_total lines) as (horses & E).
  exists horses. split; [exact E|].
  apply (extract_horses_data_invariant lines entrant_formats);
    [apply formats_init | apply formats_positional | | exact E].
  intros k l h _. apply formats_scan_line.
Qed.

(** ** The formats of the fields of a past-race record *)

Lemma no_groups_lit_chars (s : list N) : no_groups (lit_chars s) = true.
Proof.
  induction s as [|c [|d s] IH]; [reflexivity..|].
  change (lit_chars (c :: d :: s)) with (Seq (Chr (N.eqb c)) (lit_chars (d :: s))).
  cbn [no_groups]. exact IH.
Qed.

Ltac walk H :=
  repeat first
    [ let w := fresh "w" in
      let st := fresh "st" in
      let E := fresh "E" in
      let M := fresh "M" in
      let Cp := fresh "Cp" in
      apply group_captures in H as (w & st & E & _ & M & Cp & H);
      [|reflexivity]
    | let w := fresh "w" in
      let st := fresh "st" in
      let E := fresh "E" in
      let M := fresh "M" in
      let Cp := fresh "Cp" in
      apply free_consumes in H as (w & st & E & _ & M & Cp & H);
      [|first [reflexivity | apply no_groups_lit_chars]]
    | rewrite rmatch_seq in H ].

Ltac caps_simpl :=
  unfold group;
  repeat (cbn [caps set_cap assoc_cap Nat.eqb];
          match goal with
          | Cp : caps ?st = _ |- context [caps ?st] => rewrite Cp
          end);
  cbn [caps set_cap assoc_cap Nat.eqb].

Ltac captured E M :=
  rewrite E in M; apply app_inv_tail in M; subst.

Lemma course_shape (i : nat) (s : list N) (m : mstate) :
  match_at course_re i s = Some m ->
  exists c, group 1 m = [c] /\ c ∈ u "ダ芝" /\ digits (group 2 m).
Proof.
  unfold match_at. rewrite rmatch_group. unfold course_re. cbn [seqs].
  intros H. walk H. injection H as <-. cbn [pos rest caps set_cap] in *.
  apply Matches_chr_inv in M as (c & Ec & _ & Hc).
  apply Matches_digits in M0 as (n & En & Dn).
  rewrite E in Ec. apply (app_inv_tail _ _ [c]) in Ec as ->.
  rewrite E0 in En. apply app_inv_tail in En as ->.
  exists c. caps_simpl. repeat split; [|apply Dn..].
  apply existsb_exists in Hc as (x & Hin & ->%N.eqb_eq).
  by apply list_elem_of_In.
Qed.

Lemma Matches_time (i j : nat) (s s' : list N) :
  Matches (seqs [Plus D; C ":"; Plus D; C "."; Plus D]) (i, s) (j, s') ->
  exists a b c,
    s = (a ++ u ":" ++ b ++ u "." ++ c) ++ s'
    /\ digits a /\ digits b /\ digits c.
Proof.
  cbn [seqs].
  intros ([i1 s1] & H1 & ([i2 s2] & H2 & ([i3 s3] & H3 & ([i4 s4] & H4 & H5)
            %Matches_seq_inv)%Matches_seq_inv)%Matches_seq_inv)%Matches_seq_inv.
  apply Matches_digits in H1 as (a & -> & Da).
  apply Matches_char in H2 as ->.
  apply Matches_digits in H3 as (b & -> & Db).
  apply Matches_char in H4 as ->.
  apply Matches_digits in H5 as (c & -> & Dc).
  exists a, b, c. split; [|exact (conj Da (conj Db Dc))].
  by rewrite <- !app_assoc.
Qed.

Lemma time_shape (i : nat) (s : list N) (m : mstate) :
  match_at time_re i s = Some m ->
  exists a b c,
    group 1 m = a ++ u ":" ++ b ++ u "." ++ c
    /\ digits a /\ digits b /\ digits c.
Proof.
  unfold match_at. rewrite rmatch_group. unfold time_re.
  intros H. walk H. injection H as <-. cbn [pos rest caps set_cap] in *.
  apply Matches_time in M as (a & b & c & Ea & Da & Db & Dc).
  rewrite E in Ea. apply app_inv_tail in Ea as ->.
  exists a, b, c. caps_simpl. exact (conj eq_refl (conj Da (conj Db Dc))).
Qed.

Lemma Matches_lit1 (c : N) (i j : nat) (s s' : list N) :
  Matches (Chr (N.eqb c)) (i, s) (j, s') -> s = [c] ++ s'.
Proof. by intros (x & -> & _ & ->%N.eqb_eq)%Matches_chr_inv. Qed.

Lemma track_shape (i : nat) (s : list N) (m : mstate) :
  match_at track_re i s = Some m ->
  group 1 m ∈ [[]; u "良"; u "稍重"; u "重"; u "不良"].
Proof.
  unfold match_at. rewrite rmatch_group. unfold track_re.
  intros H. walk H. injection H as <-. cbn [pos rest caps set_cap] in *.
  caps_simpl. cbn [alts] in M.
  apply Matches_alt_inv in M as [M|[M|[M|M]%Matches_alt_inv]%Matches_alt_inv];
    [ apply Matches_lit1 in M | apply Matches_lit2 in M
    | apply Matches_lit1 in M | apply Matches_lit2 in M ];
    rewrite E in M; apply app_inv_tail in M as ->;
    apply list_elem_of_In; cbn; tauto.
Qed.

Lemma basic_info_shape (i : nat) (s : list N) (m : mstate) :
  match_at basic_info_re i s = Some m ->
  digits (group 1 m) /\ digits (group 3 m).
Proof.
  unfold match_at. rewrite rmatch_group. unfold basic_info_re. cbn [seqs].
  intros H. walk H. injection H as <-. cbn [pos rest caps set_cap] in *.
  apply Matches_digits in M as (a & Ea & Da).
  apply Matches_digits in M5 as (c & Ec & Dc).
  rewrite E in Ea. apply app_inv_tail in Ea as ->.
  rewrite E5 in Ec. apply app_inv_tail in Ec as ->.
  caps_simpl. by split.
Qed.

Lemma venue_finish_shape (venue : list N) (i : nat) (s : list N) (m : mstate) :
  match_at (venue_finish_re venue) i s = Some m -> digits (group 1 m).
Proof.
  unfold match_at. rewrite rmatch_group. unfold venue_finish_re.
  intros H. walk H. injection H as <-. cbn [pos rest caps set_cap] in *.
  apply Matches_digits in M0 as (n & En & Dn).
  rewrite E0 in En. apply app_inv_tail in En as ->.
  caps_simpl. exact Dn.
Qed.

Lemma venue_finish_found (venues : list (list N)) (race_line : list N)
  (m : mstate) :
  venue_finish venues race_line = Some m -> digits (group 1 m).
Proof.
  induction venues as [|venue venues IH]; cbn [venue_finish]; [discriminate|].
  destruct (re_search (venue_finish_re venue) race_line) as [x|] eqn:E;
    [|exact IH].
  intros [= ->]. apply search_found in E as (i & s & E).
  by apply venue_finish_shape in E.
Qed.

Lemma alt_finish_shape (i : nat) (s : list N) (m : mstate) :
  match_at alt_finish_re i s = Some m ->
  digits (group 1 m) /\ digits (group 2 m).
Proof.
  unfold match_at. rewrite rmatch_group. unfold alt_finish_re. cbn [seqs].
  intros H. walk H. injection H as <-. cbn [pos rest caps set_cap] in *.
  apply Matches_digits in M as (a & Ea & Da).
  apply Matches_digits in M2 as (b & Eb & Db).
  rewrite E in Ea. apply app_inv_tail in Ea as ->.
  rewrite E2 in Eb. apply app_inv_tail in Eb as ->.
  caps_simpl. by split.
Qed.

Lemma popularity_shape (i : nat) (s : list N) (m : mstate) :
  match_at popularity_re i s = Some m -> digits (group 1 m).
Proof.
  unfold match_at. rewrite rmatch_group. unfold popularity_re. cbn [seqs].
  intros H. walk H. injection H as <-. cbn [pos rest caps set_cap] in *.
  apply Matches_digits in M as (a & Ea & Da).
  rewrite E in Ea. apply app_inv_tail in Ea as ->.
  caps_simpl. exact Da.
Qed.

(** Assignments that keep the formats. *)
Lemma race_formats_init : race_formats race_result_init.
Proof.
  unfold race_formats, with_unit.
  repeat split; by left.
Qed.

Lemma race_formats_other (k : string) (v : list N) (d : gmap string (list N)) :
  k ∈ ["date"; "venue"; "passage_position"; "race_name"; "winner_name";
       "time_diff"]%string ->
  race_formats d -> race_formats (<[k := v]> d).
Proof.
  intros Hk Hd. apply list_elem_of_In in Hk. cbn in Hk. unfold race_formats.
  repeat (destruct Hk as [<-|Hk];
          [rewrite !lookup_total_insert_ne by discriminate; exact Hd|]).
  destruct Hk.
Qed.

Ltac insert_rewrite :=
  repeat first [ rewrite lookup_total_insert_eq
               | rewrite lookup_total_insert_ne by discriminate ].

Lemma race_formats_finish (n : list N) (d : gmap string (list N)) :
  digits n -> race_formats d ->
  race_formats (<["finish_position" := n ++ u "着"]> d).
Proof.
  intros Dn (_ & H2 & H3 & H4 & H5 & H6). unfold race_formats. insert_rewrite.
  refine (conj (or_intror _) (conj H2 (conj H3 (conj H4 (conj H5 H6))))).
  by exists n.
Qed.

Lemma race_formats_field_size (n : list N) (d : gmap string (list N)) :
  digits n -> race_formats d ->
  race_formats (<["field_size" := n ++ u "頭"]> d).
Proof.
  intros Dn (H1 & _ & H3 & H4 & H5 & H6). unfold race_formats. insert_rewrite.
  refine (conj H1 (conj (or_intror _) (conj H3 (conj H4 (conj H5 H6))))).
  by exists n.
Qed.

Lemma race_formats_popularity (n : list N) (d : gmap string (list N)) :
  digits n -> race_formats d ->
  race_formats (<["popularity" := n ++ u "番人気"]> d).
Proof.
  intros Dn (H1 & H2 & _ & H4 & H5 & H6). unfold race_formats. insert_rewrite.
  refine (conj H1 (conj H2 (conj (or_intror _) (conj H4 (conj H5 H6))))).
  by exists n.
Qed.

Lemma race_formats_track (v : list N) (d : gmap string (list N)) :
  v ∈ [[]; u "良"; u "稍重"; u "重"; u "不良"] -> race_formats d ->
  race_formats (<["track_condition" := v]> d).
Proof.
  intros Hv (H1 & H2 & H3 & _ & H5 & H6). unfold race_formats. insert_rewrite.
  exact (conj H1 (conj H2 (conj H3 (conj Hv (conj H5 H6))))).
Qed.

Lemma race_formats_course (c : N) (n : list N) (d : gmap string (list N)) :
  c ∈ u "ダ芝" -> digits n -> race_formats d ->
  race_formats (<["course_info" := [c] ++ n]> d).
Proof.
  intros Hc Dn (H1 & H2 & H3 & H4 & _ & H6). unfold race_formats. insert_rewrite.
  refine (conj H1 (conj H2 (conj H3 (conj H4 (conj (or_intror _) H6))))).
  by exists c, n.
Qed.

Lemma race_formats_time (a b c : list N) (d : gmap string (list N)) :
  digits a -> digits b -> digits c -> race_formats d ->
  race_formats (<["time" := a ++ u ":" ++ b ++ u "." ++ c]> d).
Proof.
  intros Da Db Dc (H1 & H2 & H3 & H4 & H5 & _). unfold race_formats.
  insert_rewrite.
  refine (conj H1 (conj H2 (conj H3 (conj H4 (conj H5 (or_intror _)))))).
  exists a, b, c. exact (conj eq_refl (conj Da (conj Db Dc))).
Qed.

Ltac found E :=
  apply matched_search in E as (? & ? & ? & -> & E); cbn [grp].

Ltac measure_steps all_text Hd :=
  destruct (matched (re_search track_re all_text)) eqn:Et;
    [found Et; apply track_shape in Et; apply race_formats_track; [exact Et|]|];
    (destruct (matched (re_search time_re all_text)) eqn:Em;
     [found Em; apply time_shape in Em as (a & b & c & -> & Da & Db & Dc);
      apply race_formats_time; [exact Da | exact Db | exact Dc |]|]);
    (destruct (matched (re_search course_re all_text)) eqn:Ec;
     [found Ec; apply course_shape in Ec as (c0 & -> & Hc & Dn);
      apply race_formats_course; [exact Hc | exact Dn |]|]);
    exact Hd.

Lemma past_measures_formats (all_text : list N) (d : gmap string (list N)) :
  race_formats d -> race_formats (past_measures all_text d).
Proof.
  intros Hd. unfold past_measures. cbv zeta.
  destruct (matched (re_search basic_info_re all_text)) eqn:Eb;
    [|measure_steps all_text Hd].
  found Eb. apply basic_info_shape in Eb as [D1 D3].
  apply race_formats_popularity; [exact D3|].
  apply race_formats_field_size; [exact D1|].
  measure_steps all_text Hd.
Qed.

Lemma past_finish_formats (race_line : list N) (d : gmap string (list N)) :
  race_formats d -> race_formats (past_finish race_line d).
Proof.
  intros Hd. unfold past_finish.
  destruct (venue_finish all_venues race_line) as [m|] eqn:E; [|exact Hd].
  apply race_formats_finish; [|exact Hd]. by apply venue_finish_found in E.
Qed.

Lemma past_passage_formats (all_text : list N) (d : gmap string (list N)) :
  race_formats d -> race_formats (past_passage all_text d).
Proof.
  intros Hd. unfold past_passage. cbv zeta.
  repeat match goal with
    | |- race_formats (if ?b then _ else _) => destruct b
    | |- race_formats (<[_ := _]> _) => apply race_formats_other; [key_in|]
    end; exact Hd.
Qed.

Lemma past_alt_finish_formats (all_text : list N) (d : gmap string (list N)) :
  race_formats d -> race_formats (past_alt_finish all_text d).
Proof.
  intros Hd. unfold past_alt_finish. cbv zeta.
  destruct (negb _); [|exact Hd].
  destruct (matched (re_search alt_finish_re all_text)) eqn:Ea; [|exact Hd].
  found Ea. apply alt_finish_shape in Ea as [D1 D2].
  destruct (matched (re_search popularity_re all_text)) eqn:Ep.
  - found Ep. apply popularity_shape in Ep.
    apply race_formats_popularity; [exact Ep|].
    apply race_formats_field_size; [exact D2|].
    by apply race_formats_finish.
  - apply race_formats_field_size; [exact D2|].
    by apply race_formats_finish.
Qed.

Lemma past_race_name_formats (context_lines : list (list N))
  (d : gmap string (list N)) :
  race_formats d -> race_formats (past_race_name context_lines d).
Proof.
  intros Hd. unfold past_race_name.
  destruct (find _ _); [|exact Hd]. by apply race_formats_other; [key_in|].
Qed.

Lemma winner_loop_formats (context_lines : list (list N))
  (d : gmap string (list N)) :
  race_formats d -> race_formats (winner_loop context_lines d).
Proof.
  intros Hd. induction context_lines as [|line context_lines IH];
    cbn [winner_loop]; [exact Hd|].
  repeat match goal with
    | |- race_formats (winner_loop _ _) => exact IH
    | |- race_formats (if ?b then _ else _) => destruct b
    | |- race_formats (match ?o with Some _ => _ | None => _ end) => destruct o
    | |- race_formats (<[_ := _]> _) => apply race_formats_other; [key_in|]
    end.
  exact Hd.
Qed.

Lemma parse_past_race_formats (race_line : list N)
  (context_lines : list (list N)) :
  race_formats (parse_past_race race_line context_lines).
Proof.
  rewrite parse_past_race_stages. unfold past_tail. cbv zeta.
  apply winner_loop_formats, past_race_name_formats, past_alt_finish_formats,
    past_passage_formats, past_finish_formats, past_measures_formats.
  apply resolve_venue_closed.
  { intros d v _. apply race_formats_other. key_in. }
  apply past_date_closed; [|apply race_formats_init].
  intros d k v Hk. apply race_formats_other.
  apply elem_of_cons in Hk as [->|Hk]; [key_in|]. by apply elem_of_nil in Hk.
Qed.

(** X21: the fields of a past-race record that are read as numbers have
    the form of their pattern, for every trigger line and context:
    [finish_position], [field_size] and [popularity] are empty or decimal
    digits followed by their unit, [track_condition] is empty or one of
    the four conditions, [course_info] is empty or a surface character
    followed by digits, and [time] is empty or of the form
    digits, colon, digits, point, digits. *)
Theorem X21_past_race_field_formats (race_line : list N)
  (context_lines : list (list N)) :
  race_formats (parse_past_race race_line context_lines).
Proof. apply parse_past_race_formats. Qed.

(** ** The fields of the race information are those of the last line that
    assigns them *)

Section LastAssigned.

Variable key : string.
Variable rule : list N -> option (list N).
Hypothesis key_other : key ∉ ["race_number"; "race_name"]%string.
Hypothesis rule_site : forall line, strip line ∈ site_terms -> rule line = None.
Hypothesis rule_rest : forall d line,
  race_info_rest d line !! key
  = match rule line with Some v => Some v | None => d !! key end.

Lemma race_info_step_rule (d : gmap string (list N)) (line : list N) :
  race_info_step d line !! key
  = match rule line with Some v => Some v | None => d !! key end.
Proof.
  apply not_elem_of_cons in key_other as [Hn1 Hn2].
  apply not_elem_of_cons in Hn2 as [Hn2 _].
  unfold race_info_step. cbv zeta.
  set (d1 := if matched (re_search race_number_re (strip line))
             then <["race_number" := strip line]> d else d).
  assert (H1 : d1 !! key = d !! key).
  { subst d1. destruct (matched _); [by rewrite lookup_insert_ne|reflexivity]. }
  clearbody d1.
  destruct (negb (truthy (d1 !!! "race_name"))).
  - destruct (bool_decide (strip line ∈ site_terms)) eqn:Es.
    + apply bool_decide_eq_true in Es. by rewrite (rule_site _ Es).
    + rewrite rule_rest.
      destruct (special_race_name line); [|by rewrite H1].
      by rewrite lookup_insert_ne, H1.
  - cbn [andb]. by rewrite rule_rest, H1.
Qed.

Lemma fold_rule (lines : list (list N)) :
  forall d,
    fold_left race_info_step lines d !! key
    = match last (omap rule lines) with
      | Some v => Some v
      | None => d !! key
      end.
Proof.
  induction lines as [|line lines IH]; intros d; cbn [fold_left omap list_omap];
    [reflexivity|].
  rewrite IH, race_info_step_rule.
  destruct (rule line) as [v|]; [|reflexivity].
  rewrite last_cons. by destruct (last _).
Qed.

Lemma extract_race_info_rule (lines : list (list N)) :
  race_info_init !! key = Some [] ->
  extract_race_info lines !! key = Some (last_assigned rule lines).
Proof.
  intros H0. unfold extract_race_info, last_assigned.
  rewrite fold_rule, H0. by destruct (last _).
Qed.

End LastAssigned.

(** A site term holds none of the characters that make a line assign a
    field. *)
Lemma site_term_char (line : list N) (c : N) :
  strip line ∈ site_terms -> c ∈ line -> is_space c = false ->
  c ∈ concat site_terms.
Proof.
  intros Hs Hc Hn. apply list_elem_of_In, in_concat.
  exists (strip line). split; apply list_elem_of_In; [exact Hs|].
  by apply strip_keeps.
Qed.

Lemma site_term_no_digit (line : list N) (c : N) :
  strip line ∈ site_terms -> c ∈ line -> is_digit c = true -> False.
Proof.
  intros Hs Hc Hd.
  pose proof (site_term_char line c Hs Hc (is_digit_not_space c Hd)) as Hin.
  assert (F : forallb (fun c => negb (is_digit c)) (concat site_terms) = true)
    by (vm_compute; reflexivity).
  rewrite forallb_forall in F. apply list_elem_of_In, F in Hin.
  by rewrite Hd in Hin.
Qed.

Lemma site_term_not_timing (line : list N) :
  strip line ∈ site_terms -> timing_line line = false.
Proof.
  intros Hs. unfold timing_line.
  destruct (contains (u "発走") line) eqn:E; [|reflexivity]. exfalso.
  apply contains_head in E.
  pose proof (site_term_char line _ Hs E eq_refl) as Hin.
  assert (F : forallb (fun c => negb (c =? ch "発")) (concat site_terms) = true)
    by (vm_compute; reflexivity).
  rewrite forallb_forall in F. apply list_elem_of_In, F in Hin.
  vm_compute in Hin. discriminate Hin.
Qed.

Lemma site_term_no_prize (line : list N) :
  strip line ∈ site_terms -> contains (u "本賞金:") line = false.
Proof.
  intros Hs. destruct (contains _ line) eqn:E; [|reflexivity]. exfalso.
  apply contains_head in E.
  pose proof (site_term_char line _ Hs E eq_refl) as Hin.
  assert (F : forallb (fun c => negb (c =? ch "本")) (concat site_terms) = true)
    by (vm_compute; reflexivity).
  rewrite forallb_forall in F. apply list_elem_of_In, F in Hin.
  vm_compute in Hin. discriminate Hin.
Qed.

Lemma Matches_group_inv (n : nat) (a : regex) (p q : nat * list N) :
  Matches (Group n a) p q -> Matches a p q.
Proof. intros H. by inversion H. Qed.

Lemma meeting_has_digit (line : list N) :
  matched (re_search meeting_re line) = true ->
  exists c, c ∈ line /\ is_digit c = true.
Proof.
  destruct (re_search meeting_re line) as [m|] eqn:E; [|discriminate]. intros _.
  apply search_from_found in E as (pre & s' & -> & E).
  unfold match_at in E. apply rmatch_sound in E as (st & M & _).
  cbn [pos rest] in M. apply Matches_group_inv in M.
  unfold meeting_re in M. cbn [seqs] in M.
  apply Matches_seq_inv in M as ([i1 s1] & M & _).
  apply Matches_plus_chr in M as ([|c w] & Hw & -> & _ & F); [done|].
  exists c. split; [|by apply Forall_cons in F as [F _]].
  rewrite elem_of_app. right. by left.
Qed.

Lemma entry_line_has_digit (line : list N) :
  matched (re_search entry_line_re line) = true ->
  exists c, c ∈ line /\ is_digit c = true.
Proof.
  destruct (re_search entry_line_re line) as [m|] eqn:E; [|discriminate].
  intros _.
  apply search_from_found in E as (pre & s' & -> & E).
  unfold match_at in E. apply rmatch_sound in E as (st & M & _).
  cbn [pos rest] in M. apply Matches_group_inv in M.
  unfold entry_line_re in M. cbn [seqs] in M.
  apply Matches_seq_inv in M as ([i1 s1] & M1 & M).
  apply Matches_seq_inv in M as ([i2 s2] & M & _).
  apply Matches_group_inv in M.
  apply Matches_plus_chr in M1 as (sp & _ & -> & _ & _).
  apply Matches_plus_chr in M as ([|c w] & Hw & -> & _ & F); [done|].
  exists c. split; [|by apply Forall_cons in F as [F _]].
  apply elem_of_app. right. apply elem_of_app. right. by left.
Qed.

Lemma lookup_if_insert_ne (b : bool) (k key : string) (v : list N)
  (d : gmap string (list N)) :
  k <> key -> (if b then <[k := v]> d else d) !! key = d !! key.
Proof. intros Hne. destruct b; [by rewrite lookup_insert_ne|reflexivity]. Qed.

Ltac rule_steps :=
  repeat first
    [ rewrite lookup_insert_eq
    | rewrite lookup_insert_ne by discriminate
    | rewrite lookup_if_insert_ne by discriminate
    | rewrite lookup_set_if_match
        by (intros; rewrite ?lookup_insert_ne by discriminate; reflexivity)
    | match goal with
      | |- set_if_match ?o _ _ !! _ = _ =>
          destruct o; cbn [set_if_match fmap option_fmap option_map]
      | |- (if ?b then _ else _) !! _ = _ =>
          destruct b; cbn [andb fmap option_fmap option_map]
      end ];
  try reflexivity.

Lemma race_info_rest_rules (d : gmap string (list N)) (line : list N) :
  Forall (fun '(key, rule) =>
            race_info_rest d line !! key
            = match rule line with Some v => Some v | None => d !! key end)
    race_info_rules.
Proof.
  unfold race_info_rules, on_timing_line, timing_line.
  repeat apply Forall_cons_2; [..|apply Forall_nil_2];
    unfold race_info_rest; cbv zeta; rule_steps.
Qed.

Lemma race_info_rules_apply :
  Forall (fun '(key, rule) =>
            (key ∉ ["race_number"; "race_name"]%string)
            /\ race_info_init !! key = Some []
            /\ forall line, strip line ∈ site_terms -> rule line = None)
    race_info_rules.
Proof.
  unfold race_info_rules, on_timing_line.
  repeat apply Forall_cons_2; [..|apply Forall_nil_2];
    (split; [key_not_in|]); (split; [reflexivity|]); intros line Hs;
    rewrite ?(site_term_not_timing _ Hs), ?(site_term_no_prize _ Hs);
    try reflexivity.
  - destruct (matched (re_search meeting_re line)) eqn:E; [|reflexivity].
    apply meeting_has_digit in E as (c & Hc & Hd).
    destruct (site_term_no_digit line c Hs Hc Hd).
  - destruct (matched (re_search entry_line_re line)) eqn:E; [|reflexivity].
    apply entry_line_has_digit in E as (c & Hc & Hd).
    destruct (site_term_no_digit line c Hs Hc Hd).
Qed.

(** X22: each of the fields [time], [course_type], [distance],
    [direction], [weather], [track_condition], [venue], [entry_count] and
    [prize_money] of the race information holds what the last line that
    assigns it gives, and the empty string when no line assigns it: a
    later line replaces the value of an earlier one, and the lines passed
    over as site terms never assign any of these fields. *)
Theorem X22_race_info_last_line_wins (lines : list (list N)) :
  Forall (fun '(key, rule) =>
            extract_race_info lines !! key = Some (last_assigned rule lines))
    race_info_rules.
Proof.
  apply Forall_forall. intros [key rule] Hin.
  pose proof race_info_rules_apply as Ha.
  rewrite Forall_forall in Ha. destruct (Ha _ Hin) as (Hk & H0 & Hs).
  apply extract_race_info_rule; try assumption.
  intros d line. pose proof (race_info_rest_rules d line) as Hr.
  rewrite Forall_forall in Hr. exact (Hr _ Hin).
Qed.

Example race_info_last_line_sample :
  let lines := [u "1回東京1日目"; u "15:40発走 芝1600m"; u "2回中山3日目";
                u "10:05発走 ダ1200m (右)"] in
  extract_race_info lines !! "venue" = Some (u "2回中山3日目")
  /\ extract_race_info lines !! "time" = Some (u "10:05")
  /\ extract_race_info lines !! "distance" = Some (u "1200m")
  /\ extract_race_info lines !! "course_type" = Some (u "ダ").
Proof. vm_compute. repeat split. Qed.
